(** * Phase-4 service-account provisioning: a verification development

    Shallow embedding of the [sparc_phase4_*] modules (token validation and
    persistence, retry strategies, the decision engine, token extraction,
    session teardown and the orchestrator) together with the properties
    established about them.

    Text.  A Python [str] is modelled by a Rocq [string]; each character
    stands for the code point with the same number, so the development
    covers texts whose code points are below 256.  [len], slicing, [in],
    [startswith], [str.lower] and the regular-expression class [\s] are
    given their Python meaning on that range. *)

From Stdlib Require Import Ascii String DecimalString List Bool Arith ZArith QArith Qminmax Lia.
From stdpp Require Import base option list sorting strings gmap.

Local Open Scope list_scope.

(** ** Text primitives *)

Module Text.

(** Truth value of a [str]: the empty string is falsy. *)
Definition truthy (s : string) : bool :=
  match s with EmptyString => false | String _ _ => true end.

(** Truth value of an optional [str]: [None] is falsy too. *)
Definition opt_truthy (o : option string) : bool :=
  match o with Some s => truthy s | None => false end.

(** [s.startswith(p)]. *)
Fixpoint startswith (p s : string) : bool :=
  match p, s with
  | EmptyString, _ => true
  | String a p', String b s' => Ascii.eqb a b && startswith p' s'
  | String _ _, EmptyString => false
  end.

(** The rest of [s] after the prefix [p], when [s] starts with [p]. *)
Fixpoint strip_prefix (p s : string) : option string :=
  match p, s with
  | EmptyString, _ => Some s
  | String a p', String b s' =>
      if Ascii.eqb a b then strip_prefix p' s' else None
  | String _ _, EmptyString => None
  end.

(** [needle in hay]. *)
Fixpoint contains (needle hay : string) : bool :=
  startswith needle hay
  || match hay with
     | EmptyString => false
     | String _ hay' => contains needle hay'
     end.

(** [s.endswith(p)]. *)
Fixpoint endswith (p s : string) : bool :=
  String.eqb p s
  || match s with
     | EmptyString => false
     | String _ s' => endswith p s'
     end.

(** Membership of a character in the set built from a string,
    [c in set(chars)]. *)
Fixpoint char_in (c : ascii) (chars : string) : bool :=
  match chars with
  | EmptyString => false
  | String a chars' => Ascii.eqb c a || char_in c chars'
  end.

(** [all(p(c) for c in s)]. *)
Fixpoint forallb_str (p : ascii -> bool) (s : string) : bool :=
  match s with
  | EmptyString => true
  | String a s' => p a && forallb_str p s'
  end.

(** Removal of every character satisfying [p]. *)
Fixpoint remove_chars (p : ascii -> bool) (s : string) : string :=
  match s with
  | EmptyString => EmptyString
  | String a s' =>
      if p a then remove_chars p s' else String a (remove_chars p s')
  end.

(** Longest prefix of [s] made of characters satisfying [p], and the rest:
    what a greedy character-class repetition consumes. *)
Fixpoint span (p : ascii -> bool) (s : string) : string * string :=
  match s with
  | EmptyString => (EmptyString, EmptyString)
  | String a s' =>
      if p a
      then let '(run, rest) := span p s' in (String a run, rest)
      else (EmptyString, s)
  end.

(** [s[:n]]. *)
Fixpoint take (n : nat) (s : string) : string :=
  match n, s with
  | O, _ => EmptyString
  | S n', String a s' => String a (take n' s')
  | S _, EmptyString => EmptyString
  end.

(** [str(n)] for a non-negative integer. *)
Definition str_of_nat (n : nat) : string :=
  NilEmpty.string_of_uint (Nat.to_uint n).

Definition in_range (lo hi : nat) (c : ascii) : bool :=
  (lo <=? nat_of_ascii c) && (nat_of_ascii c <=? hi).

(** The class [\s] of Python's [re] on code points below 256:
    TAB..CR, FS..US, space, NEL and the no-break space. *)
Definition is_space (c : ascii) : bool :=
  in_range 9 13 c || in_range 28 32 c
  || (nat_of_ascii c =? 133) || (nat_of_ascii c =? 160).

(** [str.lower] of one code point below 256: A-Z and the Latin-1 capitals
    (U+00C0..U+00DE except the multiplication sign) move up by 32. *)
Definition lower_char (c : ascii) : ascii :=
  let n := nat_of_ascii c in
  if in_range 65 90 c then ascii_of_nat (n + 32)
  else if in_range 192 222 c && negb (n =? 215) then ascii_of_nat (n + 32)
  else c.

Fixpoint lower (s : string) : string :=
  match s with
  | EmptyString => EmptyString
  | String a s' => String (lower_char a) (lower s')
  end.

(** The newline and the double quote as one-character strings. *)
Definition NL : string := String (ascii_of_nat 10) EmptyString.
Definition DQUOTE : string := String (ascii_of_nat 34) EmptyString.

(** [sep.join(parts)]. *)
Fixpoint join (sep : string) (parts : list string) : string :=
  match parts with
  | [] => EmptyString
  | [p] => p
  | p :: ps => p +:+ sep +:+ join sep ps
  end.

(** [s.lstrip()], [s.rstrip()] and [s.strip()]. *)
Fixpoint lstrip (s : string) : string :=
  match s with
  | EmptyString => EmptyString
  | String a s' => if is_space a then lstrip s' else s
  end.

Fixpoint rstrip (s : string) : string :=
  match s with
  | EmptyString => EmptyString
  | String a s' =>
      match rstrip s' with
      | EmptyString => if is_space a then EmptyString else String a EmptyString
      | r => String a r
      end
  end.

Definition strip (s : string) : string := rstrip (lstrip s).

(** [re.sub(r"\s+", " ", s)]: every maximal run of whitespace becomes one
    space.  [in_run] tells that the previous character was whitespace. *)
Fixpoint collapse_ws_go (in_run : bool) (s : string) : string :=
  match s with
  | EmptyString => EmptyString
  | String a s' =>
      if is_space a
      then if in_run then collapse_ws_go true s'
           else String " "%char (collapse_ws_go true s')
      else String a (collapse_ws_go false s')
  end.

Definition collapse_ws (s : string) : string := collapse_ws_go false s.

(** [s.split()]: the maximal runs of non-whitespace characters.  [cur] is
    the word being read. *)
Fixpoint split_ws_go (cur : string) (s : string) : list string :=
  match s with
  | EmptyString =>
      match cur with EmptyString => [] | _ => [cur] end
  | String a s' =>
      if is_space a
      then match cur with
           | EmptyString => split_ws_go EmptyString s'
           | _ => cur :: split_ws_go EmptyString s'
           end
      else split_ws_go (cur +:+ String a EmptyString) s'
  end.

Definition split_ws (s : string) : list string := split_ws_go EmptyString s.

(** The regular-expression class [[A-Za-z0-9_-]]. *)
Definition token_class (c : ascii) : bool :=
  in_range 65 90 c || in_range 97 122 c || in_range 48 57 c
  || Ascii.eqb c "_"%char || Ascii.eqb c "-"%char.

(** [$] without [re.MULTILINE]: the end of the text, or just before a
    newline that ends the text. *)
Definition at_dollar (rest : string) : bool :=
  match rest with
  | EmptyString => true
  | String c EmptyString => Ascii.eqb c "010"%char
  | _ => false
  end.

(** [s[n:]]. *)
Fixpoint drop (n : nat) (s : string) : string :=
  match n, s with
  | O, _ => s
  | S n', String _ s' => drop n' s'
  | S _, EmptyString => EmptyString
  end.

(** What a text-mode read ([open(p, 'r')], universal newlines) makes of
    the characters of a file: a carriage return followed by a line feed,
    and a carriage return alone, are read as one line feed. *)
Fixpoint universal_newlines (s : string) : string :=
  match s with
  | EmptyString => EmptyString
  | String c s' =>
      if Ascii.eqb c "013"%char then
        match s' with
        | String c' _ =>
            if Ascii.eqb c' "010"%char then universal_newlines s'
            else String "010"%char (universal_newlines s')
        | EmptyString => String "010"%char EmptyString
        end
      else String c (universal_newlines s')
  end.

End Text.

(** ** Exceptions and results *)

Module Py.

(** The exception classes the code distinguishes with [isinstance] and
    [except] clauses.  [TimeoutError] is [asyncio.TimeoutError], which since
    Python 3.11 is the builtin of that name and a subclass of [OSError];
    [ConnectionError] and [PermissionError] are subclasses of [OSError];
    [OtherError] stands for every other subclass of [Exception]
    (RuntimeError, ValueError, ...). *)
Inductive exc_class :=
| TimeoutError | ConnectionError | PermissionError | OSError | OtherError.

(** An exception value: its class, its [errno] and the text [str(e)]. *)
Record exn := {
  exn_class : exc_class;
  exn_errno : option Z;
  exn_str : string
}.

Definition is_OSError (e : exn) : bool :=
  match exn_class e with
  | TimeoutError | ConnectionError | PermissionError | OSError => true
  | OtherError => false
  end.

Definition is_PermissionError (e : exn) : bool :=
  match exn_class e with PermissionError => true | _ => false end.

Definition is_TimeoutError (e : exn) : bool :=
  match exn_class e with TimeoutError => true | _ => false end.

Definition RuntimeError (msg : string) : exn :=
  {| exn_class := OtherError; exn_errno := None; exn_str := msg |}.

(** Outcome of running a piece of code: a value, or a raised exception. *)
Inductive result (A : Type) :=
| Ok (a : A)
| Raise (e : exn).
Arguments Ok {A} a.
Arguments Raise {A} e.

End Py.

(** ** The file system the persister works on *)

Module FS.
Import Text Py.

(** What the next file-system call meets: nothing special; a failure before
    the file is touched; (for a write) a failure after the file was
    truncated and the first [written] characters reached it; or another
    process that has just put [content] in the file the call names. *)
Inductive Fault :=
| NoFault
| FailBefore (e : exn)
| FailPartial (e : exn) (written : nat)
| Changed (content : string).

(** Effects on the file system, in the order they happened. *)
Inductive Event :=
| EvRead (path : string)
| EvWrite (path content : string)
| EvWriteFailed (path : string)
| EvTouch (path : string)
| EvChmod (path : string) (mode : N).

Global Instance Event_eq_dec : EqDecision Event.
Proof. solve_decision. Defined.

(** Regular files with the characters they hold, the permission bits set
    by [chmod], what each file-system call of the run meets (by its number,
    counted from zero), the number of calls made so far, and the effects so
    far.  The files are those of a POSIX system: a text-mode write stores
    the characters it is given. *)
Record World := {
  files : gmap string string;
  modes : gmap string N;
  faults : nat -> Fault;
  calls : nat;
  events : list Event
}.

(** What the code gets from its surroundings without changing them: the
    answers of the operating system about paths, the clock, and two answers
    of the [re] module about a replacement template that are not spelled
    out here. *)
Record Env := {
  expanduser : string -> string;
  islink : string -> bool;
  realpath : string -> string;
  (** [datetime.now().strftime("%Y%m%d_%H%M%S")] *)
  now : string;
  (** whether the name in a group reference [\g<name>] denotes group 0,
      the whole match: [int(name) == 0] *)
  re_group_zero : string -> bool;
  (** the exception raised for a malformed replacement template, by the
      template: an [re.error], or an [IndexError] for a group name *)
  re_error : string -> exn
}.

(** State and exception monad of the file-system code. *)
Definition IO (A : Type) : Type := World -> result A * World.

Definition ret {A} (a : A) : IO A := fun w => (Ok a, w).
Definition raise {A} (e : exn) : IO A := fun w => (Raise e, w).
Definition bind {A B} (m : IO A) (k : A -> IO B) : IO B :=
  fun w =>
    match m w with
    | (Ok a, w') => k a w'
    | (Raise e, w') => (Raise e, w')
    end.
(** [try: m  except Exception as e: h e]. *)
Definition try_except {A} (m : IO A) (h : exn -> IO A) : IO A :=
  fun w =>
    match m w with
    | (Ok a, w') => (Ok a, w')
    | (Raise e, w') => h e w'
    end.

(** The outcome of the call that comes now; the call is counted. *)
Definition next_fault (w : World) : Fault * World :=
  (faults w (calls w),
   {| files := files w; modes := modes w; faults := faults w;
      calls := S (calls w); events := events w |}).

Definition record (ev : Event) (w : World) : World :=
  {| files := files w; modes := modes w; faults := faults w;
     calls := calls w; events := events w ++ [ev] |}.

Definition set_file (p content : string) (w : World) : World :=
  {| files := <[p := content]> (files w); modes := modes w;
     faults := faults w; calls := calls w; events := events w |}.

Definition set_mode (p : string) (mode : N) (w : World) : World :=
  {| files := files w; modes := <[p := mode]> (modes w);
     faults := faults w; calls := calls w; events := events w |}.

Definition FileNotFoundError (p : string) : exn :=
  {| exn_class := OSError; exn_errno := Some 2%Z;
     exn_str := "[Errno 2] No such file or directory: '" +:+ p +:+ "'" |}.

Definition fault_exn (f : Fault) : option exn :=
  match f with
  | NoFault => None
  | FailBefore e => Some e
  | FailPartial e _ => Some e
  | Changed _ => None
  end.

(** The world as the call on [p] finds it. *)
Definition interfere (f : Fault) (p : string) (w : World) : World :=
  match f with
  | Changed content => set_file p content w
  | _ => w
  end.

(** [os.path.exists(p)]. *)
Definition path_exists (p : string) : IO bool :=
  fun w => (Ok (bool_decide (is_Some (files w !! p))), w).

(** [with open(p, 'r') as f: f.read()]: a text-mode read. *)
Definition read_file (p : string) : IO string :=
  fun w =>
    let '(f, w) := next_fault w in
    let w := interfere f p w in
    match fault_exn f with
    | Some e => (Raise e, w)
    | None =>
        match files w !! p with
        | Some content => (Ok (universal_newlines content), record (EvRead p) w)
        | None => (Raise (FileNotFoundError p), w)
        end
    end.

(** [with open(p, 'w') as f: f.write(content)]: the file is created or
    truncated when it is opened. *)
Definition write_file (p content : string) : IO unit :=
  fun w =>
    let '(f, w) := next_fault w in
    match f with
    | NoFault | Changed _ =>
        (Ok tt, record (EvWrite p content) (set_file p content w))
    | FailBefore e => (Raise e, w)
    | FailPartial e written =>
        (Raise e, record (EvWriteFailed p) (set_file p (take written content) w))
    end.

(** [Path(p).touch()]. *)
Definition touch (p : string) : IO unit :=
  fun w =>
    let '(f, w) := next_fault w in
    let w := interfere f p w in
    match fault_exn f with
    | Some e => (Raise e, w)
    | None =>
        match files w !! p with
        | Some _ => (Ok tt, record (EvTouch p) w)
        | None => (Ok tt, record (EvTouch p) (set_file p EmptyString w))
        end
    end.

(** [os.chmod(p, mode)]. *)
Definition chmod (p : string) (mode : N) : IO unit :=
  fun w =>
    let '(f, w) := next_fault w in
    let w := interfere f p w in
    match fault_exn f with
    | Some e => (Raise e, w)
    | None =>
        match files w !! p with
        | Some _ => (Ok tt, record (EvChmod p mode) (set_mode p mode w))
        | None => (Raise (FileNotFoundError p), w)
        end
    end.

End FS.

Declare Scope io_scope.
Delimit Scope io_scope with io.
Notation "x <- m ;; k" := (FS.bind m (fun x => k))
  (at level 100, m at next level, right associativity) : io_scope.
Notation "m ;;; k" := (FS.bind m (fun _ => k))
  (at level 100, right associativity) : io_scope.

(** ** sparc_phase4_cli_integration: token validation and extraction *)

Module Cli.
Import Text.

Record TokenValidation := {
  is_valid : bool;
  errors : list string;
  prefix_ok : bool;
  length_ok : bool;
  charset_ok : bool;
  pattern_match : bool
}.

Definition TOKEN_PREFIX : string := "ops_".
Definition MIN_TOKEN_LENGTH : nat := 100.
Definition ALLOWED_CHARS : string :=
  "ABCDEFGHIJKLMNOPQRSTUVWXYZabcdefghijklmnopqrstuvwxyz0123456789_-".

(** [TOKEN_PATTERN.match(token)] for
    [TOKEN_PATTERN = re.compile(r'^ops_[A-Za-z0-9_-]{100,}$')].  After the
    literal prefix the greedy class takes the longest run; a shorter run
    would leave a class character in front of [$], so the match succeeds
    exactly when the longest run has 100 characters or more and [$] holds
    after it. *)
Definition TOKEN_PATTERN_match (token : string) : bool :=
  match strip_prefix "ops_" token with
  | None => false
  | Some rest =>
      let '(run, tail) := span token_class rest in
      (100 <=? String.length run) && at_dollar tail
  end.

(** The loop [for i, char in enumerate(token)] of check 3: the first
    character outside [ALLOWED_CHARS] and its position, counted from [i]. *)
Fixpoint first_invalid_char (i : nat) (token : string) : option (ascii * nat) :=
  match token with
  | EmptyString => None
  | String c token' =>
      if char_in c ALLOWED_CHARS then first_invalid_char (S i) token'
      else Some (c, i)
  end.

Definition validate_token_format (token : string) : TokenValidation :=
  let errors : list string := [] in
  (* Check 1: prefix *)
  let prefix_ok := if truthy token then startswith TOKEN_PREFIX token else false in
  let errors :=
    if negb prefix_ok
    then errors ++ ["Token must start with '" +:+ TOKEN_PREFIX +:+ "'"]
    else errors in
  (* Check 2: length *)
  let length_ok :=
    if truthy token then MIN_TOKEN_LENGTH <=? String.length token else false in
  let errors :=
    if negb length_ok
    then
      let actual_len := if truthy token then String.length token else 0 in
      errors ++ ["Token too short: " +:+ str_of_nat actual_len +:+ " < "
                 +:+ str_of_nat MIN_TOKEN_LENGTH]
    else errors in
  (* Check 3: character set *)
  let '(charset_ok, errors) :=
    if truthy token then
      match first_invalid_char 0 token with
      | Some (char, i) =>
          (false, errors ++ ["Invalid character '" +:+ String char EmptyString
                             +:+ "' at position " +:+ str_of_nat i])
      | None => (true, errors)
      end
    else (false, errors ++ ["Token is empty or None"]) in
  (* Check 4: full pattern *)
  let pattern_match := if truthy token then TOKEN_PATTERN_match token else false in
  let errors :=
    if negb pattern_match && negb (match errors with [] => false | _ => true end)
    then errors ++ ["Token does not match expected pattern"]
    else errors in
  let is_valid := prefix_ok && length_ok && charset_ok && pattern_match in
  {| is_valid := is_valid;
     errors := errors;
     prefix_ok := prefix_ok;
     length_ok := length_ok;
     charset_ok := charset_ok;
     pattern_match := pattern_match |}.

(** The match of [ops_[A-Za-z0-9_-]{100,}] that starts at the beginning of
    [s], if there is one: the prefix and the longest class run after it. *)
Definition token_match_here (s : string) : option string :=
  match strip_prefix "ops_" s with
  | None => None
  | Some rest =>
      let '(run, _) := span token_class rest in
      if 100 <=? String.length run then Some ("ops_" +:+ run) else None
  end.

(** [re.search(r'(ops_[A-Za-z0-9_-]{100,})', s)] and [match.group(1)]:
    the leftmost position with a match wins. *)
Fixpoint search_token (s : string) : option string :=
  match token_match_here s with
  | Some t => Some t
  | None =>
      match s with
      | EmptyString => None
      | String _ s' => search_token s'
      end
  end.

Definition extract_token_from_output (output : string) : option string :=
  if negb (truthy output) then None
  else
    (* Remove all whitespace and newlines for wrapped tokens *)
    let cleaned := remove_chars is_space output in
    match search_token cleaned with
    | Some token => Some token
    | None =>
        (* Fallback: search the original output *)
        match search_token output with
        | Some token => Some token
        | None => None
        end
    end.

Record PersistResult := {
  success : bool;
  backup_path : option string;
  env_var_name : string;
  error_message : option string;
  verified : bool
}.

(** [PersistResult(success=False, ...)] with the defaults of the dataclass. *)
Definition failure (backup : option string) (msg : string) : PersistResult :=
  {| success := false; backup_path := backup;
     env_var_name := "OP_SERVICE_ACCOUNT_TOKEN";
     error_message := Some msg; verified := false |}.

(** *** The export line of the profile *)

(** The text [export_pattern], the compiled [^export <name>=.*$] with
    [re.MULTILINE], starts with; [re.escape] makes the name literal. *)
Definition export_prefix (name : string) : string :=
  "export " +:+ name +:+ "=".

Definition not_newline (c : ascii) : bool := negb (Ascii.eqb c "010"%char).

(** The match of [export_pattern] that starts at the beginning of
    [content], which is at the beginning of a line: the literal text and,
    for [.*$], the rest of the line the literal ends in. *)
Definition export_match_here (name content : string) : option string :=
  match strip_prefix (export_prefix name) content with
  | None => None
  | Some after =>
      let '(line_rest, _) := span not_newline after in
      Some (export_prefix name +:+ line_rest)
  end.

(** [export_pattern.search(content)]: [^] holds at the beginning of the
    text and after every line feed; [bol] tells that [content] begins
    there. *)
Fixpoint export_search_go (name : string) (bol : bool) (content : string) : bool :=
  (bol && startswith (export_prefix name) content)
  || match content with
     | EmptyString => false
     | String c rest => export_search_go name (Ascii.eqb c "010"%char) rest
     end.

Definition export_pattern_search (name content : string) : bool :=
  export_search_go name true content.

(** A replacement template, compiled: literal characters and references
    to group 0, the whole match (the pattern has no other group). *)
Inductive Piece :=
| Literal (c : ascii)
| WholeMatch.

Definition is_octdigit (c : ascii) : bool := in_range 48 55 c.
Definition is_digit (c : ascii) : bool := in_range 48 57 c.
Definition is_ascii_letter (c : ascii) : bool :=
  in_range 65 90 c || in_range 97 122 c.
Definition digit_value (c : ascii) : nat := nat_of_ascii c - 48.

Definition BACKSLASH : ascii := "092"%char.

(** The escapes of one letter that stand for a character:
    [\a \b \f \n \r \t \v]. *)
Definition letter_escape (c : ascii) : option ascii :=
  if Ascii.eqb c "a"%char then Some "007"%char
  else if Ascii.eqb c "b"%char then Some "008"%char
  else if Ascii.eqb c "f"%char then Some "012"%char
  else if Ascii.eqb c "n"%char then Some "010"%char
  else if Ascii.eqb c "r"%char then Some "013"%char
  else if Ascii.eqb c "t"%char then Some "009"%char
  else if Ascii.eqb c "v"%char then Some "011"%char
  else None.

(** The name of [\g<name>], given what follows [\g]: the characters up to
    the first [>].  [None] where the template is malformed: no [<], no
    [>], no name, or a backslash in the name. *)
Definition group_name (after_g : string) : option string :=
  match after_g with
  | String c rest =>
      if Ascii.eqb c "<"%char then
        let '(name, tail) := span (fun c => negb (Ascii.eqb c ">"%char)) rest in
        match tail with
        | EmptyString => None
        | String _ _ =>
            if negb (truthy name) || char_in BACKSLASH name then None
            else Some name
        end
      else None
  | EmptyString => None
  end.

(** The item of the template at the beginning of [s] (which is not empty)
    with the number of characters it takes, as [re] reads it for a pattern
    without groups; [None] where [re] raises: an unknown escape of an ASCII
    letter, a reference to a group other than 0, an octal escape above
    [\377], a backslash at the end. *)
Definition template_item (group_zero : string -> bool) (s : string)
  : option (list Piece * nat) :=
  match s with
  | EmptyString => Some ([], 0)
  | String c rest =>
      if negb (Ascii.eqb c BACKSLASH) then Some ([Literal c], 1)
      else
        match rest with
        | EmptyString => None
        | String c1 rest1 =>
            if Ascii.eqb c1 "g"%char then
              match group_name rest1 with
              | Some name =>
                  if group_zero name
                  then Some ([WholeMatch], 4 + String.length name)
                  else None
              | None => None
              end
            else if Ascii.eqb c1 "0"%char then
              (* an octal escape of up to three digits *)
              match rest1 with
              | String d1 rest2 =>
                  if is_octdigit d1 then
                    match rest2 with
                    | String d2 _ =>
                        if is_octdigit d2
                        then Some ([Literal (ascii_of_nat
                                               (8 * digit_value d1 + digit_value d2))], 4)
                        else Some ([Literal (ascii_of_nat (digit_value d1))], 3)
                    | EmptyString =>
                        Some ([Literal (ascii_of_nat (digit_value d1))], 3)
                    end
                  else Some ([Literal "000"%char], 2)
              | EmptyString => Some ([Literal "000"%char], 2)
              end
            else if is_digit c1 then
              (* three octal digits are a character; anything else is a
                 reference to a group from 1 on, which does not exist *)
              match rest1 with
              | String d1 (String d2 _) =>
                  if is_octdigit c1 && is_octdigit d1 && is_octdigit d2 then
                    let v := 64 * digit_value c1 + 8 * digit_value d1
                             + digit_value d2 in
                    if 255 <? v then None else Some ([Literal (ascii_of_nat v)], 4)
                  else None
              | _ => None
              end
            else
              match letter_escape c1 with
              | Some ch => Some ([Literal ch], 2)
              | None =>
                  if Ascii.eqb c1 BACKSLASH then Some ([Literal BACKSLASH], 2)
                  else if is_ascii_letter c1 then None
                  else Some ([Literal BACKSLASH; Literal c1], 2)
              end
        end
  end.

(** The template compiled item by item; [skip] counts the characters of
    the current item that are still to pass. *)
Fixpoint parse_template_go (group_zero : string -> bool) (skip : nat)
    (template : string) : option (list Piece) :=
  match template with
  | EmptyString => Some []
  | String _ rest =>
      match skip with
      | S skip' => parse_template_go group_zero skip' rest
      | O =>
          match template_item group_zero template with
          | None => None
          | Some (pieces, n) =>
              match parse_template_go group_zero (n - 1) rest with
              | Some more => Some (pieces ++ more)
              | None => None
              end
          end
      end
  end.

Definition parse_template (group_zero : string -> bool) (template : string)
  : option (list Piece) :=
  parse_template_go group_zero 0 template.

(** The text a compiled template gives for one match. *)
Fixpoint expand (pieces : list Piece) (matched : string) : string :=
  match pieces with
  | [] => EmptyString
  | Literal c :: pieces' => String c (expand pieces' matched)
  | WholeMatch :: pieces' => matched +:+ expand pieces' matched
  end.

(** [export_pattern.sub(template, content)] for a compiled template: the
    matches are found from left to right and do not overlap; [skip] counts
    the characters of the current match that are still to pass, [bol] tells
    that [content] begins a line. *)
Fixpoint export_sub_go (name : string) (pieces : list Piece) (skip : nat)
    (bol : bool) (content : string) : string :=
  match content with
  | EmptyString => EmptyString
  | String c rest =>
      match skip with
      | S skip' => export_sub_go name pieces skip' false rest
      | O =>
          match (if bol then export_match_here name content else None) with
          | Some matched =>
              expand pieces matched
              +:+ export_sub_go name pieces (String.length matched - 1) false rest
          | None =>
              String c (export_sub_go name pieces 0 (Ascii.eqb c "010"%char) rest)
          end
      end
  end.

Definition export_pattern_sub (name : string) (pieces : list Piece)
    (content : string) : string :=
  export_sub_go name pieces 0 true content.

Section Persist.
Import FS Py.
Local Open Scope io_scope.

Variable env : Env.

(** The profile text to write: the export line put in place of every line
    that exports the variable, or appended after a dated comment.  The
    export line is the replacement template of [re.sub], which raises when
    it is malformed. *)
Definition update_profile_text (token name timestamp content : string)
  : result string :=
  let export_line := "export " +:+ name +:+ "=" +:+ DQUOTE +:+ token +:+ DQUOTE in
  let comment_line :=
    NL +:+ "# 1Password Service Account Token - Created " +:+ timestamp +:+ NL in
  if export_pattern_search name content then
    match parse_template (re_group_zero env) export_line with
    | Some pieces => Ok (export_pattern_sub name pieces content)
    | None => Raise (re_error env export_line)
    end
  else
    let content := if endswith NL content then content else content +:+ NL in
    Ok (content +:+ comment_line +:+ export_line +:+ NL).

(** The first [try] block: back the profile up, or create it.  The
    result is the backup path to report, or the failure to return. *)
Definition create_backup (zshrc_path backup_path : string)
  : IO (PersistResult + option string) :=
  try_except
    (ex <- path_exists zshrc_path ;;
     if ex : bool then
       content <- read_file zshrc_path ;;
       write_file backup_path content ;;;
       ret (inr (Some backup_path))
     else
       touch zshrc_path ;;;
       ret (inr None))
    (fun e =>
       if is_PermissionError e then
         ret (inl (failure None
                     ("Permission denied: " +:+ zshrc_path
                      +:+ ". Run: chmod 600 ~/.zshrc")))
       else if is_OSError e then
         if bool_decide (exn_errno e = Some 28%Z) then
           ret (inl (failure None "Disk full: Cannot write to ~/.zshrc"))
         else
           ret (inl (failure None ("I/O error: " +:+ exn_str e)))
       else raise e).

(** The handler of a failed write: restore from the backup when there
    is one, swallowing a failure of the restore itself. *)
Definition restore_from_backup (zshrc_path : string) (backup_path : option string)
  : IO unit :=
  match backup_path with
  | Some bp =>
      ex <- path_exists bp ;;
      if ex : bool then
        try_except
          (backup_content <- read_file bp ;;
           write_file zshrc_path backup_content)
          (fun restore_error => ret tt)
      else ret tt
  | None => ret tt
  end.

(** The tail of the function, after the profile was written: read-back
    verification, permissions, and the result. *)
Definition verify_and_finish
    (token env_var_name zshrc_path : string) (backup_path : option string)
  : IO PersistResult :=
  verified <-
    try_except
      (updated_content <- read_file zshrc_path ;;
       ret (contains token updated_content))
      (fun e => ret false) ;;
  try_except (chmod zshrc_path 384%N) (fun e => ret tt) ;;;
  ret {| success := true; backup_path := backup_path;
         env_var_name := env_var_name; error_message := None;
         verified := verified |}.

(** The path the function works on: [~] expanded, a symlink followed. *)
Definition resolve_path (zshrc_path : string) : string :=
  let zshrc_path := expanduser env zshrc_path in
  if islink env zshrc_path then realpath env zshrc_path else zshrc_path.

Definition save_token_to_env (token env_var_name zshrc_path : string)
  : IO PersistResult :=
  let validation := validate_token_format token in
  if negb (is_valid validation) then
    ret (failure None
           ("Invalid token format: " +:+ join ", " (errors validation)))
  else
    let zshrc_path := resolve_path zshrc_path in
    let timestamp := now env in
    let backup_path := zshrc_path +:+ ".backup." +:+ timestamp in
    backup <- create_backup zshrc_path backup_path ;;
    match backup with
    | inl early => ret early
    | inr backup_path =>
        read <-
          try_except
            (content <- read_file zshrc_path ;; ret (inr content))
            (fun e =>
               ret (inl (failure backup_path
                           ("Failed to read .zshrc: " +:+ exn_str e)))) ;;
        match read with
        | inl early => ret early
        | inr content =>
            (* outside every [try]: what [re.sub] raises leaves the function *)
            match update_profile_text token env_var_name timestamp content with
            | Raise e => raise e
            | Ok content =>
                written <-
                  try_except
                    (write_file zshrc_path content ;;; ret None)
                    (fun e =>
                       restore_from_backup zshrc_path backup_path ;;;
                       ret (Some (failure backup_path
                                    ("Failed to write .zshrc: " +:+ exn_str e)))) ;;
                match written with
                | Some early => ret early
                | None =>
                    verify_and_finish token env_var_name zshrc_path backup_path
                end
            end
        end
    end.

End Persist.

End Cli.

(** ** sparc_phase4_decision_engine *)

Module Decision.
Import Text Py.
Local Open Scope Q_scope.

Inductive ActionType := CLICK | FILL | NAVIGATE | EXTRACT | RETRY.

(** Floats are modelled by the rationals their literals and expressions
    denote; binary rounding is left out. *)
Record RetryStrategy := {
  name : string;
  max_attempts : Z;
  base_delay_sec : Q;
  max_delay_sec : Q;
  backoff_factor : Q;
  jitter : Q;
  retryable : bool;
  strategy_reason : string
}.

Definition should_retry (self : RetryStrategy) (attempt : Z) : bool :=
  retryable self && (attempt <? max_attempts self)%Z.

(** The [metadata] dictionaries the engine attaches to an action. *)
Inductive ActionMetadata :=
| MetaEmpty
| MetaRequiresManual (requires_manual : bool)
| MetaErrors (errors : list string)
| MetaTargets (targets : list string)
| MetaField (field : string) (match_score : Q)
| MetaMatchedText (matched_text : string)
| MetaLabel (label : string) (score : Q)
| MetaStrategy (strategy : option RetryStrategy).

Record Action := {
  action_type : ActionType;
  selector : option string;
  value : option string;
  url : option string;
  description : string;
  reason : string;
  confidence : Q;
  metadata : ActionMetadata
}.

(** An element descriptor: the keys the engine reads, each absent or set. *)
Record Element := {
  el_text : option string;
  el_label : option string;
  el_aria_label : option string;
  el_name : option string;
  el_placeholder : option string;
  el_value : option string;
  el_selector : option string;
  el_role : option string;
  el_tag : option string;
  el_type : option string;
  el_visible : option bool;
  el_clickable : option bool
}.

(** The keys of [intent] the engine reads. *)
Record Intent := {
  in_target_url : option string;
  in_extract : option (list string);
  in_extract_selectors : option (list string);
  in_form_data : option (list (string * string));
  in_inputs : option (list (string * string));
  in_query : option string;
  in_text : option string;
  in_value : option string;
  in_click_selector : option string;
  in_click_text : option string
}.

(** The keys of the context's [metadata] the engine reads. *)
Record ContextMetadata := {
  md_target_url : option string;
  md_extract : option (list string);
  md_extract_selectors : option (list string);
  md_form_data : option (list (string * string))
}.

(** Values found in a result dictionary or attribute. *)
Inductive Scalar :=
| SNone | SBool (b : bool) | SInt (z : Z) | SStr (s : string).

(** What [evaluate_result] tells apart: [None], [bool], a dictionary, an
    object with an [ok] or [status] attribute ([obj_status] holds
    [int(status)], or [None] when that conversion raises [TypeError] or
    [ValueError]), and anything else. *)
Inductive ResultValue :=
| RNone
| RBool (b : bool)
| RDict (d : gmap string Scalar)
| RObject (obj_ok : option Scalar) (obj_status : option (option Z))
| ROther.

Record DecisionContext := {
  ctx_url : string;
  ctx_dom : string;
  ctx_visible_elements : list Element;
  ctx_intent : Intent;
  ctx_errors : list string;
  ctx_last_action : option Action;
  ctx_last_result : ResultValue;
  ctx_last_error : option exn;
  ctx_retry_count : Z;
  ctx_history : list Action;
  (** one entry per decision; the entry's timestamp is left out *)
  ctx_decision_log : list Action;
  ctx_metadata : ContextMetadata
}.

Record Signals := {
  has_error : bool;
  has_inputs : bool;
  has_clickables : bool;
  is_login : bool;
  has_captcha : bool
}.

Record PageAnalysis := {
  pa_url : string;
  pa_dom_text : string;
  pa_visible_elements : list Element;
  pa_clickables : list Element;
  pa_inputs : list Element;
  pa_errors : list string;
  pa_signals : Signals
}.

(** [bool(v)]. *)
Definition scalar_truthy (v : Scalar) : bool :=
  match v with
  | SNone => false
  | SBool b => b
  | SInt z => negb (z =? 0)%Z
  | SStr s => truthy s
  end.

Definition str_of_Z (z : Z) : string :=
  match z with
  | Z0 => "0"
  | Zpos p => str_of_nat (Pos.to_nat p)
  | Zneg p => "-" +:+ str_of_nat (Pos.to_nat p)
  end.

(** [str(v)]. *)
Definition scalar_str (v : Scalar) : string :=
  match v with
  | SNone => "None"
  | SBool true => "True"
  | SBool false => "False"
  | SInt z => str_of_Z z
  | SStr s => s
  end.

Definition from_opt {A} (d : A) (o : option A) : A :=
  match o with Some a => a | None => d end.

Definition evaluate_result (result : ResultValue) : bool :=
  match result with
  | RNone => false
  | RBool b => b
  | RDict d =>
      match d !! "success" with
      | Some v => scalar_truthy v
      | None =>
          match d !! "ok" with
          | Some v => scalar_truthy v
          | None =>
              match d !! "status" with
              | Some v =>
                  let status := lower (scalar_str v) in
                  existsb (String.eqb status)
                    ["ok"; "success"; "completed"; "done"; "true"]
              | None =>
                  match d !! "error" with
                  | Some _ => false
                  | None => true
                  end
              end
          end
      end
  | RObject (Some ok) _ => scalar_truthy ok
  | RObject None (Some (Some status_val)) =>
      (200 <=? status_val)%Z && (status_val <? 300)%Z
  | RObject None (Some None) => true
  | RObject None None => true
  | ROther => true
  end.

Definition get_retry_strategy (error : exn) : RetryStrategy :=
  if is_TimeoutError error then
    {| name := "timeout"; max_attempts := 3; base_delay_sec := 1.0;
       max_delay_sec := 30.0; backoff_factor := 2.0; jitter := 0.3;
       retryable := true;
       strategy_reason := "Timeout while waiting for page or element" |}
  else if is_OSError error then
    {| name := "network"; max_attempts := 5; base_delay_sec := 1.5;
       max_delay_sec := 30.0; backoff_factor := 2.0; jitter := 0.2;
       retryable := true;
       strategy_reason := "Network or transport error" |}
  else
    let error_text := lower (exn_str error) in
    if contains "timeout" error_text then
      {| name := "timeout"; max_attempts := 3; base_delay_sec := 1.0;
         max_delay_sec := 30.0; backoff_factor := 2.0; jitter := 0.3;
         retryable := true;
         strategy_reason := "Timeout reported by error message" |}
    else if contains "captcha" error_text then
      {| name := "captcha"; max_attempts := 1; base_delay_sec := 5.0;
         max_delay_sec := 30.0; backoff_factor := 1.0; jitter := 0.0;
         retryable := true;
         strategy_reason := "Captcha detected; allow manual resolution" |}
    else if existsb (fun token => contains token error_text)
              ["invalid"; "not found"; "missing"] then
      {| name := "non_retryable"; max_attempts := 0; base_delay_sec := 1.0;
         max_delay_sec := 30.0; backoff_factor := 2.0; jitter := 0.2;
         retryable := false;
         strategy_reason := "Non-retryable input or selector error" |}
    else
      {| name := "generic"; max_attempts := 2; base_delay_sec := 1.0;
         max_delay_sec := 30.0; backoff_factor := 2.0; jitter := 0.2;
         retryable := true;
         strategy_reason := "Unhandled error; default retry strategy" |}.

Definition _normalize_text (text : string) : string :=
  if negb (truthy text) then EmptyString
  else
    let lowered := lower text in
    strip (collapse_ws lowered).

Definition _element_text (element : Element) : string :=
  let parts :=
    [el_text element; el_label element; el_aria_label element;
     el_name element; el_placeholder element; el_value element] in
  let combined :=
    join " " (omap (fun p => if opt_truthy p then p else None) parts) in
  _normalize_text combined.

Definition in_set (s : string) (set : list string) : bool :=
  existsb (String.eqb s) set.

Definition is_False (o : option bool) : bool :=
  match o with Some false => true | _ => false end.

Definition is_True (o : option bool) : bool :=
  match o with Some true => true | _ => false end.

Definition _is_clickable (element : Element) : bool :=
  if is_False (el_visible element) then false
  else
    let role := lower (from_opt EmptyString (el_role element)) in
    let tag := lower (from_opt EmptyString (el_tag element)) in
    if is_True (el_clickable element) then true
    else if in_set role ["button"; "link"; "menuitem"; "tab"] then true
    else if in_set tag ["button"; "a"] then true
    else false.

Definition _is_input (element : Element) : bool :=
  if is_False (el_visible element) then false
  else
    let role := lower (from_opt EmptyString (el_role element)) in
    let tag := lower (from_opt EmptyString (el_tag element)) in
    let input_type := lower (from_opt EmptyString (el_type element)) in
    if in_set role ["textbox"; "combobox"; "searchbox"] then true
    else if in_set tag ["input"; "textarea"; "select"] then true
    else if in_set input_type
              ["text"; "email"; "password"; "search"; "tel"; "url"] then true
    else false.

Definition any_in (tokens : list string) (text : string) : bool :=
  existsb (fun token => contains token text) tokens.

Definition _extract_errors
    (dom_text : string) (elements : list Element) (errors : list string)
  : list string :=
  let found := errors in
  let found :=
    if contains "error" dom_text || contains "failed" dom_text
       || contains "try again" dom_text
    then found ++ ["dom_error_marker"] else found in
  fold_left
    (fun found el =>
       let text := _element_text el in
       if any_in ["error"; "failed"; "invalid"; "try again"] text
       then found ++ [text] else found)
    elements found.

Definition _detect_login
    (dom_text url : string) (elements : list Element) : bool :=
  if any_in ["login"; "signin"; "sign-in"] (lower url) then true
  else if any_in ["password"; "sign in"; "log in"] dom_text then true
  else existsb
         (fun el => any_in ["sign in"; "log in"; "password"] (_element_text el))
         elements.

Definition _detect_captcha (dom_text : string) : bool :=
  any_in ["captcha"; "recaptcha"; "hcaptcha"] dom_text.

(** [_first_truthy] on values that are strings, lists or dictionaries. *)
Definition first_truthy_str (values : list (option string)) : option string :=
  list_find (fun v => opt_truthy v = true) values ≫= snd.

Definition nonempty {A} (o : option (list A)) : bool :=
  match o with Some (_ :: _) => true | _ => false end.

Definition first_truthy_list {A} (values : list (option (list A)))
  : option (list A) :=
  list_find (fun v => nonempty v = true) values ≫= snd.

Definition _url_matches (current_url target_url : string) : bool :=
  if negb (truthy current_url) || negb (truthy target_url) then false
  else if String.eqb current_url target_url then true
  else if startswith target_url current_url then true
  else contains target_url current_url.

Definition _is_filled (element : Element) : bool :=
  match el_value element with
  | None => false
  | Some value => negb (String.eqb (strip value) EmptyString)
  end.

Definition _score_match (element_text field_key : string) : Q :=
  if negb (truthy element_text) || negb (truthy field_key) then 0.0
  else
    let element_text := _normalize_text element_text in
    let field_key := _normalize_text field_key in
    if String.eqb element_text field_key then 1.0
    else if contains field_key element_text then 0.8
    else if contains element_text field_key then 0.6
    else
      let tokens := split_ws field_key in
      if existsb (fun token => contains token element_text) tokens then 0.4
      else 0.0.

Definition Qgtb (a b : Q) : bool := negb (Qle_bool a b).

Definition _select_best_input
    (inputs : list Element) (form_data : list (string * string))
  : option (Element * string * string * Q) :=
  fold_left
    (fun best element =>
       if _is_filled element then best
       else
         let element_text := _element_text element in
         fold_left
           (fun best '(field_key, value) =>
              let score := _score_match element_text field_key in
              if Qle_bool score 0 then best
              else
                match best with
                | None => Some (element, field_key, value, score)
                | Some (_, _, _, best_score) =>
                    if Qgtb score best_score
                    then Some (element, field_key, value, score)
                    else best
                end)
           form_data best)
    inputs None.

Definition _select_search_input (inputs : list Element) : option Element :=
  snd <$>
    list_find
      (fun element =>
         (negb (_is_filled element)
          && (contains "search" (_element_text element)
              || String.eqb (lower (from_opt EmptyString (el_type element)))
                   "search")) = true)
      inputs.

Definition click_priority : list string :=
  ["continue"; "next"; "submit"; "save"; "ok"; "yes"; "allow"; "accept";
   "sign in"; "log in"; "login"; "create"; "start"; "finish"; "done"].

Definition _select_best_click (clickables : list Element)
  : option (Element * string * Q) :=
  let priority := click_priority in
  fold_left
    (fun best element =>
       let text := _element_text element in
       fold_left
         (fun best '(rank, label) =>
            if contains label text then
              let score :=
                1.0 - (inject_Z (Z.of_nat rank)
                       / inject_Z (Z.max 1 (Z.of_nat (length priority)))) in
              match best with
              | None => Some (element, label, score)
              | Some (_, _, best_score) =>
                  if Qgtb score best_score
                  then Some (element, label, score) else best
              end
            else best)
         (imap (fun rank label => (rank, label)) priority) best)
    clickables None.

Definition _match_click_text
    (clickables : list Element) (target_text : string) : option Element :=
  let target := _normalize_text target_text in
  if negb (truthy target) then None
  else
    snd <$>
      list_find (fun element => contains target (_element_text element) = true)
        clickables.

Definition _analyze (context : DecisionContext) : PageAnalysis :=
  let url := ctx_url context in
  let dom_text := _normalize_text (ctx_dom context) in
  let visible := ctx_visible_elements context in
  let clickables := filter (fun el => _is_clickable el = true) visible in
  let inputs := filter (fun el => _is_input el = true) visible in
  let errors := _extract_errors dom_text visible (ctx_errors context) in
  let signals :=
    {| has_error := match errors with [] => false | _ => true end;
       has_inputs := match inputs with [] => false | _ => true end;
       has_clickables := match clickables with [] => false | _ => true end;
       is_login := _detect_login dom_text url visible;
       has_captcha := _detect_captcha dom_text |} in
  {| pa_url := url; pa_dom_text := dom_text; pa_visible_elements := visible;
     pa_clickables := clickables; pa_inputs := inputs; pa_errors := errors;
     pa_signals := signals |}.

Definition _maybe_retry (context : DecisionContext) : option Action :=
  match ctx_last_result context with
  | RNone => None
  | last_result =>
      let result_ok := evaluate_result last_result in
      if result_ok then None
      else
        let strategy := get_retry_strategy <$> ctx_last_error context in
        match strategy with
        | Some strategy =>
            if negb (retryable strategy) then None
            else if negb (should_retry strategy (ctx_retry_count context)) then
              Some {| action_type := RETRY; selector := None; value := None;
                      url := None;
                      description := "Retry limit reached for last error";
                      reason := "retry_exhausted"; confidence := 0.2;
                      metadata := MetaStrategy (Some strategy) |}
            else
              Some {| action_type := RETRY; selector := None; value := None;
                      url := None;
                      description := "Last action failed; retrying";
                      reason := "last_result_failed"; confidence := 0.5;
                      metadata := MetaStrategy (Some strategy) |}
        | None =>
            Some {| action_type := RETRY; selector := None; value := None;
                    url := None;
                    description := "Last action failed; retrying";
                    reason := "last_result_failed"; confidence := 0.5;
                    metadata := MetaStrategy None |}
        end
  end.

Definition _maybe_navigate
    (context : DecisionContext) (analysis : PageAnalysis) : option Action :=
  let target_url :=
    first_truthy_str [in_target_url (ctx_intent context);
                      md_target_url (ctx_metadata context)] in
  match target_url with
  | None => None
  | Some target_url =>
      if _url_matches (pa_url analysis) target_url then None
      else
        Some {| action_type := NAVIGATE; selector := None; value := None;
                url := Some target_url;
                description := "Navigate to target URL: " +:+ target_url;
                reason := "target_url_mismatch"; confidence := 0.9;
                metadata := MetaEmpty |}
  end.

Definition _maybe_extract
    (context : DecisionContext) (analysis : PageAnalysis) : option Action :=
  let extract_targets :=
    first_truthy_list [in_extract (ctx_intent context);
                       in_extract_selectors (ctx_intent context);
                       md_extract (ctx_metadata context);
                       md_extract_selectors (ctx_metadata context)] in
  match extract_targets with
  | None => None
  | Some extract_targets =>
      Some {| action_type := EXTRACT; selector := None; value := None;
              url := None;
              description := "Extraction targets provided in intent";
              reason := "extraction_requested"; confidence := 0.8;
              metadata := MetaTargets extract_targets |}
  end.

Definition fill_search (context : DecisionContext) (analysis : PageAnalysis)
  : option Action :=
  let query_value :=
    first_truthy_str [in_query (ctx_intent context);
                      in_text (ctx_intent context);
                      in_value (ctx_intent context)] in
  match query_value with
  | None => None
  | Some query_value =>
      match _select_search_input (pa_inputs analysis) with
      | Some search_input =>
          Some {| action_type := FILL; selector := el_selector search_input;
                  value := Some query_value; url := None;
                  description := "Fill search input with query";
                  reason := "fill_search_query"; confidence := 0.6;
                  metadata := MetaEmpty |}
      | None => None
      end
  end.

Definition _maybe_fill
    (context : DecisionContext) (analysis : PageAnalysis) : option Action :=
  match pa_inputs analysis with
  | [] => None
  | _ =>
      let form_data :=
        first_truthy_list [in_form_data (ctx_intent context);
                           in_inputs (ctx_intent context);
                           md_form_data (ctx_metadata context)] in
      let candidate :=
        form_data ≫= _select_best_input (pa_inputs analysis) in
      match candidate with
      | Some (element, field_key, value, score) =>
          Some {| action_type := FILL; selector := el_selector element;
                  value := Some value; url := None;
                  description := "Fill input based on form_data mapping";
                  reason := "fill_field:" +:+ field_key;
                  confidence := Qmin 1.0 (0.4 + score * 0.6);
                  metadata := MetaField field_key score |}
      | None => fill_search context analysis
      end
  end.

Definition click_candidate (analysis : PageAnalysis) : option Action :=
  match _select_best_click (pa_clickables analysis) with
  | None => None
  | Some (element, label, score) =>
      Some {| action_type := CLICK; selector := el_selector element;
              value := None; url := None;
              description := "Click highest-priority visible element";
              reason := "click_candidate:" +:+ label;
              confidence := Qmin 1.0 (0.3 + score * 0.7);
              metadata := MetaLabel label score |}
  end.

Definition _maybe_click
    (context : DecisionContext) (analysis : PageAnalysis) : option Action :=
  match pa_clickables analysis with
  | [] => None
  | _ =>
      if opt_truthy (in_click_selector (ctx_intent context)) then
        Some {| action_type := CLICK;
                selector := in_click_selector (ctx_intent context);
                value := None; url := None;
                description := "Click selector provided by intent";
                reason := "click_selector_override"; confidence := 0.8;
                metadata := MetaEmpty |}
      else
        let by_text :=
          if opt_truthy (in_click_text (ctx_intent context)) then
            let text_override :=
              from_opt EmptyString (in_click_text (ctx_intent context)) in
            match _match_click_text (pa_clickables analysis) text_override with
            | Some match_ =>
                Some {| action_type := CLICK; selector := el_selector match_;
                        value := None; url := None;
                        description := "Click element matching intent text";
                        reason := "click_text_override"; confidence := 0.7;
                        metadata := MetaMatchedText text_override |}
            | None => None
            end
          else None in
        match by_text with
        | Some action => Some action
        | None => click_candidate analysis
        end
  end.

(** The rules of [_select_action] after the retry rule. *)
Definition select_after_retry
    (context : DecisionContext) (analysis : PageAnalysis) : Action :=
  if has_captcha (pa_signals analysis) then
    {| action_type := RETRY; selector := None; value := None; url := None;
       description := "Captcha detected; retrying after delay";
       reason := "captcha_detected"; confidence := 0.2;
       metadata := MetaRequiresManual true |}
  else if has_error (pa_signals analysis) then
    {| action_type := RETRY; selector := None; value := None; url := None;
       description := "Detected error markers in DOM or visible elements";
       reason := "page_error_detected"; confidence := 0.4;
       metadata := MetaErrors (pa_errors analysis) |}
  else
    match _maybe_navigate context analysis with
    | Some navigate_action => navigate_action
    | None =>
    match _maybe_extract context analysis with
    | Some extract_action => extract_action
    | None =>
    match _maybe_fill context analysis with
    | Some fill_action => fill_action
    | None =>
    match _maybe_click context analysis with
    | Some click_action => click_action
    | None =>
        {| action_type := RETRY; selector := None; value := None; url := None;
           description := "No clear action candidates; retrying after delay";
           reason := "no_action_candidates"; confidence := 0.1;
           metadata := MetaEmpty |}
    end end end end.

Definition _select_action
    (context : DecisionContext) (analysis : PageAnalysis) : Action :=
  match _maybe_retry context with
  | Some retry_action => retry_action
  | None => select_after_retry context analysis
  end.

Definition record_decision (self : DecisionContext) (action : Action)
  : DecisionContext :=
  {| ctx_url := ctx_url self; ctx_dom := ctx_dom self;
     ctx_visible_elements := ctx_visible_elements self;
     ctx_intent := ctx_intent self; ctx_errors := ctx_errors self;
     ctx_last_action := Some action;
     ctx_last_result := ctx_last_result self;
     ctx_last_error := ctx_last_error self;
     ctx_retry_count := ctx_retry_count self;
     ctx_history := ctx_history self ++ [action];
     ctx_decision_log := ctx_decision_log self ++ [action];
     ctx_metadata := ctx_metadata self |}.

(** [DecisionEngine.decide]: the action, and the context with the decision
    recorded. *)
Definition decide (context : DecisionContext) : Action * DecisionContext :=
  let analysis := _analyze context in
  let action := _select_action context analysis in
  (action, record_decision context action).

End Decision.

(** ** sparc_phase4_integration: the orchestrator *)

Module Orchestrator.
Import Text Py.

Inductive OrchestrationState :=
| INIT | CHECK_AUTH | SESSION_INIT | BROWSER_OPEN | NAVIGATE | FILL_FORM
| WIZARD_NAV | EXTRACT_TOKEN | VALIDATE_TOKEN | SAVE_TOKEN | TEST_TOKEN
| CLEANUP | COMPLETE | ERROR.

Global Instance OrchestrationState_eq_dec : EqDecision OrchestrationState.
Proof. solve_decision. Defined.

(** The step functions [orchestrate] calls, by name. *)
Inductive Step :=
| _check_auth_status | _init_session_manager | _open_browser
| _navigate_to_page | _fill_account_form | _navigate_wizard
| _extract_service_token | _validate_token | _save_token_to_env
| _test_token_with_cli.

Global Instance Step_eq_dec : EqDecision Step.
Proof. solve_decision. Defined.

(** The value stored under [max_retries] in the configuration: absent (or
    [None]), something [int()] rejects, or an integer. *)
Inductive ConfigValue := Absent | NotAnInt | IntValue (z : Z).

(** How an awaited call ends: it returns, it raises an exception that an
    [except Exception] clause catches, or it is interrupted by one that
    such a clause lets through ([asyncio.CancelledError],
    [KeyboardInterrupt], [SystemExit]: subclasses of [BaseException]
    only). *)
Inductive Outcome (A : Type) :=
| Returns (a : A)
| Raises (e : exn)
| Interrupted.
Arguments Returns {A} a.
Arguments Raises {A} e.
Arguments Interrupted {A}.

(** The surroundings of one run: what the n-th invocation of a step does;
    whether the run is interrupted while [_retry_with_backoff] deals with
    the failure of the n-th invocation of a step (in the await of
    [get_retry_strategy] or in the back-off sleep); what the n-th run of
    the teardown inside [_cleanup] does; and the configured retry cap. *)
Record World := {
  step_outcome : Step -> nat -> Outcome unit;
  pause_interrupted : Step -> nat -> bool;
  teardown_outcome : nat -> Outcome unit;
  config_max_retries : ConfigValue
}.

(** [OrchestrationContext], with the bookkeeping of the run: how often
    [_cleanup] ran and how often each retried step was invoked. *)
Record OrchestrationContext := {
  current_state : OrchestrationState;
  state_transitions : list OrchestrationState;
  cleanup_runs : nat;
  cleanup_warnings : list string;
  invocations : list Step
}.

Record OrchestrationResult := {
  success : bool;
  error_message : option string;
  final_state : OrchestrationState;
  result_transitions : list OrchestrationState;
  token_validated : bool;
  token_saved : bool;
  token_tested : bool
}.

(** State and exception monad of a run. *)
Definition Run (A : Type) : Type :=
  OrchestrationContext -> Outcome A * OrchestrationContext.

Definition ret {A} (a : A) : Run A := fun c => (Returns a, c).
Definition bind {A B} (m : Run A) (k : A -> Run B) : Run B :=
  fun c =>
    match m c with
    | (Returns a, c') => k a c'
    | (Raises e, c') => (Raises e, c')
    | (Interrupted, c') => (Interrupted, c')
    end.
(** [try: m  except Exception as e: h e]. *)
Definition try_except {A} (m : Run A) (h : exn -> Run A) : Run A :=
  fun c =>
    match m c with
    | (Raises e, c') => h e c'
    | r => r
    end.

Definition _transition_state (new_state : OrchestrationState) : Run unit :=
  fun c =>
    (Returns tt,
     {| current_state := new_state;
        state_transitions := state_transitions c ++ [new_state];
        cleanup_runs := cleanup_runs c;
        cleanup_warnings := cleanup_warnings c;
        invocations := invocations c |}).

Definition _resolve_max_attempts
    (configured : ConfigValue) (strategy : Decision.RetryStrategy) : Z :=
  match configured with
  | Absent => Z.max 0 (Decision.max_attempts strategy)
  | NotAnInt => Z.max 0 (Decision.max_attempts strategy)
  | IntValue configured_int =>
      if (configured_int <? 0)%Z then 0%Z
      else if (Decision.max_attempts strategy <=? 0)%Z then 0%Z
      else Z.min (Decision.max_attempts strategy) configured_int
  end.

(** How often a step was invoked so far. *)
Definition invoked (step : Step) (c : OrchestrationContext) : nat :=
  length (filter (fun s => bool_decide (s = step)) (invocations c)).

(** One invocation of a step: the world decides how it ends. *)
Definition invoke (w : World) (step : Step) : Run unit :=
  fun c =>
    let c' := {| current_state := current_state c;
                 state_transitions := state_transitions c;
                 cleanup_runs := cleanup_runs c;
                 cleanup_warnings := cleanup_warnings c;
                 invocations := invocations c ++ [step] |} in
    (step_outcome w step (invoked step c), c').

(** The loop of [_retry_with_backoff]; [fuel] bounds the number of
    invocations, [None] means the bound was reached. *)
Fixpoint retry_loop (w : World) (operation : Step) (fuel : nat) (attempt : Z)
  : OrchestrationContext -> option (Outcome unit * OrchestrationContext) :=
  fun c =>
    match fuel with
    | O => None
    | S fuel' =>
        match invoke w operation c with
        | (Returns tt, c') => Some (Returns tt, c')
        | (Interrupted, c') => Some (Interrupted, c')
        | (Raises exc, c') =>
            if pause_interrupted w operation (invoked operation c)
            then Some (Interrupted, c')
            else
              let strategy := Decision.get_retry_strategy exc in
              let max_attempts :=
                _resolve_max_attempts (config_max_retries w) strategy in
              if negb (Decision.retryable strategy) then Some (Raises exc, c')
              else if (max_attempts <=? 0)%Z then Some (Raises exc, c')
              else
                let attempt := (attempt + 1)%Z in
                if (attempt >=? max_attempts)%Z then Some (Raises exc, c')
                else retry_loop w operation fuel' attempt c'
        end
    end.

(** No strategy allows more than five attempts, so five invocations
    always finish the loop. *)
Definition retry_fuel : nat := 5.

Definition _retry_with_backoff (w : World) (operation : Step) : Run unit :=
  fun c =>
    match retry_loop w operation retry_fuel 0 c with
    | Some r => r
    | None => (Raises (RuntimeError "retry loop did not finish"), c)
    end.

(** [_cleanup]: runs the teardown (driver exit, session close) and turns
    an exception of it into a warning. *)
Definition _cleanup (w : World) : Run unit :=
  fun c =>
    let c' warnings :=
      {| current_state := current_state c;
         state_transitions := state_transitions c;
         cleanup_runs := S (cleanup_runs c);
         cleanup_warnings := warnings;
         invocations := invocations c |} in
    match teardown_outcome w (cleanup_runs c) with
    | Returns tt => (Returns tt, c' (cleanup_warnings c))
    | Raises e =>
        (Returns tt,
         c' (cleanup_warnings c
             ++ ["Cleanup error (non-fatal): " +:+ exn_str e]))
    | Interrupted => (Interrupted, c' (cleanup_warnings c))
    end.

Local Notation "m1 ;;; m2" := (bind m1 (fun _ => m2))
  (at level 100, right associativity).

(** The body of the [try] block of [orchestrate]. *)
Definition workflow (w : World) : Run unit :=
  _transition_state CHECK_AUTH ;;;
  _retry_with_backoff w _check_auth_status ;;;
  _transition_state SESSION_INIT ;;;
  invoke w _init_session_manager ;;;
  _transition_state BROWSER_OPEN ;;;
  invoke w _open_browser ;;;
  _transition_state NAVIGATE ;;;
  _retry_with_backoff w _navigate_to_page ;;;
  _transition_state FILL_FORM ;;;
  _retry_with_backoff w _fill_account_form ;;;
  _transition_state WIZARD_NAV ;;;
  _retry_with_backoff w _navigate_wizard ;;;
  _transition_state EXTRACT_TOKEN ;;;
  _retry_with_backoff w _extract_service_token ;;;
  _transition_state VALIDATE_TOKEN ;;;
  invoke w _validate_token ;;;
  _transition_state SAVE_TOKEN ;;;
  invoke w _save_token_to_env ;;;
  _transition_state TEST_TOKEN ;;;
  invoke w _test_token_with_cli ;;;
  _transition_state CLEANUP ;;;
  _cleanup w ;;;
  _transition_state COMPLETE.

Definition initial_context : OrchestrationContext :=
  {| current_state := INIT; state_transitions := [];
     cleanup_runs := 0; cleanup_warnings := []; invocations := [] |}.

(** [Orchestrator.orchestrate]: the result (unless the run is interrupted),
    and the context at the end. *)
Definition orchestrate (w : World)
  : Outcome OrchestrationResult * OrchestrationContext :=
  match workflow w initial_context with
  | (Returns tt, c) =>
      (Returns {| success := true; error_message := None;
                  final_state := current_state c;
                  result_transitions := state_transitions c;
                  token_validated := true; token_saved := true;
                  token_tested := true |}, c)
  | (Raises e, c) =>
      let error_msg := "Orchestration failed: " +:+ exn_str e in
      (_transition_state ERROR ;;;
       try_except (_cleanup w) (fun cleanup_err => ret tt) ;;;
       (fun c =>
          (Returns {| success := false; error_message := Some error_msg;
                      final_state := current_state c;
                      result_transitions := state_transitions c;
                      token_validated := false; token_saved := false;
                      token_tested := false |}, c))) c
  | (Interrupted, c) => (Interrupted, c)
  end.

End Orchestrator.

(** ** sparc_phase4_browser_automation: token extraction *)

Module Browser.
Import Text Py.

(** The Playwright page, as far as extraction looks at it.  Every awaited
    call returns or raises.  [wait_for_selector] gives [true] for an element
    handle and [false] for [None]; [text_content] is the text of the element
    a selector found; [read_clipboard] is what
    [navigator.clipboard.readText()] evaluates to after the copy button
    found by a selector was clicked. *)
Record Page := {
  wait_for_selector : string -> result bool;
  text_content : string -> result (option string);
  click : string -> result unit;
  read_clipboard : string -> result (option string);
  body_text : result (option string);
  screenshot : string -> result unit
}.

(** What a run does to the page and prints, in order. *)
Inductive Event :=
| WaitForSelector (selector : string)
| TextContent (selector : string)
| Click (selector : string)
| ReadClipboard (selector : string)
| BodyText
| Screenshot (path : string)
| Print (line : string).

(** Code that talks to the page: a value and the events it caused. *)
Definition Traced (A : Type) : Type := A * list Event.

(** [re.match(r"^ops_[A-Za-z0-9_-]+$", token)]. *)
Definition token_shape_match (token : string) : bool :=
  match strip_prefix "ops_" token with
  | None => false
  | Some rest =>
      let '(run, tail) := span token_class rest in
      (1 <=? String.length run) && at_dollar tail
  end.

Definition validate_token_format (token : option string) : bool :=
  match token with
  | None => false
  | Some token =>
      if negb (truthy token) || (String.length token <? 100) then false
      else if negb (startswith "ops_" token) then false
      else token_shape_match token
  end.

Definition css_selectors : list string :=
  ["code:has-text('ops_')"; "pre:has-text('ops_')";
   "[data-testid='service-account-token']"; ".token-display code";
   ".token-value"].

(** One round of the loop of [extract_token_via_css]: [Some token] when the
    round returns the token, [None] when the loop goes on (also after an
    exception, which the round swallows). *)
Definition css_round (page : Page) (selector : string) : Traced (option string) :=
  match wait_for_selector page selector with
  | Raise _ => (None, [WaitForSelector selector])
  | Ok false => (None, [WaitForSelector selector])
  | Ok true =>
      match text_content page selector with
      | Raise _ => (None, [WaitForSelector selector; TextContent selector])
      | Ok None => (None, [WaitForSelector selector; TextContent selector])
      | Ok (Some token) =>
          let token := strip token in
          if validate_token_format (Some token) then
            (Some token,
             [WaitForSelector selector; TextContent selector;
              Print ("✓ Token extracted via CSS selector: " +:+ selector)])
          else (None, [WaitForSelector selector; TextContent selector])
      end
  end.

(** A [for] loop that returns at the first round giving a value. *)
Fixpoint first_round {A} (round : string -> Traced (option A))
    (selectors : list string) : Traced (option A) :=
  match selectors with
  | [] => (None, [])
  | selector :: rest =>
      match round selector with
      | (Some a, evs) => (Some a, evs)
      | (None, evs) =>
          let '(r, evs') := first_round round rest in (r, evs ++ evs')
      end
  end.

Definition extract_token_via_css (page : Page) : Traced (option string) :=
  first_round (css_round page) css_selectors.

Definition copy_button_selectors : list string :=
  ["button:has-text('Copy')"; "[data-testid='copy-token']";
   "[aria-label='Copy token']"].

Definition clipboard_failed (selector : string) (e : exn) : Event :=
  Print ("Clipboard extraction failed for " +:+ selector +:+ ": " +:+ exn_str e).

Definition clipboard_round (page : Page) (selector : string)
  : Traced (option string) :=
  match wait_for_selector page selector with
  | Raise e => (None, [WaitForSelector selector; clipboard_failed selector e])
  | Ok false => (None, [WaitForSelector selector])
  | Ok true =>
      match click page selector with
      | Raise e =>
          (None, [WaitForSelector selector; Click selector;
                  clipboard_failed selector e])
      | Ok tt =>
          match read_clipboard page selector with
          | Raise e =>
              (None, [WaitForSelector selector; Click selector;
                      ReadClipboard selector; clipboard_failed selector e])
          | Ok clipboard_text =>
              if validate_token_format clipboard_text then
                (clipboard_text,
                 [WaitForSelector selector; Click selector;
                  ReadClipboard selector;
                  Print "✓ Token extracted via clipboard"])
              else
                (None, [WaitForSelector selector; Click selector;
                        ReadClipboard selector])
          end
      end
  end.

Definition extract_token_via_clipboard (page : Page) : Traced (option string) :=
  first_round (clipboard_round page) copy_button_selectors.

(** The match of [ops_[A-Za-z0-9_-]{100,500}] at the beginning of [s]: the
    greedy class takes the longest run, cut at 500 characters. *)
Definition bounded_match_here (s : string) : option string :=
  match strip_prefix "ops_" s with
  | None => None
  | Some rest =>
      let '(run, _) := span token_class rest in
      if 100 <=? String.length run then Some ("ops_" +:+ take 500 run) else None
  end.

(** [re.findall(token_pattern, page_text)[0]] when there is a match: the
    leftmost one. *)
Fixpoint first_bounded_match (s : string) : option string :=
  match bounded_match_here s with
  | Some t => Some t
  | None =>
      match s with
      | EmptyString => None
      | String _ s' => first_bounded_match s'
      end
  end.

Definition extract_token_via_page_text (page : Page) : Traced (option string) :=
  match body_text page with
  | Raise e => (None, [BodyText; Print ("Page text extraction failed: " +:+ exn_str e)])
  | Ok None =>
      (* [re.findall] raises [TypeError] on [None] *)
      (None, [BodyText;
              Print "Page text extraction failed: expected string or bytes-like object, got 'NoneType'"])
  | Ok (Some page_text) =>
      match first_bounded_match page_text with
      | Some token =>
          if validate_token_format (Some token) then
            (Some token,
             [BodyText; Print "✓ Token extracted via page text parsing"])
          else (None, [BodyText])
      | None => (None, [BodyText])
      end
  end.

Definition screenshot_path : string :=
  "/tmp/1password_automation/error_token_extraction.png".

(** [extract_token]: the returned value (or the exception of the debugging
    screenshot), and the events of the run. *)
Definition extract_token (page : Page) : Traced (result (option string)) :=
  (* Strategy 1: CSS selector *)
  let '(token, evs1) := extract_token_via_css page in
  if opt_truthy token then (Ok token, evs1)
  else
    (* Strategy 2: clipboard (copy button) *)
    let '(token, evs2) := extract_token_via_clipboard page in
    if opt_truthy token then (Ok token, evs1 ++ evs2)
    else
      (* Strategy 3: full page text *)
      let '(token, evs3) := extract_token_via_page_text page in
      if opt_truthy token then (Ok token, evs1 ++ evs2 ++ evs3)
      else
        let evs :=
          evs1 ++ evs2 ++ evs3
          ++ [Print "ERROR: All token extraction methods failed";
              Screenshot screenshot_path] in
        match screenshot page screenshot_path with
        | Raise e => (Raise e, evs)
        | Ok tt => (Ok None, evs)
        end.

End Browser.

(** ** sparc_phase4_session_manager: teardown *)

Module Session.
Import Text Py.

(** The four resources a session holds, in the order they are created. *)
Inductive Resource := ThePlaywright | TheBrowser | TheContext | ThePage.

(** A Playwright object: what its [close()] (or [stop()]) will do. *)
Record Handle := {
  resource : Resource;
  close_outcome : option exn
}.

Record SessionManager := {
  browser : option Handle;
  context : option Handle;
  page : option Handle;
  playwright : option Handle
}.

Inductive Level := DEBUG | INFO | ERROR.

(** What a run of [close_session] does, in order: release calls that
    returned, release calls that raised, and log records. *)
Inductive Event :=
| Released (h : Handle)
| ReleaseFailed (h : Handle)
| Log (level : Level) (message : string).

(** State and exception monad of the teardown: the manager's fields and
    the events so far. *)
Definition M (A : Type) : Type :=
  SessionManager * list Event -> result A * (SessionManager * list Event).

Definition ret {A} (a : A) : M A := fun st => (Ok a, st).
Definition bind {A B} (m : M A) (k : A -> M B) : M B :=
  fun st =>
    match m st with
    | (Ok a, st') => k a st'
    | (Raise e, st') => (Raise e, st')
    end.
Definition try_except {A} (m : M A) (h : exn -> M A) : M A :=
  fun st =>
    match m st with
    | (Ok a, st') => (Ok a, st')
    | (Raise e, st') => h e st'
    end.

Definition get_self : M SessionManager := fun st => (Ok st.1, st).
Definition set_self (f : SessionManager -> SessionManager) : M unit :=
  fun st => (Ok tt, (f st.1, st.2)).
Definition log (level : Level) (message : string) : M unit :=
  fun st => (Ok tt, (st.1, st.2 ++ [Log level message])).

(** [await h.close()] (or [await h.stop()]). *)
Definition release (h : Handle) : M unit :=
  fun st =>
    match close_outcome h with
    | None => (Ok tt, (st.1, st.2 ++ [Released h]))
    | Some e => (Raise e, (st.1, st.2 ++ [ReleaseFailed h]))
    end.

Definition clear_page (self : SessionManager) : SessionManager :=
  {| browser := browser self; context := context self; page := None;
     playwright := playwright self |}.
Definition clear_context (self : SessionManager) : SessionManager :=
  {| browser := browser self; context := None; page := page self;
     playwright := playwright self |}.
Definition clear_browser (self : SessionManager) : SessionManager :=
  {| browser := None; context := context self; page := page self;
     playwright := playwright self |}.
Definition clear_playwright (self : SessionManager) : SessionManager :=
  {| browser := browser self; context := context self; page := page self;
     playwright := None |}.
Definition clear_all (self : SessionManager) : SessionManager :=
  {| browser := None; context := None; page := None; playwright := None |}.

Local Notation "x <- m ;; k" := (bind m (fun x => k))
  (at level 100, m at next level, right associativity).
Local Notation "m ;;; k" := (bind m (fun _ => k))
  (at level 100, right associativity).

(** [if self.<field> is not None: await self.<field>.close(); self.<field> = None;
    logger.debug(...)]. *)
Definition close_field
    (field : SessionManager -> option Handle)
    (clear : SessionManager -> SessionManager) (message : string) : M unit :=
  self <- get_self ;;
  match field self with
  | Some h => release h ;;; set_self clear ;;; log DEBUG message
  | None => ret tt
  end.

Definition close_session : M unit :=
  log INFO "Closing browser session..." ;;;
  try_except
    (close_field page clear_page "Page closed" ;;;
     close_field context clear_context "Context closed" ;;;
     close_field browser clear_browser "Browser closed" ;;;
     close_field playwright clear_playwright "Playwright stopped" ;;;
     log INFO "Browser session closed successfully")
    (fun e =>
       log ERROR ("Error during session cleanup: " +:+ exn_str e) ;;;
       (* Force cleanup even on error *)
       set_self clear_all).

End Session.

(** ** sparc_phase4_cli_integration: redaction for logging *)

Module Redaction.
Import Text.

Record ServiceAccountResult := {
  success : bool;
  token : option string;
  error_message : option string;
  account_name : option string;
  extraction_method : option string
}.

(** [s[-n:]] for [n > 0]: the last [n] characters, or all of [s] when it
    has fewer. *)
Definition last_chars (n : nat) (s : string) : string :=
  drop (String.length s - n) s.

Definition redacted_token (self : ServiceAccountResult) : string :=
  match token self with
  | None => "ops_****...****"
  | Some token =>
      if negb (truthy token) || (String.length token <? 20)
      then "ops_****...****"
      else take 8 token +:+ "..." +:+ last_chars 8 token
  end.

End Redaction.

(** ** sparc_phase4_cli_integration: the [op whoami] check *)

Module Whoami.
Import Text Py.

Record CLIValidationResult := {
  success : bool;
  output : option string;
  service_account_name : option string;
  error_message : option string
}.

Definition MAX_RETRIES : Z := 3.
Definition BASE_DELAY : Q := 1.
Definition MAX_DELAY : Q := 60.
Definition BACKOFF_MULTIPLIER : Z := 2.
Definition CLI_TIMEOUT : Z := 10.

(** What one [subprocess.run(['op', 'whoami'], ...)] does: it returns a
    completed process, or raises [FileNotFoundError],
    [subprocess.TimeoutExpired], or some other exception. *)
Inductive RunOutcome :=
| Completed (returncode : Z) (stdout stderr : string)
| NotFound
| TimeoutExpired
| Failed (e : exn).

(** What a run of [test_token] does, in order (log records are left
    out). *)
Inductive Event :=
| Run (attempt : nat)
| Sleep (delay : Q).

Definition Traced (A : Type) : Type := A * list Event.

(** The class [[^\n\r(]]. *)
Definition name_char (c : ascii) : bool :=
  negb (Ascii.eqb c "010"%char || Ascii.eqb c "013"%char || Ascii.eqb c "("%char).

(** The group [([^\n\r(]+)] at the beginning of [s]: the longest run, which
    must not be empty. *)
Definition name_group (s : string) : option string :=
  let '(run, _) := span name_char s in
  if truthy run then Some run else None.

(** [\s*([^\n\r(]+)] at the beginning of [s]: the greedy [\s*] takes a
    whitespace character when the rest still matches after it, and gives it
    back to the group otherwise. *)
Fixpoint name_after_label (s : string) : option string :=
  match s with
  | EmptyString => None
  | String a s' =>
      if is_space a then
        match name_after_label s' with
        | Some name => Some name
        | None => name_group s
        end
      else name_group s
  end.

(** [re.search(r'Service Account:\s*([^\n\r(]+)', output)] and
    [match.group(1)]: the leftmost position with a match wins. *)
Fixpoint search_account_name (output : string) : option string :=
  match
    match strip_prefix "Service Account:" output with
    | Some rest => name_after_label rest
    | None => None
    end
  with
  | Some name => Some name
  | None =>
      match output with
      | EmptyString => None
      | String _ output' => search_account_name output'
      end
  end.

Definition transient_errors : list string :=
  ["network"; "timeout"; "connection"; "server error"; "503"; "502"; "500"].

Definition is_transient (stderr : string) : bool :=
  existsb (fun err => contains err (lower stderr)) transient_errors.

Definition OverflowError : exn :=
  {| exn_class := OtherError; exn_errno := None;
     exn_str := "int too large to convert to float" |}.

(** [min(BASE_DELAY * (BACKOFF_MULTIPLIER ** attempt), MAX_DELAY)]: the
    integer power is converted to a float for the product, which raises
    [OverflowError] from [2 ** 1024] on; below that the power, the product
    and the minimum are exact. *)
Definition backoff_delay (attempt : nat) : result Q :=
  if attempt <? 1024
  then Ok (Qmin (BASE_DELAY * inject_Z (BACKOFF_MULTIPLIER ^ Z.of_nat attempt))
             MAX_DELAY)
  else Raise OverflowError.

Definition failure (output error_message : option string) : CLIValidationResult :=
  {| success := false; output := output; service_account_name := None;
     error_message := error_message |}.

Section Check.
Variable run_outcome : nat -> RunOutcome.

(** [delay = ...; time.sleep(delay); continue].  An [OverflowError] of the
    delay leaves the function: in the two handlers directly, and in the
    [try] body through [except Exception], whose own delay raises it
    again. *)
Definition backoff_then (attempt : nat)
    (continue : Traced (result CLIValidationResult))
  : Traced (result CLIValidationResult) :=
  match backoff_delay attempt with
  | Ok delay => let '(r, evs) := continue in (r, Sleep delay :: evs)
  | Raise e => (Raise e, [])
  end.

(** The loop [for attempt in range(max_retries)] and the [return] after
    it. *)
Fixpoint attempts_loop (max_retries : Z) (attempts : list nat)
  : Traced (result CLIValidationResult) :=
  match attempts with
  | [] =>
      (Ok (failure None
             (Some ("Max retries (" +:+ Decision.str_of_Z max_retries
                    +:+ ") exceeded"))), [])
  | attempt :: rest =>
      let retries_left := (Z.of_nat attempt <? max_retries - 1)%Z in
      let '(r, evs) :=
        match run_outcome attempt with
        | Completed returncode stdout stderr =>
            if (returncode =? 0)%Z then
              let output := strip stdout in
              let service_account_name :=
                match search_account_name output with
                | Some name => Some (strip name)
                | None => None
                end in
              (Ok {| success := true; output := Some output;
                     service_account_name := service_account_name;
                     error_message := None |}, [])
            else
              let stderr := strip stderr in
              if is_transient stderr && retries_left
              then backoff_then attempt (attempts_loop max_retries rest)
              else (Ok (failure (Some stderr)
                          (Some ("op whoami failed: " +:+ stderr))), [])
        | NotFound =>
            (Ok (failure None
                   (Some "1Password CLI (op) not found. Install with: brew install 1password-cli")),
             [])
        | TimeoutExpired =>
            if retries_left
            then backoff_then attempt (attempts_loop max_retries rest)
            else (Ok (failure None
                        (Some ("op whoami timed out after "
                               +:+ Decision.str_of_Z CLI_TIMEOUT +:+ "s"))), [])
        | Failed e =>
            if retries_left
            then backoff_then attempt (attempts_loop max_retries rest)
            else (Ok (failure None
                        (Some ("Unexpected error: " +:+ exn_str e))), [])
        end in
      (r, Run attempt :: evs)
  end.

Definition test_token (token : string) (max_retries : Z)
  : Traced (result CLIValidationResult) :=
  let validation := Cli.validate_token_format token in
  if negb (Cli.is_valid validation) then
    (Ok (failure None
           (Some ("Invalid token format: "
                  +:+ join ", " (Cli.errors validation)))), [])
  else attempts_loop max_retries (seq 0 (Z.to_nat max_retries)).

End Check.

End Whoami.

(** * Properties *)

Import Text Py.

(** ** Text *)

Lemma append_cons (a : ascii) (s t : string) :
  String a s +:+ t = String a (s +:+ t).
Proof. reflexivity. Qed.

Lemma append_nil_r (s : string) : s +:+ EmptyString = s.
Proof. induction s as [|a s IH]; [reflexivity|]. now rewrite append_cons, IH. Qed.

Lemma length_append (s t : string) :
  String.length (s +:+ t) = String.length s + String.length t.
Proof.
  induction s as [|a s IH]; [reflexivity|].
  rewrite append_cons. simpl. now rewrite IH.
Qed.

Lemma startswith_strip_prefix (p s : string) :
  startswith p s = true <-> exists rest, strip_prefix p s = Some rest.
Proof.
  revert s. induction p as [|a p IH]; intros s; simpl.
  - split; eauto.
  - destruct s as [|b s]; [split; [discriminate|intros [? ?]; discriminate]|].
    destruct (Ascii.eqb a b); simpl; [apply IH|].
    split; [discriminate|intros [? ?]; discriminate].
Qed.

Lemma strip_prefix_append (p s rest : string) :
  strip_prefix p s = Some rest <-> s = p +:+ rest.
Proof.
  revert s. induction p as [|a p IH]; intros s; simpl.
  - split; [now intros [= ->]|now intros ->].
  - destruct s as [|b s].
    + split; [discriminate|]. rewrite append_cons. discriminate.
    + rewrite append_cons. destruct (Ascii.eqb_spec a b) as [->|Hne].
      * rewrite IH. split; [now intros ->|now intros [= ->]].
      * split; [discriminate|]. intros [= ? ?]. congruence.
Qed.

Lemma forallb_str_append (p : ascii -> bool) (s t : string) :
  forallb_str p (s +:+ t) = forallb_str p s && forallb_str p t.
Proof.
  induction s as [|a s IH]; [reflexivity|].
  rewrite append_cons. simpl. rewrite IH. now rewrite andb_assoc.
Qed.

Lemma span_all (p : ascii -> bool) (s : string) :
  forallb_str p s = true -> span p s = (s, EmptyString).
Proof.
  induction s as [|a s IH]; simpl; [reflexivity|].
  destruct (p a); [|discriminate]. simpl. intros H. now rewrite (IH H).
Qed.

Lemma span_spec (p : ascii -> bool) (s run rest : string) :
  span p s = (run, rest) ->
  s = run +:+ rest /\ forallb_str p run = true.
Proof.
  revert run rest. induction s as [|a s IH]; simpl; intros run rest.
  - now intros [= <- <-].
  - destruct (p a) eqn:Hp.
    + destruct (span p s) as [run' rest'] eqn:Hs. intros [= <- <-].
      destruct (IH _ _ eq_refl) as [-> Hall].
      rewrite append_cons. simpl. now rewrite Hp.
    + now intros [= <- <-].
Qed.

Lemma forallb_str_ext (p q : ascii -> bool) (s : string) :
  (forall c, p c = q c) -> forallb_str p s = forallb_str q s.
Proof. intros H. induction s as [|a s IH]; simpl; [reflexivity|]. now rewrite H, IH. Qed.

(** The set [ALLOWED_CHARS] and the class of the pattern are the same
    64 characters. *)
Lemma allowed_chars_token_class (c : ascii) :
  char_in c Cli.ALLOWED_CHARS = token_class c.
Proof. destruct c as [[] [] [] [] [] [] [] []]; vm_compute; reflexivity. Qed.

(** ** Token validation (sparc_phase4_cli_integration) *)

Definition allowed (c : ascii) : bool := char_in c Cli.ALLOWED_CHARS.

Definition all_checks_pass : Cli.TokenValidation :=
  {| Cli.is_valid := true; Cli.errors := []; Cli.prefix_ok := true;
     Cli.length_ok := true; Cli.charset_ok := true;
     Cli.pattern_match := true |}.

Lemma first_invalid_char_cons (i : nat) (a : ascii) (s : string) :
  Cli.first_invalid_char i (String a s)
  = if allowed a then Cli.first_invalid_char (S i) s else Some (a, i).
Proof. reflexivity. Qed.

Lemma forallb_str_cons (p : ascii -> bool) (a : ascii) (s : string) :
  forallb_str p (String a s) = p a && forallb_str p s.
Proof. reflexivity. Qed.

Lemma first_invalid_char_none (i : nat) (s : string) :
  forallb_str allowed s = true -> Cli.first_invalid_char i s = None.
Proof.
  revert i. induction s as [|a s IH]; intros i; [reflexivity|].
  rewrite forallb_str_cons, first_invalid_char_cons.
  destruct (allowed a); [|discriminate]. apply IH.
Qed.

Lemma first_invalid_char_some (i : nat) (s : string) :
  forallb_str allowed s = false ->
  exists c k,
    Cli.first_invalid_char i s = Some (c, i + k)
    /\ String.get k s = Some c /\ allowed c = false
    /\ forallb_str allowed (take k s) = true.
Proof.
  revert i. induction s as [|a s IH]; intros i; [discriminate|].
  rewrite forallb_str_cons, first_invalid_char_cons.
  destruct (allowed a) eqn:Ha.
  - intros H. destruct (IH (S i) H) as (c & k & Hf & Hg & Hc & Ht).
    exists c, (S k). rewrite Hf. repeat split; try assumption.
    + f_equal. f_equal. lia.
    + change (take (S k) (String a s)) with (String a (take k s)).
      rewrite forallb_str_cons, Ha. exact Ht.
  - intros _. exists a, 0. rewrite Nat.add_0_r. now repeat split.
Qed.

(** A token with the prefix, made of allowed characters only and with at
    least 100 characters after the prefix passes every check. *)
Lemma validate_token_format_accepts (body : string) :
  100 <= String.length body ->
  forallb_str token_class body = true ->
  Cli.validate_token_format ("ops_" +:+ body) = all_checks_pass.
Proof.
  intros Hlen Hcls.
  assert (Hall : forallb_str allowed ("ops_" +:+ body) = true).
  { rewrite forallb_str_append. rewrite andb_true_iff. split; [reflexivity|].
    rewrite <- Hcls. apply forallb_str_ext. intros c. apply allowed_chars_token_class. }
  assert (Hpat : Cli.TOKEN_PATTERN_match ("ops_" +:+ body) = true).
  { unfold Cli.TOKEN_PATTERN_match.
    assert (Hsp : strip_prefix "ops_" ("ops_" +:+ body) = Some body)
      by now apply strip_prefix_append.
    rewrite Hsp, (span_all _ _ Hcls). cbv beta iota.
    apply andb_true_iff. split; [now apply Nat.leb_le|reflexivity]. }
  assert (Hlen' : (Cli.MIN_TOKEN_LENGTH <=? String.length ("ops_" +:+ body)) = true).
  { apply Nat.leb_le. rewrite length_append. unfold Cli.MIN_TOKEN_LENGTH.
    change (String.length "ops_") with 4. lia. }
  unfold Cli.validate_token_format.
  rewrite (first_invalid_char_none 0 _ Hall), Hpat, Hlen'.
  reflexivity.
Qed.

(** The token of the example: the prefix and fifty letters. *)
Definition short_token : string :=
  "ops_aaaaaaaaaaaaaaaaaaaaaaaaaaaaaaaaaaaaaaaaaaaaaaaaaa".

(** A token of exactly 100 characters: the prefix and 96 letters. *)
Definition token_of_length_100 : string :=
  "ops_aaaaaaaaaaaaaaaaaaaaaaaaaaaaaaaaaaaaaaaaaaaaaaaaaaaaaaaaaaaaaaaaaaaaaaaaaaaaaaaaaaaaaaaaaaaaaaaa".

(** A token of 104 characters: the prefix and 100 letters. *)
Definition token_of_length_104 : string :=
  "ops_aaaaaaaaaaaaaaaaaaaaaaaaaaaaaaaaaaaaaaaaaaaaaaaaaaaaaaaaaaaaaaaaaaaaaaaaaaaaaaaaaaaaaaaaaaaaaaaaaaaa".

(** C1, as stated, fails: a token with the prefix, of total length 100 and
    made of allowed characters only satisfies the three rules of the claim,
    yet [validate_token_format] rejects it, with the single error of the
    fourth check (the full pattern wants 100 characters after the prefix). *)
Lemma validate_token_format_rejects_length_100 :
  startswith "ops_" token_of_length_100 = true
  /\ String.length token_of_length_100 = 100
  /\ forallb_str allowed token_of_length_100 = true
  /\ Cli.is_valid (Cli.validate_token_format token_of_length_100) = false
  /\ Cli.errors (Cli.validate_token_format token_of_length_100)
     = ["Token does not match expected pattern"].
Proof. vm_compute. repeat split; reflexivity. Qed.

(** C1, amended: a token that starts with [ops_], has at least 100
    characters after that prefix (104 in all) and consists of allowed
    characters only passes every check with an empty error list; and a token
    that breaks the prefix rule, the 100-character length rule or the
    character-set rule has the flag of that check cleared, the error of that
    check in the list, and is invalid. *)
Theorem validate_token_format_checks (token : string) :
  (startswith "ops_" token = true ->
   104 <= String.length token ->
   forallb_str allowed token = true ->
   Cli.validate_token_format token = all_checks_pass)
  /\ (startswith "ops_" token = false ->
      Cli.prefix_ok (Cli.validate_token_format token) = false
      /\ In "Token must start with 'ops_'"
           (Cli.errors (Cli.validate_token_format token))
      /\ Cli.is_valid (Cli.validate_token_format token) = false)
  /\ (String.length token < 100 ->
      Cli.length_ok (Cli.validate_token_format token) = false
      /\ In ("Token too short: " +:+ str_of_nat (String.length token) +:+ " < 100")
           (Cli.errors (Cli.validate_token_format token))
      /\ Cli.is_valid (Cli.validate_token_format token) = false)
  /\ (forallb_str allowed token = false ->
      Cli.charset_ok (Cli.validate_token_format token) = false
      /\ (exists c i,
            String.get i token = Some c /\ allowed c = false
            /\ forallb_str allowed (take i token) = true
            /\ In ("Invalid character '" +:+ String c EmptyString
                   +:+ "' at position " +:+ str_of_nat i)
                 (Cli.errors (Cli.validate_token_format token)))
      /\ Cli.is_valid (Cli.validate_token_format token) = false).
Proof.
  split; [|split; [|split]].
  - intros Hpre Hlen Hall.
    apply startswith_strip_prefix in Hpre as [body Hbody].
    apply strip_prefix_append in Hbody as ->.
    rewrite forallb_str_append in Hall. apply andb_true_iff in Hall as [_ Hall].
    rewrite length_append in Hlen. change (String.length "ops_") with 4 in Hlen.
    apply validate_token_format_accepts; [lia|].
    rewrite <- Hall. apply forallb_str_ext. intros c.
    symmetry. apply allowed_chars_token_class.
  - intros Hpre. unfold Cli.validate_token_format, Cli.TOKEN_PREFIX.
    rewrite Hpre.
    destruct (truthy token);
      destruct (Cli.MIN_TOKEN_LENGTH <=? String.length token);
      destruct (Cli.first_invalid_char 0 token) as [[c i]|];
      destruct (Cli.TOKEN_PATTERN_match token);
      cbn [negb andb app Cli.prefix_ok Cli.errors Cli.is_valid];
      (split; [reflexivity|split; [|reflexivity]]);
      rewrite ?in_app_iff; cbn [In]; tauto.
  - intros Hlen. unfold Cli.validate_token_format.
    assert (Hleb : (Cli.MIN_TOKEN_LENGTH <=? String.length token) = false)
      by (apply Nat.leb_gt; exact Hlen).
    rewrite Hleb.
    destruct token as [|a token']; [vm_compute; tauto|].
    set (token := String a token') in *.
    change (truthy token) with true. cbv iota.
    destruct (startswith Cli.TOKEN_PREFIX token);
      destruct (Cli.first_invalid_char 0 token) as [[c i]|];
      destruct (Cli.TOKEN_PATTERN_match token);
      cbn [negb andb app Cli.length_ok Cli.errors Cli.is_valid];
      (split; [reflexivity|split; [|rewrite ?andb_false_r; reflexivity]]);
      rewrite ?in_app_iff; cbn [In]; tauto.
  - intros Hall.
    destruct (first_invalid_char_some 0 token Hall) as (c & k & Hf & Hg & Hc & Ht).
    rewrite Nat.add_0_l in Hf.
    assert (Htr : truthy token = true) by (destruct token; [discriminate|reflexivity]).
    unfold Cli.validate_token_format. rewrite Htr, Hf.
    destruct (startswith Cli.TOKEN_PREFIX token);
      destruct (Cli.MIN_TOKEN_LENGTH <=? String.length token);
      destruct (Cli.TOKEN_PATTERN_match token);
      cbn [negb andb app Cli.charset_ok Cli.errors Cli.is_valid];
      (split; [reflexivity|split; [|rewrite ?andb_false_r; reflexivity]]);
      exists c, k; (repeat split; try assumption);
      rewrite ?in_app_iff; cbn [In]; tauto.
Qed.

(** C1 at concrete tokens: a 104-character token passes; the token of the
    example ([ops_] and fifty letters, length 54) fails with the length check
    flagged; a token with another prefix and a token with a character
    outside the set fail with their own check flagged. *)
Lemma validate_token_format_checks_witness :
  Cli.validate_token_format token_of_length_104 = all_checks_pass
  /\ (Cli.length_ok (Cli.validate_token_format short_token) = false
      /\ In "Token too short: 54 < 100"
           (Cli.errors (Cli.validate_token_format short_token))
      /\ Cli.is_valid (Cli.validate_token_format short_token) = false)
  /\ (Cli.prefix_ok (Cli.validate_token_format "token_abc") = false
      /\ In "Token must start with 'ops_'"
           (Cli.errors (Cli.validate_token_format "token_abc"))
      /\ Cli.is_valid (Cli.validate_token_format "token_abc") = false)
  /\ Cli.charset_ok (Cli.validate_token_format "ops_a!") = false.
Proof.
  split; [|split; [|split]].
  - apply (proj1 (validate_token_format_checks token_of_length_104)).
    + reflexivity.
    + apply Nat.leb_le. vm_compute. reflexivity.
    + vm_compute. reflexivity.
  - apply (proj1 (proj2 (proj2 (validate_token_format_checks short_token)))).
    apply Nat.ltb_lt. vm_compute. reflexivity.
  - apply (proj1 (proj2 (validate_token_format_checks "token_abc"))).
    reflexivity.
  - apply (proj2 (proj2 (proj2 (validate_token_format_checks "ops_a!")))).
    vm_compute. reflexivity.
Defined.

(** ** Token extraction from output (sparc_phase4_cli_integration) *)

Lemma token_match_here_shape (s t : string) :
  Cli.token_match_here s = Some t ->
  exists body,
    t = "ops_" +:+ body /\ 100 <= String.length body
    /\ forallb_str token_class body = true.
Proof.
  unfold Cli.token_match_here.
  destruct (strip_prefix "ops_" s) as [rest|]; [|discriminate].
  destruct (span token_class rest) as [run tail] eqn:Hspan.
  destruct (100 <=? String.length run) eqn:Hlen; [|discriminate].
  intros [= <-]. exists run. split; [reflexivity|]. split.
  - now apply Nat.leb_le.
  - now destruct (span_spec _ _ _ _ Hspan).
Qed.

Lemma search_token_shape (s t : string) :
  Cli.search_token s = Some t ->
  exists body,
    t = "ops_" +:+ body /\ 100 <= String.length body
    /\ forallb_str token_class body = true.
Proof.
  induction s as [|a s IH].
  - unfold Cli.search_token.
    destruct (Cli.token_match_here EmptyString) eqn:H; [|discriminate].
    intros [= <-]. eapply token_match_here_shape; eauto.
  - change (Cli.search_token (String a s))
      with (match Cli.token_match_here (String a s) with
            | Some t => Some t
            | None => Cli.search_token s
            end).
    destruct (Cli.token_match_here (String a s)) eqn:H.
    + intros [= <-]. eapply token_match_here_shape; eauto.
    + exact IH.
Qed.

(** C10: whatever [extract_token_from_output] returns is [ops_] followed by
    at least 100 characters of the class [A-Za-z0-9_-], and
    [validate_token_format] accepts it with every flag set and no error. *)
Theorem extract_token_from_output_is_valid (output token : string) :
  Cli.extract_token_from_output output = Some token ->
  (exists body,
     token = "ops_" +:+ body /\ 100 <= String.length body
     /\ forallb_str token_class body = true)
  /\ Cli.validate_token_format token = all_checks_pass.
Proof.
  unfold Cli.extract_token_from_output.
  destruct (negb (truthy output)); [discriminate|].
  intros H.
  assert (Hshape : exists body,
             token = "ops_" +:+ body /\ 100 <= String.length body
             /\ forallb_str token_class body = true).
  { destruct (Cli.search_token (remove_chars is_space output)) as [t|] eqn:H1.
    - injection H as <-. eapply search_token_shape; eauto.
    - destruct (Cli.search_token output) as [t|] eqn:H2; [|discriminate].
      injection H as <-. eapply search_token_shape; eauto. }
  split; [exact Hshape|].
  destruct Hshape as (body & -> & Hlen & Hcls).
  now apply validate_token_format_accepts.
Qed.

(** An output with a token wrapped over two lines, and the token in it. *)
Definition wrapped_output : string :=
  "Your token: ops_aaaaaaaaaaaaaaaaaaaaaaaaaaaaaaaaaaaaaaaaaaaaaaaaaaaaaaaaaaaa"
  +:+ NL +:+
  "  aaaaaaaaaaaaaaaaaaaaaaaaaaaaaaaaaaaaaaaaaaaaaaaaaa (shown once)".

Definition wrapped_token : string :=
  "ops_aaaaaaaaaaaaaaaaaaaaaaaaaaaaaaaaaaaaaaaaaaaaaaaaaaaaaaaaaaaaaaaaaaaaaaaaaaaaaaaaaaaaaaaaaaaaaaaaaaaaaaaaaaaaaa".

(** C10 at the wrapped output: the extracted token is the prefix and the
    110 letters, and it passes every check. *)
Lemma extract_token_from_output_is_valid_witness :
  Cli.extract_token_from_output wrapped_output = Some wrapped_token
  /\ Cli.validate_token_format wrapped_token = all_checks_pass.
Proof.
  assert (H : Cli.extract_token_from_output wrapped_output = Some wrapped_token)
    by (vm_compute; reflexivity).
  split; [exact H|].
  exact (proj2 (extract_token_from_output_is_valid wrapped_output wrapped_token H)).
Defined.

(** ** Retry strategies (sparc_phase4_decision_engine) *)

Lemma lower_cons (a : ascii) (s : string) :
  lower (String a s) = String (lower_char a) (lower s).
Proof. reflexivity. Qed.

Lemma startswith_lower (p s : string) :
  startswith p s = true -> startswith (lower p) (lower s) = true.
Proof.
  revert s. induction p as [|a p IH]; intros s; [reflexivity|].
  destruct s as [|b s]; [discriminate|].
  rewrite !lower_cons. simpl.
  destruct (Ascii.eqb_spec a b) as [->|]; [|discriminate].
  simpl. intros H. rewrite Ascii.eqb_refl. simpl. now apply IH.
Qed.

Lemma contains_cons (needle : string) (a : ascii) (hay : string) :
  contains needle (String a hay)
  = startswith needle (String a hay) || contains needle hay.
Proof. reflexivity. Qed.

Lemma contains_lower (needle hay : string) :
  contains needle hay = true -> contains (lower needle) (lower hay) = true.
Proof.
  induction hay as [|a hay IH].
  - destruct needle; [reflexivity|discriminate].
  - rewrite lower_cons, !contains_cons, <- lower_cons.
    intros [H|H]%orb_true_iff; apply orb_true_iff.
    + left. now apply startswith_lower.
    + right. now apply IH.
Qed.

(** An error that is neither a timeout nor an [OSError], with a message
    that names an element not found and a timeout at once. *)
Definition not_found_timeout : exn :=
  RuntimeError "Selector not found: timeout after 30s".

(** C4, as stated, fails: the message contains [not found], and the
    strategy is the retryable timeout strategy with three attempts, because
    the timeout test comes first. *)
Lemma get_retry_strategy_not_found_timeout :
  contains "not found" (exn_str not_found_timeout) = true
  /\ Decision.retryable (Decision.get_retry_strategy not_found_timeout) = true
  /\ Decision.max_attempts (Decision.get_retry_strategy not_found_timeout) = 3%Z.
Proof. vm_compute. repeat split; reflexivity. Qed.

(** C4, amended: for every exception that is neither a [TimeoutError] nor a
    [ConnectionError] or other [OSError], whose lower-cased message contains
    neither [timeout] nor [captcha], and whose message contains [invalid],
    [not found] or [missing], the strategy is the non-retryable one with
    zero attempts. *)
Theorem get_retry_strategy_non_retryable (error : exn) :
  is_TimeoutError error = false ->
  is_OSError error = false ->
  contains "timeout" (lower (exn_str error)) = false ->
  contains "captcha" (lower (exn_str error)) = false ->
  contains "invalid" (exn_str error) = true
  \/ contains "not found" (exn_str error) = true
  \/ contains "missing" (exn_str error) = true ->
  Decision.retryable (Decision.get_retry_strategy error) = false
  /\ Decision.max_attempts (Decision.get_retry_strategy error) = 0%Z
  /\ Decision.name (Decision.get_retry_strategy error) = "non_retryable".
Proof.
  intros Ht Ho Htime Hcap Hmsg.
  unfold Decision.get_retry_strategy. rewrite Ht, Ho, Htime, Hcap.
  assert (H : existsb (fun token => contains token (lower (exn_str error)))
                ["invalid"; "not found"; "missing"] = true).
  { cbn [existsb]. rewrite !orb_true_iff.
    destruct Hmsg as [H|[H|H]]; apply contains_lower in H; auto. }
  rewrite H. repeat split.
Qed.

(** C4 at a plain [RuntimeError] whose message says that an element was
    not found. *)
Lemma get_retry_strategy_non_retryable_witness :
  Decision.retryable
    (Decision.get_retry_strategy (RuntimeError "Element not found: #name")) = false
  /\ Decision.max_attempts
       (Decision.get_retry_strategy (RuntimeError "Element not found: #name")) = 0%Z
  /\ Decision.name
       (Decision.get_retry_strategy (RuntimeError "Element not found: #name"))
     = "non_retryable".
Proof.
  apply (get_retry_strategy_non_retryable (RuntimeError "Element not found: #name"));
    try reflexivity.
  right. left. reflexivity.
Defined.

(** ** The retry rule of the decision engine *)

Definition retry_action
    (reason description : string) (confidence : Q)
    (strategy : option Decision.RetryStrategy) : Decision.Action :=
  {| Decision.action_type := Decision.RETRY; Decision.selector := None;
     Decision.value := None; Decision.url := None;
     Decision.description := description; Decision.reason := reason;
     Decision.confidence := confidence;
     Decision.metadata := Decision.MetaStrategy strategy |}.

Definition empty_intent : Decision.Intent :=
  {| Decision.in_target_url := None; Decision.in_extract := None;
     Decision.in_extract_selectors := None; Decision.in_form_data := None;
     Decision.in_inputs := None; Decision.in_query := None;
     Decision.in_text := None; Decision.in_value := None;
     Decision.in_click_selector := None; Decision.in_click_text := None |}.

Definition empty_metadata : Decision.ContextMetadata :=
  {| Decision.md_target_url := None; Decision.md_extract := None;
     Decision.md_extract_selectors := None; Decision.md_form_data := None |}.

(** A context after a failed action: the last result is [False], the last
    error says that an element was not found, [retries] retries were made,
    and the intent names a target URL the browser is not at. *)
Definition failed_context (error : exn) (retries : Z) : Decision.DecisionContext :=
  {| Decision.ctx_url := "about:blank";
     Decision.ctx_dom := "<html><body></body></html>";
     Decision.ctx_visible_elements := [];
     Decision.ctx_intent :=
       {| Decision.in_target_url := Some "https://my.1password.com/developer-tools";
          Decision.in_extract := None;
          Decision.in_extract_selectors := None; Decision.in_form_data := None;
          Decision.in_inputs := None; Decision.in_query := None;
          Decision.in_text := None; Decision.in_value := None;
          Decision.in_click_selector := None; Decision.in_click_text := None |};
     Decision.ctx_errors := [];
     Decision.ctx_last_action := None;
     Decision.ctx_last_result := Decision.RBool false;
     Decision.ctx_last_error := Some error;
     Decision.ctx_retry_count := retries;
     Decision.ctx_history := [];
     Decision.ctx_decision_log := [];
     Decision.ctx_metadata := empty_metadata |}.

(** C7, as stated, fails: the last result is a failure and the strategy of
    the last error is non-retryable, yet [decide] returns a NAVIGATE action,
    not a RETRY: the retry rule steps aside and the later rules decide. *)
Lemma decide_non_retryable_navigates :
  Decision.evaluate_result
    (Decision.ctx_last_result
       (failed_context (RuntimeError "Element not found: #name") 0)) = false
  /\ Decision.retryable
       (Decision.get_retry_strategy (RuntimeError "Element not found: #name"))
     = false
  /\ Decision.action_type
       (Decision.decide
          (failed_context (RuntimeError "Element not found: #name") 0)).1
     = Decision.NAVIGATE.
Proof. vm_compute. repeat split; reflexivity. Qed.

(** C7, amended: for every context whose last result is present and
    indicates failure, [decide] returns: without a last error, a RETRY with
    reason [last_result_failed]; with a last error whose strategy is
    retryable, a RETRY with reason [last_result_failed] while the retry
    count is below the strategy's attempts and a RETRY with reason
    [retry_exhausted] once it is not, both carrying the strategy; and with a
    last error whose strategy is non-retryable, whatever the later rules
    (captcha, error markers, navigate, extract, fill, click, fallback)
    select.  The decision is recorded as the context's last action. *)
Theorem decide_after_failure (context : Decision.DecisionContext) :
  Decision.ctx_last_result context <> Decision.RNone ->
  Decision.evaluate_result (Decision.ctx_last_result context) = false ->
  (Decision.decide context).1
  = match Decision.ctx_last_error context with
    | None =>
        retry_action "last_result_failed" "Last action failed; retrying" 0.5 None
    | Some error =>
        let strategy := Decision.get_retry_strategy error in
        if negb (Decision.retryable strategy) then
          Decision.select_after_retry context (Decision._analyze context)
        else if (Decision.ctx_retry_count context
                 <? Decision.max_attempts strategy)%Z then
          retry_action "last_result_failed" "Last action failed; retrying" 0.5
            (Some strategy)
        else
          retry_action "retry_exhausted" "Retry limit reached for last error" 0.2
            (Some strategy)
    end
  /\ Decision.ctx_last_action (Decision.decide context).2
     = Some (Decision.decide context).1.
Proof.
  intros Hsome Hfail. split; [|reflexivity].
  unfold Decision.decide, Decision._select_action, Decision._maybe_retry.
  cbn [fst].
  destruct (Decision.ctx_last_result context) eqn:Hres; try congruence;
    rewrite Hfail;
    (destruct (Decision.ctx_last_error context) as [error|]; [|reflexivity]);
    cbn [fmap option_fmap option_map];
    unfold Decision.should_retry;
    (destruct (Decision.retryable (Decision.get_retry_strategy error));
     [|reflexivity]);
    cbn [negb andb];
    (destruct (Decision.ctx_retry_count context
               <? Decision.max_attempts (Decision.get_retry_strategy error))%Z;
     reflexivity).
Qed.

(** C7 at a context whose last error gets the generic strategy (two
    attempts): exhausted after two retries, retried after one. *)
Lemma decide_after_failure_witness :
  (Decision.decide (failed_context (RuntimeError "page crashed") 2)).1
  = retry_action "retry_exhausted" "Retry limit reached for last error" 0.2
      (Some (Decision.get_retry_strategy (RuntimeError "page crashed")))
  /\ (Decision.decide (failed_context (RuntimeError "page crashed") 1)).1
     = retry_action "last_result_failed" "Last action failed; retrying" 0.5
         (Some (Decision.get_retry_strategy (RuntimeError "page crashed"))).
Proof.
  split.
  - apply (decide_after_failure (failed_context (RuntimeError "page crashed") 2));
      [discriminate|reflexivity].
  - apply (decide_after_failure (failed_context (RuntimeError "page crashed") 1));
      [discriminate|reflexivity].
Defined.

(** ** The orchestrator's state machine *)

Section OrchestratorFacts.
Import Orchestrator.

(** Two contexts that differ at most in their invocation log. *)
Definition same_states (c c' : OrchestrationContext) : Prop :=
  current_state c' = current_state c
  /\ state_transitions c' = state_transitions c
  /\ cleanup_runs c' = cleanup_runs c
  /\ cleanup_warnings c' = cleanup_warnings c.

(** [c] after further invocations. *)
Definition invoking (steps : list Step) (c : OrchestrationContext)
  : OrchestrationContext :=
  {| current_state := current_state c;
     state_transitions := state_transitions c;
     cleanup_runs := cleanup_runs c;
     cleanup_warnings := cleanup_warnings c;
     invocations := invocations c ++ steps |}.

Lemma invoking_nil (c : OrchestrationContext) : invoking [] c = c.
Proof. destruct c. unfold invoking. cbn. now rewrite app_nil_r. Qed.

Lemma invoking_app (s1 s2 : list Step) (c : OrchestrationContext) :
  invoking s2 (invoking s1 c) = invoking (s1 ++ s2) c.
Proof. unfold invoking. cbn. now rewrite app_assoc. Qed.

Lemma invoked_invoking_same (op : Step) (k : nat) (c : OrchestrationContext) :
  invoked op (invoking (repeat op k) c) = invoked op c + k.
Proof.
  unfold invoked, invoking. cbn [invocations].
  rewrite filter_app, length_app. f_equal.
  induction k as [|k IH]; [reflexivity|]. cbn [repeat].
  rewrite filter_cons_True by (apply bool_decide_pack; reflexivity).
  cbn [length]. now rewrite IH.
Qed.

Lemma invoked_invoking_other (op step : Step) (k : nat) (c : OrchestrationContext) :
  op <> step -> invoked step (invoking (repeat op k) c) = invoked step c.
Proof.
  intros Hne. unfold invoked, invoking. cbn [invocations].
  rewrite filter_app, length_app.
  assert (H : filter (fun s => bool_decide (s = step)) (repeat op k) = []).
  { induction k as [|k IH]; [reflexivity|]. cbn [repeat].
    rewrite filter_cons_False; [exact IH|].
    intros Hb. apply bool_decide_unpack in Hb. contradiction. }
  rewrite H. cbn. lia.
Qed.

Lemma get_retry_strategy_attempts_le_5 (e : exn) :
  (Decision.max_attempts (Decision.get_retry_strategy e) <= 5)%Z.
Proof.
  unfold Decision.get_retry_strategy.
  repeat match goal with |- context [if ?b then _ else _] => destruct b end;
    cbn; lia.
Qed.

Lemma resolve_max_attempts_le_5 (configured : ConfigValue) (e : exn) :
  (_resolve_max_attempts configured (Decision.get_retry_strategy e) <= 5)%Z.
Proof.
  pose proof (get_retry_strategy_attempts_le_5 e).
  unfold _resolve_max_attempts. destruct configured as [| |z]; try lia.
  destruct (z <? 0)%Z; [lia|].
  destruct (_ <=? 0)%Z; lia.
Qed.

(** The retry cap for an exception, and whether the loop raises it again
    after [attempt] earlier failures. *)
Definition cap (w : World) (e : exn) : Z :=
  _resolve_max_attempts (config_max_retries w) (Decision.get_retry_strategy e).

Definition final (w : World) (e : exn) (attempt : Z) : bool :=
  negb (Decision.retryable (Decision.get_retry_strategy e))
  || (cap w e <=? 0)%Z || (attempt + 1 >=? cap w e)%Z.

(** The loop of [_retry_with_backoff] from the [n]-th invocation of the
    step on, as a function of the world alone: how it ends and how many
    invocations it makes. *)
Fixpoint attempts_from (w : World) (op : Step) (fuel : nat) (attempt : Z) (n : nat)
  : option (Outcome unit * nat) :=
  match fuel with
  | O => None
  | S fuel' =>
      match step_outcome w op n with
      | Returns tt => Some (Returns tt, 1)
      | Interrupted => Some (Interrupted, 1)
      | Raises e =>
          if pause_interrupted w op n then Some (Interrupted, 1)
          else if final w e attempt then Some (Raises e, 1)
          else
            match attempts_from w op fuel' (attempt + 1) (S n) with
            | Some (o, k) => Some (o, S k)
            | None => None
            end
      end
  end.

Lemma retry_loop_attempts_from (w : World) (op : Step) (fuel : nat) :
  forall attempt c,
    retry_loop w op fuel attempt c
    = match attempts_from w op fuel attempt (invoked op c) with
      | Some (o, k) => Some (o, invoking (repeat op k) c)
      | None => None
      end.
Proof.
  induction fuel as [|fuel IH]; intros attempt c; [reflexivity|].
  cbn [retry_loop attempts_from]. unfold invoke.
  fold (invoking [op] c).
  destruct (step_outcome w op (invoked op c)) as [[]|e|]; try reflexivity.
  destruct (pause_interrupted w op (invoked op c)); [reflexivity|].
  unfold final, cap.
  destruct (negb (Decision.retryable (Decision.get_retry_strategy e)));
    [reflexivity|].
  destruct (_ <=? 0)%Z; [reflexivity|].
  destruct (_ >=? _)%Z; [reflexivity|]. cbn [orb].
  rewrite IH.
  change [op] with (repeat op 1).
  rewrite invoked_invoking_same, Nat.add_1_r.
  destruct (attempts_from w op fuel (attempt + 1) (S (invoked op c)))
    as [[o k]|]; [|reflexivity].
  rewrite invoking_app. reflexivity.
Qed.

(** The loop ends: with [attempt] failures behind it, [5 - attempt]
    further invocations are enough. *)
Lemma attempts_from_finishes (w : World) (op : Step) (fuel : nat) :
  forall attempt n,
    (0 <= attempt)%Z -> (5 <= Z.of_nat fuel + attempt)%Z -> 1 <= fuel ->
    exists o k, attempts_from w op fuel attempt n = Some (o, k)
                /\ 1 <= k <= fuel.
Proof.
  induction fuel as [|fuel IH]; intros attempt n Hpos Hsum Hfuel; [lia|].
  cbn [attempts_from].
  destruct (step_outcome w op n) as [[]|e|]; [exists (Returns tt), 1; split; [reflexivity|lia]| |exists Interrupted, 1; split; [reflexivity|lia]].
  destruct (pause_interrupted w op n);
    [exists Interrupted, 1; split; [reflexivity|lia]|].
  destruct (final w e attempt) eqn:Hfinal;
    [exists (Raises e), 1; split; [reflexivity|lia]|].
  unfold final in Hfinal. apply orb_false_iff in Hfinal as [_ Hge].
  pose proof (resolve_max_attempts_le_5 (config_max_retries w) e) as Hcap.
  fold (cap w e) in Hcap.
  rewrite Z.geb_leb in Hge. apply Z.leb_gt in Hge.
  destruct (IH (attempt + 1)%Z (S n)) as (o & k & -> & Hk); [lia|lia|lia|].
  exists o, (S k). split; [reflexivity|lia].
Qed.

Lemma retry_with_backoff_attempts (w : World) (op : Step) (c : OrchestrationContext) :
  exists o k,
    attempts_from w op retry_fuel 0 (invoked op c) = Some (o, k)
    /\ 1 <= k <= 5
    /\ _retry_with_backoff w op c = (o, invoking (repeat op k) c).
Proof.
  destruct (attempts_from_finishes w op retry_fuel 0 (invoked op c))
    as (o & k & H & Hk); [lia|unfold retry_fuel; lia|unfold retry_fuel; lia|].
  exists o, k. split; [exact H|]. split; [exact Hk|].
  unfold _retry_with_backoff. rewrite retry_loop_attempts_from, H. reflexivity.
Qed.

(** The states of the steps, in the order of [orchestrate], with the step
    run in each and whether it goes through [_retry_with_backoff]. *)
Definition plan : list (OrchestrationState * bool * Step) :=
  [(CHECK_AUTH, true, _check_auth_status);
   (SESSION_INIT, false, _init_session_manager);
   (BROWSER_OPEN, false, _open_browser);
   (NAVIGATE, true, _navigate_to_page);
   (FILL_FORM, true, _fill_account_form);
   (WIZARD_NAV, true, _navigate_wizard);
   (EXTRACT_TOKEN, true, _extract_service_token);
   (VALIDATE_TOKEN, false, _validate_token);
   (SAVE_TOKEN, false, _save_token_to_env);
   (TEST_TOKEN, false, _test_token_with_cli)].

Definition step_states : list OrchestrationState := map (fun p => p.1.1) plan.

Definition run_step (w : World) (retried : bool) (step : Step) : Run unit :=
  if retried then _retry_with_backoff w step else invoke w step.

(** How a step ends when the run reaches it: its outcome where it has not
    been invoked before. *)
Definition step_fate (w : World) (retried : bool) (step : Step) : Outcome unit :=
  (run_step w retried step initial_context).1.

Lemma run_step_fate (w : World) (retried : bool) (step : Step)
    (c : OrchestrationContext) :
  invoked step c = 0 ->
  exists k, run_step w retried step c
            = (step_fate w retried step, invoking (repeat step k) c).
Proof.
  intros Hc. unfold step_fate. destruct retried; cbn [run_step].
  - destruct (retry_with_backoff_attempts w step c) as (o & k & H & _ & ->).
    destruct (retry_with_backoff_attempts w step initial_context)
      as (o' & k' & H' & _ & ->).
    rewrite Hc in H. change (invoked step initial_context) with 0 in H'.
    rewrite H in H'. injection H' as <- <-. exists k. reflexivity.
  - exists 1. unfold invoke. rewrite Hc. reflexivity.
Qed.

(** The first step of the list that does not return: its position, and
    the exception it raises ([None] when it is interrupted). *)
Fixpoint first_stop (w : World) (steps : list (OrchestrationState * bool * Step))
  : option (nat * option exn) :=
  match steps with
  | [] => None
  | (_, retried, step) :: steps' =>
      match step_fate w retried step with
      | Returns _ =>
          match first_stop w steps' with
          | Some (k, stop) => Some (S k, stop)
          | None => None
          end
      | Raises e => Some (0, Some e)
      | Interrupted => Some (0, None)
      end
  end.

Fixpoint run_plan (w : World) (steps : list (OrchestrationState * bool * Step))
    (rest : Run unit) : Run unit :=
  match steps with
  | [] => rest
  | (state, retried, step) :: steps' =>
      bind (_transition_state state)
        (fun _ => bind (run_step w retried step)
                    (fun _ => run_plan w steps' rest))
  end.

Definition closing (w : World) : Run unit :=
  bind (_transition_state CLEANUP)
    (fun _ => bind (_cleanup w) (fun _ => _transition_state COMPLETE)).

Lemma workflow_run_plan (w : World) : workflow w = run_plan w plan (closing w).
Proof. reflexivity. Qed.

(** A context after the states [states] were entered and further
    invocations made. *)
Definition advanced (states : list OrchestrationState)
    (c c' : OrchestrationContext) : Prop :=
  state_transitions c' = state_transitions c ++ states
  /\ last (state_transitions c') = Some (current_state c')
  /\ cleanup_runs c' = cleanup_runs c
  /\ cleanup_warnings c' = cleanup_warnings c.

(** Running a list of distinct steps, none of which was invoked before:
    the run stops at the first step that does not return, after the states
    up to that step's were entered; otherwise all states are entered and
    the rest of the code runs. *)
Lemma run_plan_spec (w : World) (steps : list (OrchestrationState * bool * Step))
    (rest : Run unit) :
  NoDup (map snd steps) ->
  forall c,
    (forall p, p ∈ steps -> invoked p.2 c = 0) ->
    match first_stop w steps with
    | Some (k, stop) =>
        exists c',
          run_plan w steps rest c
          = (match stop with Some e => Raises e | None => Interrupted end, c')
          /\ k < length steps
          /\ advanced (firstn (S k) (map (fun p => p.1.1) steps)) c c'
    | None =>
        exists c',
          run_plan w steps rest c = rest c'
          /\ state_transitions c'
             = state_transitions c ++ map (fun p => p.1.1) steps
          /\ cleanup_runs c' = cleanup_runs c
          /\ cleanup_warnings c' = cleanup_warnings c
    end.
Proof.
  induction steps as [|[[state retried] step] steps IH]; intros Hnd c Hfresh.
  - cbn. exists c. now rewrite app_nil_r.
  - cbn [map snd fst] in Hnd.
    apply NoDup_cons in Hnd as [Hnotin Hnd].
    set (c1 := {| current_state := state;
                  state_transitions := state_transitions c ++ [state];
                  cleanup_runs := cleanup_runs c;
                  cleanup_warnings := cleanup_warnings c;
                  invocations := invocations c |}).
    assert (Heq : run_plan w ((state, retried, step) :: steps) rest c
                  = match run_step w retried step c1 with
                    | (Returns _, c2) => run_plan w steps rest c2
                    | (Raises e, c2) => (Raises e, c2)
                    | (Interrupted, c2) => (Interrupted, c2)
                    end) by reflexivity.
    rewrite Heq. clear Heq.
    assert (Hstep : invoked step c1 = 0).
    { change (invoked step c1) with (invoked step c).
      apply (Hfresh (state, retried, step)). now left. }
    destruct (run_step_fate w retried step c1 Hstep) as [k ->].
    cbn [first_stop map fst snd length].
    destruct (step_fate w retried step) as [[]|e|].
    + assert (Hfresh' : forall p, p ∈ steps ->
                                  invoked p.2 (invoking (repeat step k) c1) = 0).
      { intros p Hp. rewrite invoked_invoking_other.
        - change (invoked p.2 c1) with (invoked p.2 c). apply Hfresh. now right.
        - intros ->. apply Hnotin. apply list_elem_of_fmap. now exists p. }
      specialize (IH Hnd (invoking (repeat step k) c1) Hfresh').
      destruct (first_stop w steps) as [[k' stop]|].
      * destruct IH as (c' & Hrun & Hk & Htr & Hlast & Hcl & Hw).
        exists c'. split; [exact Hrun|]. split; [lia|].
        repeat split; try assumption.
        rewrite Htr. cbn [invoking state_transitions c1 firstn].
        now rewrite <- app_assoc.
      * destruct IH as (c' & Hrun & Htr & Hcl & Hw).
        exists c'. split; [exact Hrun|]. repeat split; try assumption.
        rewrite Htr. cbn [invoking state_transitions c1].
        now rewrite <- app_assoc.
    + exists (invoking (repeat step k) c1). split; [reflexivity|].
      split; [lia|]. repeat split. cbn. apply last_snoc.
    + exists (invoking (repeat step k) c1). split; [reflexivity|].
      split; [lia|]. repeat split. cbn. apply last_snoc.
Qed.

(** The [n]-th invocation of a retried step raises [e] for good: every
    earlier invocation raised an exception after which the loop went on,
    and after this one it does not. *)
Definition fatal_at (w : World) (step : Step) (n : nat) (e : exn) : Prop :=
  step_outcome w step n = Raises e
  /\ pause_interrupted w step n = false
  /\ final w e (Z.of_nat n) = true
  /\ forall i, i < n ->
       exists e', step_outcome w step i = Raises e'
                  /\ pause_interrupted w step i = false
                  /\ final w e' (Z.of_nat i) = false.

Lemma attempts_from_raises (w : World) (op : Step) (e : exn) (fuel : nat) :
  forall n k,
    attempts_from w op fuel (Z.of_nat n) n = Some (Raises e, k) ->
    1 <= k
    /\ step_outcome w op (n + k - 1) = Raises e
    /\ pause_interrupted w op (n + k - 1) = false
    /\ final w e (Z.of_nat (n + k - 1)) = true
    /\ forall i, n <= i < n + k - 1 ->
         exists e', step_outcome w op i = Raises e'
                    /\ pause_interrupted w op i = false
                    /\ final w e' (Z.of_nat i) = false.
Proof.
  induction fuel as [|fuel IH]; intros n k; [discriminate|].
  cbn [attempts_from].
  destruct (step_outcome w op n) as [[]|e0|] eqn:Hout; try discriminate.
  destruct (pause_interrupted w op n) eqn:Hpause; [discriminate|].
  destruct (final w e0 (Z.of_nat n)) eqn:Hfinal.
  - intros [= -> <-]. replace (n + 1 - 1) with n by lia.
    repeat split; auto. intros i Hi. lia.
  - replace (Z.of_nat n + 1)%Z with (Z.of_nat (S n)) by lia.
    destruct (attempts_from w op fuel (Z.of_nat (S n)) (S n)) as [[o k']|] eqn:Hrec;
      [|discriminate].
    intros [= -> <-].
    destruct (IH (S n) k' Hrec) as (Hk & Ho & Hp & Hf & Hbefore).
    replace (n + S k' - 1) with (S n + k' - 1) by lia.
    split; [lia|]. split; [exact Ho|]. split; [exact Hp|]. split; [exact Hf|].
    intros i Hi. destruct (Nat.eq_dec i n) as [->|Hne]; [eauto|].
    apply Hbefore. lia.
Qed.

Lemma attempts_from_fatal (w : World) (op : Step) (e : exn) (fuel : nat) :
  forall n m,
    n <= m -> m - n < fuel ->
    step_outcome w op m = Raises e ->
    pause_interrupted w op m = false ->
    final w e (Z.of_nat m) = true ->
    (forall i, n <= i < m ->
       exists e', step_outcome w op i = Raises e'
                  /\ pause_interrupted w op i = false
                  /\ final w e' (Z.of_nat i) = false) ->
    attempts_from w op fuel (Z.of_nat n) n = Some (Raises e, S (m - n)).
Proof.
  induction fuel as [|fuel IH]; intros n m Hle Hfuel Ho Hp Hf Hbefore; [lia|].
  cbn [attempts_from].
  destruct (Nat.eq_dec n m) as [->|Hne].
  - rewrite Ho, Hp, Hf, Nat.sub_diag. reflexivity.
  - destruct (Hbefore n) as (e' & Ho' & Hp' & Hf'); [lia|].
    rewrite Ho', Hp', Hf'.
    replace (Z.of_nat n + 1)%Z with (Z.of_nat (S n)) by lia.
    rewrite (IH (S n) m); try assumption; try lia.
    + replace (S (m - S n)) with (m - n) by lia. reflexivity.
    + intros i Hi. apply Hbefore. lia.
Qed.

Lemma final_false_lt_4 (w : World) (e : exn) (i : nat) :
  final w e (Z.of_nat i) = false -> i < 4.
Proof.
  unfold final. intros H. apply orb_false_iff in H as [_ Hge].
  pose proof (resolve_max_attempts_le_5 (config_max_retries w) e) as Hcap.
  fold (cap w e) in Hcap. rewrite Z.geb_leb in Hge. apply Z.leb_gt in Hge. lia.
Qed.

Lemma step_fate_retried (w : World) (step : Step) (e : exn) :
  step_fate w true step = Raises e <-> exists n, fatal_at w step n e.
Proof.
  unfold step_fate. cbn [run_step].
  destruct (retry_with_backoff_attempts w step initial_context)
    as (o & k & H & _ & ->).
  change (invoked step initial_context) with 0 in H. cbn [fst].
  split.
  - intros ->. apply (attempts_from_raises w step e retry_fuel 0 k) in H
      as (Hk & Ho & Hp & Hf & Hbefore).
    exists (0 + k - 1). repeat split; auto.
    intros i Hi. apply Hbefore. lia.
  - intros (n & Ho & Hp & Hf & Hbefore).
    assert (Hn : n < 5).
    { destruct n as [|n]; [lia|].
      destruct (Hbefore n) as (e' & _ & _ & Hf'); [lia|].
      apply final_false_lt_4 in Hf'. lia. }
    assert (H' : attempts_from w step retry_fuel (Z.of_nat 0) 0
                 = Some (Raises e, S (n - 0))).
    { apply attempts_from_fatal; try assumption; try lia.
      - unfold retry_fuel. lia.
      - intros i Hi. apply Hbefore. lia. }
    change (Z.of_nat 0) with 0%Z in H'. rewrite H' in H.
    now injection H as <- _.
Qed.

(** How often a state occurs among the transitions of a run. *)
Definition times_entered (state : OrchestrationState)
    (transitions : list OrchestrationState) : nat :=
  count_occ OrchestrationState_eq_dec transitions state.

(** The result [orchestrate] builds. *)
Definition report (ok : bool) (message : option string)
    (final : OrchestrationState) (transitions : list OrchestrationState)
  : OrchestrationResult :=
  {| success := ok; error_message := message; final_state := final;
     result_transitions := transitions; token_validated := ok;
     token_saved := ok; token_tested := ok |}.

Lemma plan_steps_distinct : NoDup (map snd plan).
Proof. apply (bool_decide_unpack _). vm_compute. exact I. Qed.

(** A world in which every call returns, except what [fails] tells. *)
Definition world_where (fails : Step -> nat -> Outcome unit) : World :=
  {| step_outcome := fails;
     pause_interrupted := fun _ _ => false;
     teardown_outcome := fun _ => Returns tt;
     config_max_retries := IntValue 3 |}.

(** A world whose authentication check fails with a non-retryable error. *)
Definition unauthenticated_world : World :=
  world_where
    (fun step _ =>
       match step with
       | _check_auth_status =>
           Raises (RuntimeError "Not authenticated: session missing (confidence: 0%)")
       | _ => Returns tt
       end).

(** C5, as stated, fails: in a run whose authentication check raises, the
    states entered are CHECK_AUTH and ERROR; CLEANUP is never entered,
    although the cleanup routine ran. *)
Lemma orchestrate_failure_skips_cleanup_state :
  (orchestrate unauthenticated_world).1
  = Returns
      (report false
         (Some "Orchestration failed: Not authenticated: session missing (confidence: 0%)")
         ERROR [CHECK_AUTH; ERROR])
  /\ times_entered CLEANUP (state_transitions (orchestrate unauthenticated_world).2)
     = 0
  /\ cleanup_runs (orchestrate unauthenticated_world).2 = 1.
Proof. vm_compute. repeat split; reflexivity. Qed.

(** C5, amended.  A run goes through the step states in order and stops at
    the first step that does not return ([first_stop]).
    - If every step returns, the run enters CLEANUP, runs the cleanup
      routine and enters COMPLETE: the result is a success whose
      transitions are the ten step states, CLEANUP and COMPLETE.
    - If the step at position [k] ends with an exception [e], the run
      enters ERROR, which is its final state, and runs the cleanup routine
      without entering CLEANUP: the result is a failure with the message of
      [e], whose transitions are the first [k + 1] step states and ERROR.
    - If a step is interrupted (cancelled), the run is interrupted: it
      enters neither ERROR nor CLEANUP and does not run the cleanup
      routine.
    In the first two cases the cleanup routine runs exactly once; when its
    teardown is interrupted, so is the run, after that one cleanup.
    A step that is not retried ends as its one invocation does.  A retried
    step ends with an exception exactly when one of its invocations raises
    it for good ([fatal_at]): the strategy of the exception is not
    retryable, or the retry cap is zero or reached; an exception after
    which the loop goes on does not end the step. *)
Theorem orchestrate_error_and_cleanup (w : World) :
  match first_stop w plan with
  | None =>
      match teardown_outcome w 0 with
      | Interrupted =>
          (orchestrate w).1 = Interrupted
          /\ state_transitions (orchestrate w).2 = step_states ++ [CLEANUP]
      | _ =>
          (orchestrate w).1
          = Returns (report true None COMPLETE
                       (step_states ++ [CLEANUP; COMPLETE]))
          /\ state_transitions (orchestrate w).2
             = step_states ++ [CLEANUP; COMPLETE]
      end
      /\ cleanup_runs (orchestrate w).2 = 1
  | Some (k, Some e) =>
      k < 10
      /\ match teardown_outcome w 0 with
         | Interrupted => (orchestrate w).1 = Interrupted
         | _ =>
             (orchestrate w).1
             = Returns (report false
                          (Some ("Orchestration failed: " +:+ exn_str e))
                          ERROR (firstn (S k) step_states ++ [ERROR]))
         end
      /\ state_transitions (orchestrate w).2
         = firstn (S k) step_states ++ [ERROR]
      /\ times_entered CLEANUP (state_transitions (orchestrate w).2) = 0
      /\ cleanup_runs (orchestrate w).2 = 1
  | Some (k, None) =>
      k < 10
      /\ (orchestrate w).1 = Interrupted
      /\ state_transitions (orchestrate w).2 = firstn (S k) step_states
      /\ cleanup_runs (orchestrate w).2 = 0
  end
  /\ (forall step, step_fate w false step = step_outcome w step 0)
  /\ (forall step e,
        step_fate w true step = Raises e <-> exists n, fatal_at w step n e).
Proof.
  split; [|split; [reflexivity|apply step_fate_retried]].
  pose proof (run_plan_spec w plan (closing w) plan_steps_distinct
                initial_context (fun p _ => eq_refl)) as H.
  unfold orchestrate. rewrite workflow_run_plan.
  change (map (fun p => p.1.1) plan) with step_states in H.
  change (length plan) with 10 in H.
  destruct (first_stop w plan) as [[k [e|]]|].
  - destruct H as (c' & -> & Hk & Htr & Hlast & Hcl & Hw).
    cbn [initial_context state_transitions cleanup_runs app] in Htr, Hcl.
    split; [exact Hk|].
    unfold bind, try_except, ret, _transition_state, _cleanup.
    cbn [cleanup_runs state_transitions current_state]. rewrite Hcl, Htr.
    assert (Hcount : times_entered CLEANUP (firstn (S k) step_states ++ [ERROR]) = 0).
    { assert (Hcases : k = 0 \/ k = 1 \/ k = 2 \/ k = 3 \/ k = 4 \/ k = 5
                       \/ k = 6 \/ k = 7 \/ k = 8 \/ k = 9) by lia.
      destruct Hcases as [->|[->|[->|[->|[->|[->|[->|[->|[->| ->]]]]]]]]];
        reflexivity. }
    destruct (teardown_outcome w 0) as [[]|e'|];
      cbn [fst snd state_transitions cleanup_runs]; auto.
  - destruct H as (c' & -> & Hk & Htr & Hlast & Hcl & Hw).
    cbn [initial_context state_transitions cleanup_runs app] in Htr, Hcl.
    cbn [fst snd]. auto.
  - destruct H as (c' & -> & Htr & Hcl & Hw).
    cbn [initial_context state_transitions cleanup_runs app] in Htr, Hcl.
    unfold closing, bind, _transition_state, _cleanup.
    cbn [cleanup_runs state_transitions current_state]. rewrite Hcl, Htr.
    destruct (teardown_outcome w 0) as [[]|e'|];
      cbn [fst snd state_transitions cleanup_runs]; rewrite <- ?app_assoc;
      auto.
Qed.

(** A world in which the first load of the page times out and the second
    succeeds. *)
Definition flaky_nav_world : World :=
  world_where
    (fun step n =>
       match step, n with
       | _navigate_to_page, 0 => Raises (RuntimeError "Timeout 30000ms exceeded.")
       | _, _ => Returns tt
       end).

(** A world in which the run is cancelled while the form is filled. *)
Definition cancelled_world : World :=
  world_where
    (fun step _ =>
       match step with
       | _fill_account_form => Interrupted
       | _ => Returns tt
       end).

(** C5 at three worlds: an exception absorbed by a retry does not end the
    run; a failed authentication check ends it in ERROR after one cleanup;
    a cancelled run enters neither ERROR nor CLEANUP. *)
Lemma orchestrate_error_and_cleanup_witness :
  ((orchestrate flaky_nav_world).1
   = Returns (report true None COMPLETE (step_states ++ [CLEANUP; COMPLETE]))
   /\ state_transitions (orchestrate flaky_nav_world).2
      = step_states ++ [CLEANUP; COMPLETE])
  /\ ((orchestrate unauthenticated_world).1
      = Returns
          (report false
             (Some "Orchestration failed: Not authenticated: session missing (confidence: 0%)")
             ERROR [CHECK_AUTH; ERROR])
      /\ cleanup_runs (orchestrate unauthenticated_world).2 = 1)
  /\ ((orchestrate cancelled_world).1 = Interrupted
      /\ state_transitions (orchestrate cancelled_world).2
         = [CHECK_AUTH; SESSION_INIT; BROWSER_OPEN; NAVIGATE; FILL_FORM]
      /\ cleanup_runs (orchestrate cancelled_world).2 = 0).
Proof.
  split; [|split].
  - exact (proj1 (proj1 (orchestrate_error_and_cleanup flaky_nav_world))).
  - destruct (proj1 (orchestrate_error_and_cleanup unauthenticated_world))
      as (_ & Hr & _ & _ & Hc).
    split; [exact Hr|exact Hc].
  - exact (proj2 (proj1 (orchestrate_error_and_cleanup cancelled_world))).
Defined.

End OrchestratorFacts.

(** ** Token extraction with fallbacks (sparc_phase4_browser_automation) *)

Section BrowserFacts.
Import Browser.

Definition is_css_selector (selector : string) : bool :=
  existsb (String.eqb selector) css_selectors.

(** The extraction method an event belongs to: 1 for the CSS lookup, 2 for
    the clipboard, 3 for the page text, 4 for the debugging screenshot.
    Printed lines belong to no method. *)
Definition method_of (ev : Event) : option nat :=
  match ev with
  | WaitForSelector selector => if is_css_selector selector then Some 1 else Some 2
  | TextContent _ => Some 1
  | Click _ => Some 2
  | ReadClipboard _ => Some 2
  | BodyText => Some 3
  | Screenshot _ => Some 4
  | Print _ => None
  end.

Definition methods (evs : list Event) : list nat := omap method_of evs.

Lemma methods_app (evs1 evs2 : list Event) :
  methods (evs1 ++ evs2) = methods evs1 ++ methods evs2.
Proof. apply omap_app. Qed.

Lemma first_round_value {A} (round : string -> Traced (option A))
    (selectors : list string) (a : A) :
  (first_round round selectors).1 = Some a ->
  exists selector, In selector selectors /\ (round selector).1 = Some a.
Proof.
  induction selectors as [|selector rest IH]; cbn [first_round]; [discriminate|].
  destruct (round selector) as [[a'|] evs] eqn:Hround.
  - cbn. intros [= ->]. exists selector. rewrite Hround. split; [now left|reflexivity].
  - destruct (first_round round rest) as [r evs']. cbn [fst] in *.
    intros H. destruct (IH H) as (sel & Hin & Hsel). exists sel. split; [now right|exact Hsel].
Qed.

Lemma first_round_methods {A} (round : string -> Traced (option A))
    (selectors : list string) (n : nat) :
  (forall selector, In selector selectors ->
                    Forall (eq n) (methods (round selector).2)) ->
  Forall (eq n) (methods (first_round round selectors).2).
Proof.
  induction selectors as [|selector rest IH]; intros H; cbn [first_round].
  - constructor.
  - pose proof (H selector (or_introl eq_refl)) as Hsel.
    destruct (round selector) as [[a'|] evs]; cbn [snd] in *; [exact Hsel|].
    assert (Hrest : Forall (eq n) (methods (first_round round rest).2))
      by (apply IH; intros sel Hin; apply H; now right).
    destruct (first_round round rest) as [r evs']. cbn [snd] in *.
    rewrite methods_app. apply Forall_app. split; assumption.
Qed.

Lemma css_round_methods (page : Page) (selector : string) :
  In selector css_selectors ->
  Forall (eq 1) (methods (css_round page selector).2).
Proof.
  intros Hin. unfold css_round.
  destruct Hin as [<-|[<-|[<-|[<-|[<-|[]]]]]];
    (destruct (wait_for_selector page _) as [[]|];
     [destruct (text_content page _) as [[token|]|];
      [destruct (validate_token_format (Some (strip token)))|..]|..]);
    cbn; repeat constructor.
Qed.

Lemma clipboard_round_methods (page : Page) (selector : string) :
  In selector copy_button_selectors ->
  Forall (eq 2) (methods (clipboard_round page selector).2).
Proof.
  intros Hin. unfold clipboard_round.
  destruct Hin as [<-|[<-|[<-|[]]]];
    (destruct (wait_for_selector page _) as [[]|];
     [destruct (click page _) as [[]|];
      [destruct (read_clipboard page _) as [clipboard_text|];
       [destruct (validate_token_format clipboard_text)|]|]|..]);
    cbn; repeat constructor.
Qed.

Lemma page_text_methods (page : Page) :
  Forall (eq 3) (methods (extract_token_via_page_text page).2).
Proof.
  unfold extract_token_via_page_text.
  destruct (body_text page) as [[page_text|]|];
    [destruct (first_bounded_match page_text) as [token|];
     [destruct (validate_token_format (Some token))|]|..];
    cbn; repeat constructor.
Qed.

Lemma validated_truthy (token : option string) :
  validate_token_format token = true -> opt_truthy token = true.
Proof.
  destruct token as [[|a t]|]; [discriminate|reflexivity|discriminate].
Qed.

Lemma css_round_valid (page : Page) (selector token : string) :
  (css_round page selector).1 = Some token ->
  validate_token_format (Some token) = true.
Proof.
  unfold css_round.
  destruct (wait_for_selector page selector) as [[]|]; try discriminate.
  destruct (text_content page selector) as [[t|]|]; try discriminate.
  destruct (validate_token_format (Some (strip t))) eqn:Hv; [|discriminate].
  now intros [= <-].
Qed.

Lemma clipboard_round_valid (page : Page) (selector token : string) :
  (clipboard_round page selector).1 = Some token ->
  validate_token_format (Some token) = true.
Proof.
  unfold clipboard_round.
  destruct (wait_for_selector page selector) as [[]|]; try discriminate.
  destruct (click page selector) as [[]|]; try discriminate.
  destruct (read_clipboard page selector) as [clipboard_text|]; try discriminate.
  destruct (validate_token_format clipboard_text) eqn:Hv; [|discriminate].
  cbn. now intros ->.
Qed.

Lemma page_text_valid (page : Page) (token : string) :
  (extract_token_via_page_text page).1 = Some token ->
  validate_token_format (Some token) = true.
Proof.
  unfold extract_token_via_page_text.
  destruct (body_text page) as [[page_text|]|]; try discriminate.
  destruct (first_bounded_match page_text) as [t|]; try discriminate.
  destruct (validate_token_format (Some t)) eqn:Hv; [|discriminate].
  now intros [= <-].
Qed.

Lemma css_valid (page : Page) (token : string) :
  (extract_token_via_css page).1 = Some token ->
  validate_token_format (Some token) = true.
Proof.
  intros H. apply first_round_value in H as (sel & _ & H).
  eapply css_round_valid; eauto.
Qed.

Lemma clipboard_valid (page : Page) (token : string) :
  (extract_token_via_clipboard page).1 = Some token ->
  validate_token_format (Some token) = true.
Proof.
  intros H. apply first_round_value in H as (sel & _ & H).
  eapply clipboard_round_valid; eauto.
Qed.

Lemma same_method_sorted (n : nat) (l : list nat) :
  Forall (eq n) l -> StronglySorted le l.
Proof.
  induction 1 as [|x l <- Hall IH]; constructor; [exact IH|].
  eapply Forall_impl; [exact Hall|]. intros ? <-. constructor.
Qed.

Lemma method_blocks_sorted (l1 l2 l3 l4 : list nat) :
  Forall (eq 1) l1 -> Forall (eq 2) l2 -> Forall (eq 3) l3 -> Forall (eq 4) l4 ->
  StronglySorted le (l1 ++ l2 ++ l3 ++ l4).
Proof.
  intros H1 H2 H3 H4.
  pose proof (same_method_sorted _ _ H1). pose proof (same_method_sorted _ _ H2).
  pose proof (same_method_sorted _ _ H3). pose proof (same_method_sorted _ _ H4).
  rewrite Forall_forall in H1, H2, H3, H4.
  rewrite !StronglySorted_app. repeat split; try assumption;
    intros x1 x2 Hx1 Hx2; rewrite ?elem_of_app in Hx2;
    repeat match goal with
           | H : _ \/ _ |- _ => destruct H
           | H : forall x, x ∈ ?l -> _, Hx : ?y ∈ ?l |- _ =>
               apply H in Hx; subst
           end; lia.
Qed.

(** A page on which nothing is found: every selector times out and the
    body holds no token. *)
Definition page_without_token : Page :=
  {| wait_for_selector :=
       fun _ => Raise {| exn_class := TimeoutError; exn_errno := None;
                         exn_str := "Timeout 2000ms exceeded." |};
     text_content := fun _ => Ok None;
     click := fun _ => Ok tt;
     read_clipboard := fun _ => Ok None;
     body_text := Ok (Some "Create service account");
     screenshot := fun _ => Ok tt |}.

Definition printed (evs : list Event) : list string :=
  omap (fun ev => match ev with Print line => Some line | _ => None end) evs.

(** C6, as stated, fails in its last part: when every method fails the
    function returns [None] and the lines it prints are the three clipboard
    failures and one fixed message; the number of methods is nowhere. *)
Lemma extract_token_reports_no_count :
  (extract_token page_without_token).1 = Ok None
  /\ printed (extract_token page_without_token).2
     = ["Clipboard extraction failed for button:has-text('Copy'): Timeout 2000ms exceeded.";
        "Clipboard extraction failed for [data-testid='copy-token']: Timeout 2000ms exceeded.";
        "Clipboard extraction failed for [aria-label='Copy token']: Timeout 2000ms exceeded.";
        "ERROR: All token extraction methods failed"]
  /\ forallb (fun line => negb (contains "3" line))
       (printed (extract_token page_without_token).2) = true.
Proof. vm_compute. repeat split; reflexivity. Qed.

(** C6, amended: [extract_token] runs the CSS lookup, then the clipboard
    read, then the page-text scan, in that order (the events of a run are
    sorted by method), returns the value of the first method that gives a
    token, without touching the page for a later method, and every token it
    returns passes the module's format validation.  When all three give
    nothing it prints a fixed message, takes a debugging screenshot and
    returns [None] (or raises what the screenshot raised). *)
Theorem extract_token_fallback_order (page : Page) :
  StronglySorted le (methods (extract_token page).2)
  /\ match (extract_token page).1 with
     | Ok (Some token) => validate_token_format (Some token) = true
     | _ => True
     end
  /\ match (extract_token_via_css page).1,
           (extract_token_via_clipboard page).1,
           (extract_token_via_page_text page).1 with
     | Some token, _, _ =>
         extract_token page = (Ok (Some token), (extract_token_via_css page).2)
     | None, Some token, _ =>
         extract_token page
         = (Ok (Some token),
            (extract_token_via_css page).2
            ++ (extract_token_via_clipboard page).2)
     | None, None, Some token =>
         extract_token page
         = (Ok (Some token),
            (extract_token_via_css page).2
            ++ (extract_token_via_clipboard page).2
            ++ (extract_token_via_page_text page).2)
     | None, None, None =>
         extract_token page
         = (match screenshot page screenshot_path with
            | Ok _ => Ok None
            | Raise e => Raise e
            end,
            (extract_token_via_css page).2
            ++ (extract_token_via_clipboard page).2
            ++ (extract_token_via_page_text page).2
            ++ [Print "ERROR: All token extraction methods failed";
                Screenshot screenshot_path])
     end.
Proof.
  pose proof (first_round_methods (css_round page) css_selectors 1
                (css_round_methods page)) as M1.
  pose proof (first_round_methods (clipboard_round page) copy_button_selectors 2
                (clipboard_round_methods page)) as M2.
  pose proof (page_text_methods page) as M3.
  pose proof (css_valid page) as V1.
  pose proof (clipboard_valid page) as V2.
  pose proof (page_text_valid page) as V3.
  fold (extract_token_via_css page) in M1.
  fold (extract_token_via_clipboard page) in M2.
  unfold extract_token.
  destruct (extract_token_via_css page) as [[t1|] evs1]; cbn [fst snd] in *.
  { rewrite (validated_truthy _ (V1 _ eq_refl)). cbn [fst snd].
    repeat split; [|now apply V1].
    rewrite <- (app_nil_r evs1), methods_app.
    apply (method_blocks_sorted _ [] [] []); auto. }
  cbn [opt_truthy].
  destruct (extract_token_via_clipboard page) as [[t2|] evs2]; cbn [fst snd] in *.
  { rewrite (validated_truthy _ (V2 _ eq_refl)). cbn [fst snd].
    repeat split; [|now apply V2].
    rewrite methods_app, <- (app_nil_r (methods evs2)).
    apply (method_blocks_sorted _ _ [] []); auto. }
  cbn [opt_truthy].
  destruct (extract_token_via_page_text page) as [[t3|] evs3]; cbn [fst snd] in *.
  { rewrite (validated_truthy _ (V3 _ eq_refl)). cbn [fst snd].
    repeat split; [|now apply V3].
    rewrite !methods_app, <- (app_nil_r (methods evs3)).
    apply (method_blocks_sorted _ _ _ []); auto. }
  cbn [opt_truthy].
  destruct (screenshot page screenshot_path) as [[]|e]; cbn [fst snd];
    repeat split;
    rewrite !methods_app; apply method_blocks_sorted; auto;
    cbn; repeat constructor.
Qed.

End BrowserFacts.

(** ** Session teardown (sparc_phase4_session_manager) *)

Section SessionFacts.
Import Session.

Definition no_session : SessionManager :=
  {| browser := None; context := None; page := None; playwright := None |}.

Definition releases (evs : list Event) : list Resource :=
  omap (fun ev => match ev with Released h => Some (resource h) | _ => None end) evs.

Definition healthy (r : Resource) : Handle :=
  {| resource := r; close_outcome := None |}.

Definition failing (r : Resource) (message : string) : Handle :=
  {| resource := r; close_outcome := Some (RuntimeError message) |}.

(** A live session whose four objects all close without error. *)
Definition healthy_session : SessionManager :=
  {| browser := Some (healthy TheBrowser); context := Some (healthy TheContext);
     page := Some (healthy ThePage); playwright := Some (healthy ThePlaywright) |}.

(** A live session whose page fails to close; context, browser and engine
    would close without error. *)
Definition session_with_failing_page : SessionManager :=
  {| browser := Some (healthy TheBrowser); context := Some (healthy TheContext);
     page := Some (failing ThePage "Target page, context or browser has been closed");
     playwright := Some (healthy ThePlaywright) |}.

(** [close_session] never raises and always leaves the four fields
    [None]. *)
Lemma close_session_never_raises (self : SessionManager) (evs : list Event) :
  exists evs',
    close_session (self, evs) = (Ok tt, (no_session, evs ++ evs')).
Proof.
  destruct self as [b c p pw]. unfold close_session, close_field, bind, try_except,
    log, get_self, set_self, release, ret.
  cbn [fst snd browser context page playwright].
  destruct p as [[rp [ep|]]|], c as [[rc [ec|]]|], b as [[rb [eb|]]|],
    pw as [[rpw [epw|]]|];
    cbn [close_outcome clear_page clear_context clear_browser clear_playwright
         clear_all fst snd browser context page playwright];
    rewrite <- ?app_assoc; eexists; reflexivity.
Qed.

(** A second call finds nothing to release. *)
Lemma close_session_idempotent (self : SessionManager) (evs : list Event) :
  let st := (close_session (self, evs)).2 in
  close_session st
  = (Ok tt, (no_session,
             st.2 ++ [Log INFO "Closing browser session...";
                      Log INFO "Browser session closed successfully"])).
Proof.
  destruct (close_session_never_raises self evs) as [evs' ->].
  cbn. now rewrite <- !app_assoc.
Qed.

(** Without a failure the four objects are released in the order page,
    context, browser, engine. *)
Lemma close_session_healthy_order :
  releases (close_session (healthy_session, [])).2.2
  = [ThePage; TheContext; TheBrowser; ThePlaywright].
Proof. reflexivity. Qed.

(** Whatever else the session holds, a page whose [close()] raises ends
    the teardown: nothing is released. *)
Lemma close_session_page_failure_releases_nothing
    (self : SessionManager) (h : Handle) (e : exn) :
  page self = Some h -> close_outcome h = Some e ->
  releases (close_session (self, [])).2.2 = [].
Proof.
  destruct self as [b c p pw]. cbn [page]. intros -> He.
  unfold close_session, close_field, bind, try_except, log, get_self,
    set_self, release, ret.
  cbn [fst snd page]. rewrite He. reflexivity.
Qed.

(** C8 against the code: when the page fails to close, the failure is
    logged and not raised, but no other release step runs: the context, the
    browser and the engine are dropped from the manager without having been
    closed. *)
Theorem close_session_stops_at_first_failure :
  close_session (session_with_failing_page, [])
  = (Ok tt,
     (no_session,
      [Log INFO "Closing browser session...";
       ReleaseFailed (failing ThePage "Target page, context or browser has been closed");
       Log ERROR "Error during session cleanup: Target page, context or browser has been closed"]))
  /\ releases (close_session (session_with_failing_page, [])).2.2 = [].
Proof. split; reflexivity. Qed.

End SessionFacts.

(** ** Token persistence (sparc_phase4_cli_integration) *)

(** *** The text that is written *)

Lemma char_in_append (c : ascii) (s t : string) :
  char_in c (s +:+ t) = char_in c s || char_in c t.
Proof.
  induction s as [|a s IH]; [reflexivity|].
  rewrite append_cons. cbn [char_in]. now rewrite IH, orb_assoc.
Qed.

Lemma char_in_forallb (p : ascii -> bool) (c : ascii) (s : string) :
  forallb_str p s = true -> p c = false -> char_in c s = false.
Proof.
  intros Hs Hc. induction s as [|a s IH]; [reflexivity|].
  rewrite forallb_str_cons in Hs. apply andb_true_iff in Hs as [Ha Hs].
  cbn [char_in]. rewrite (IH Hs), orb_false_r.
  apply Ascii.eqb_neq. intros ->. congruence.
Qed.

Lemma is_valid_checks (token : string) :
  Cli.is_valid (Cli.validate_token_format token)
  = truthy token && startswith Cli.TOKEN_PREFIX token
    && (Cli.MIN_TOKEN_LENGTH <=? String.length token)
    && match Cli.first_invalid_char 0 token with None => true | _ => false end
    && Cli.TOKEN_PATTERN_match token.
Proof.
  unfold Cli.validate_token_format.
  destruct (truthy token);
    destruct (startswith Cli.TOKEN_PREFIX token);
    destruct (Cli.MIN_TOKEN_LENGTH <=? String.length token);
    destruct (Cli.first_invalid_char 0 token) as [[c i]|];
    destruct (Cli.TOKEN_PATTERN_match token); reflexivity.
Qed.

(** A valid token is not empty and made of class characters. *)
Lemma valid_token_chars (token : string) :
  Cli.is_valid (Cli.validate_token_format token) = true ->
  truthy token = true /\ forallb_str token_class token = true.
Proof.
  rewrite is_valid_checks, !andb_true_iff.
  intros [[[[Ht _] _] Hfirst] _]. split; [exact Ht|].
  rewrite <- (forallb_str_ext allowed) by (intros c; apply allowed_chars_token_class).
  destruct (forallb_str allowed token) eqn:H; [reflexivity|].
  destruct (first_invalid_char_some 0 token H) as (c & k & Hf & _).
  rewrite Hf in Hfirst. discriminate.
Qed.

(** The template without an escape: every character a literal. *)
Fixpoint literal (s : string) : list Cli.Piece :=
  match s with
  | EmptyString => []
  | String c s' => Cli.Literal c :: literal s'
  end.

Lemma expand_literal (s matched : string) : Cli.expand (literal s) matched = s.
Proof. induction s as [|c s IH]; [reflexivity|]. cbn. now rewrite IH. Qed.

Lemma parse_template_literal (group_zero : string -> bool) (s : string) :
  char_in Cli.BACKSLASH s = false ->
  Cli.parse_template group_zero s = Some (literal s).
Proof.
  unfold Cli.parse_template. induction s as [|c s IH]; [reflexivity|].
  cbn [char_in]. intros H. apply orb_false_iff in H as [Hc Hs].
  cbn [Cli.parse_template_go Cli.template_item literal].
  rewrite Ascii.eqb_sym in Hc. rewrite Hc. cbn [negb Nat.sub].
  now rewrite (IH Hs).
Qed.

Lemma startswith_append (p s : string) : startswith p (p +:+ s) = true.
Proof.
  induction p as [|a p IH]; [reflexivity|].
  rewrite append_cons. cbn [startswith]. now rewrite Ascii.eqb_refl.
Qed.

Lemma append_assoc (a b c : string) : (a +:+ b) +:+ c = a +:+ b +:+ c.
Proof.
  induction a as [|x a IH]; [reflexivity|]. rewrite !append_cons. now rewrite IH.
Qed.

Lemma startswith_iff (p s : string) :
  startswith p s = true <-> exists rest, s = p +:+ rest.
Proof.
  rewrite startswith_strip_prefix. split; intros [rest H]; exists rest;
    now apply strip_prefix_append.
Qed.

Lemma contains_iff (needle hay : string) :
  contains needle hay = true <-> exists pre post, hay = pre +:+ needle +:+ post.
Proof.
  induction hay as [|a hay IH].
  - cbn [contains]. rewrite orb_false_r, startswith_iff. split.
    + intros [rest H]. exists EmptyString, rest. exact H.
    + intros (pre & post & H). destruct pre; [exists post; exact H|discriminate].
  - rewrite contains_cons, orb_true_iff, startswith_iff, IH. split.
    + intros [[rest H]|(pre & post & H)].
      * exists EmptyString, rest. exact H.
      * exists (String a pre), post. rewrite append_cons. now f_equal.
    + intros (pre & post & H). destruct pre as [|b pre].
      * left. exists post. exact H.
      * right. rewrite append_cons in H. injection H as _ H.
        exists pre, post. exact H.
Qed.

Lemma contains_startswith (p s : string) :
  startswith p s = true -> contains p s = true.
Proof. intros H. destruct s; cbn [contains]; now rewrite H. Qed.

Lemma contains_append (needle a b c : string) :
  contains needle b = true -> contains needle (a +:+ b +:+ c) = true.
Proof.
  rewrite !contains_iff. intros (pre & post & ->).
  exists (a +:+ pre), (post +:+ c). now rewrite !append_assoc.
Qed.

Lemma contains_append_r (needle pre s : string) :
  contains needle s = true -> contains needle (pre +:+ s) = true.
Proof.
  intros H. rewrite <- (append_nil_r s). now apply contains_append.
Qed.

Lemma contains_append_l (needle s post : string) :
  contains needle s = true -> contains needle (s +:+ post) = true.
Proof. intros H. now apply (contains_append needle EmptyString s post). Qed.

Lemma contains_trans (a b c : string) :
  contains a b = true -> contains b c = true -> contains a c = true.
Proof.
  rewrite !contains_iff. intros (p1 & q1 & ->) (p2 & q2 & ->).
  exists (p2 +:+ p1), (q1 +:+ q2). now rewrite !append_assoc.
Qed.

(** Where the pattern is found, the substitution puts the expansion of the
    template: a template without escapes is found in the result. *)
Lemma export_sub_contains (name line : string) (bol : bool) (content : string) :
  Cli.export_search_go name bol content = true ->
  contains line (Cli.export_sub_go name (literal line) 0 bol content) = true.
Proof.
  revert bol. induction content as [|c rest IH]; intros bol.
  - cbn [Cli.export_search_go]. rewrite orb_false_r.
    unfold Cli.export_prefix. destruct bol; discriminate.
  - cbn [Cli.export_search_go Cli.export_sub_go].
    unfold Cli.export_match_here.
    destruct bol; cbn [andb orb].
    + destruct (strip_prefix (Cli.export_prefix name) (String c rest))
        as [after|] eqn:Hs.
      * intros _. destruct (span Cli.not_newline after) as [line_rest tail].
        rewrite expand_literal. apply contains_startswith, startswith_append.
      * assert (Hsw : startswith (Cli.export_prefix name) (String c rest) = false).
        { destruct (startswith _ _) eqn:H; [|reflexivity].
          apply startswith_strip_prefix in H as [r Hr]. congruence. }
        rewrite Hsw. cbn [orb]. intros H. rewrite contains_cons, (IH _ H).
        apply orb_true_r.
    + intros H. rewrite contains_cons, (IH _ H). apply orb_true_r.
Qed.

Section ProfileText.
Variable env : FS.Env.

Definition export_line (token name : string) : string :=
  "export " +:+ name +:+ "=" +:+ DQUOTE +:+ token +:+ DQUOTE.

(** With a valid token and a variable name without a backslash the
    template is well formed: the new profile text exists and holds the
    token. *)
Lemma update_profile_text_ok (token name timestamp content : string) :
  Cli.is_valid (Cli.validate_token_format token) = true ->
  char_in Cli.BACKSLASH name = false ->
  exists text,
    Cli.update_profile_text env token name timestamp content = Ok text
    /\ contains token text = true.
Proof.
  intros Hv Hname. destruct (valid_token_chars token Hv) as [_ Hcls].
  assert (Htok : char_in Cli.BACKSLASH token = false)
    by (apply (char_in_forallb token_class); [exact Hcls|reflexivity]).
  assert (Hline : char_in Cli.BACKSLASH (export_line token name) = false).
  { unfold export_line. rewrite !char_in_append, Hname, Htok. reflexivity. }
  assert (Hin : contains token (export_line token name) = true).
  { unfold export_line.
    apply (contains_append_r token "export "), contains_append_r,
      (contains_append_r token "="), (contains_append_r token DQUOTE),
      contains_startswith, startswith_append. }
  unfold Cli.update_profile_text. fold (export_line token name).
  destruct (Cli.export_pattern_search name content) eqn:Hsearch.
  - rewrite (parse_template_literal _ _ Hline). eexists. split; [reflexivity|].
    unfold Cli.export_pattern_sub.
    pose proof (export_sub_contains name (export_line token name) true content
                  Hsearch) as H.
    exact (contains_trans _ _ _ Hin H).
  - eexists. split; [reflexivity|].
    apply contains_append_r, contains_append_r, contains_append_l. exact Hin.
Qed.

End ProfileText.

(** *** Text-mode reading *)

Definition CR : ascii := "013"%char.
Definition LF : ascii := "010"%char.

Lemma universal_newlines_cons (c : ascii) (s : string) :
  universal_newlines (String c s)
  = if Ascii.eqb c CR then
      match s with
      | String c' _ =>
          if Ascii.eqb c' LF then universal_newlines s
          else String LF (universal_newlines s)
      | EmptyString => String LF EmptyString
      end
    else String c (universal_newlines s).
Proof. reflexivity. Qed.

(** A text without carriage returns is read as it is. *)
Lemma universal_newlines_id (s : string) :
  char_in CR s = false -> universal_newlines s = s.
Proof.
  induction s as [|c s IH]; [reflexivity|].
  cbn [char_in]. intros H. apply orb_false_iff in H as [Hc Hs].
  rewrite universal_newlines_cons. rewrite Ascii.eqb_sym in Hc.
  now rewrite Hc, (IH Hs).
Qed.

Lemma universal_newlines_no_cr (s : string) :
  char_in CR (universal_newlines s) = false.
Proof.
  induction s as [|c s IH]; [reflexivity|].
  rewrite universal_newlines_cons.
  destruct (Ascii.eqb c CR) eqn:Hc.
  - destruct s as [|c' s']; [reflexivity|].
    destruct (Ascii.eqb c' LF); [exact IH|].
    cbn [char_in]. now rewrite IH.
  - cbn [char_in]. rewrite IH, orb_false_r.
    rewrite Ascii.eqb_sym. exact Hc.
Qed.

(** What was read once is read the same again. *)
Lemma universal_newlines_idem (s : string) :
  universal_newlines (universal_newlines s) = universal_newlines s.
Proof. apply universal_newlines_id, universal_newlines_no_cr. Qed.

(** Characters that are no line ending. *)
Definition plain (c : ascii) : bool := negb (Ascii.eqb c CR) && negb (Ascii.eqb c LF).

Lemma universal_newlines_plain (t post : string) :
  truthy t = true -> forallb_str plain t = true ->
  universal_newlines (t +:+ post) = t +:+ universal_newlines post.
Proof.
  induction t as [|c t IH]; [discriminate|]. intros _ Ht.
  rewrite forallb_str_cons in Ht. apply andb_true_iff in Ht as [Hc Ht].
  unfold plain in Hc. apply andb_true_iff in Hc as [Hcr _].
  apply negb_true_iff in Hcr.
  rewrite !append_cons, universal_newlines_cons, Hcr.
  destruct t as [|c' t']; [reflexivity|].
  now rewrite IH.
Qed.

Lemma universal_newlines_around (pre t post : string) :
  truthy t = true -> forallb_str plain t = true ->
  universal_newlines (pre +:+ t +:+ post)
  = universal_newlines pre +:+ t +:+ universal_newlines post.
Proof.
  intros Ht Hp. induction pre as [|c pre IH].
  - now apply (universal_newlines_plain t post).
  - rewrite append_cons, !universal_newlines_cons.
    destruct (Ascii.eqb c CR).
    + destruct pre as [|c' pre'].
      * destruct t as [|a t']; [discriminate|].
        change (EmptyString +:+ String a t' +:+ post)
          with (String a (t' +:+ post)) in *.
        rewrite forallb_str_cons in Hp. apply andb_true_iff in Hp as [Ha _].
        unfold plain in Ha. apply andb_true_iff in Ha as [_ Hlf].
        apply negb_true_iff in Hlf. rewrite Hlf, IH. reflexivity.
      * rewrite append_cons. destruct (Ascii.eqb c' LF);
          rewrite <- append_cons, IH; reflexivity.
    + now rewrite IH.
Qed.

(** A token that is found in a text is found in the text as read. *)
Lemma contains_universal_newlines (t s : string) :
  truthy t = true -> forallb_str plain t = true ->
  contains t s = true -> contains t (universal_newlines s) = true.
Proof.
  intros Ht Hp. rewrite !contains_iff. intros (pre & post & ->).
  exists (universal_newlines pre), (universal_newlines post).
  now apply universal_newlines_around.
Qed.

Lemma token_class_plain (s : string) :
  forallb_str token_class s = true -> forallb_str plain s = true.
Proof.
  intros H. induction s as [|c s IH]; [reflexivity|].
  rewrite forallb_str_cons in *. apply andb_true_iff in H as [Hc Hs].
  rewrite (IH Hs), andb_true_r. clear -Hc.
  destruct c as [[] [] [] [] [] [] [] []]; try discriminate Hc; reflexivity.
Qed.

(** *** Runs of [save_token_to_env] *)

Section PersistFacts.
Import FS Cli.

Tactic Notation "io_eval" :=
  unfold bind, try_except, ret, raise, path_exists, read_file, write_file,
    touch, chmod, next_fault;
  cbn [fault_exn interfere record set_file set_mode files modes faults calls
       events fst snd].

Tactic Notation "io_eval" "in" hyp(H) :=
  unfold bind, try_except, ret, raise, path_exists, read_file, write_file,
    touch, chmod, next_fault in H;
  cbn [fault_exn interfere record set_file set_mode files modes faults calls
       events fst snd] in H.

Lemma append_nonempty_ne (p s : string) :
  truthy s = true -> p +:+ s <> p.
Proof.
  intros Hs H. apply (f_equal String.length) in H.
  rewrite length_append in H. destruct s; [discriminate|]. cbn in H. lia.
Qed.

Lemma backup_path_ne (p timestamp : string) :
  p +:+ ".backup." +:+ timestamp <> p.
Proof. apply append_nonempty_ne. reflexivity. Qed.

Lemma is_Some_true {A} (a : A) : bool_decide (is_Some (Some a)) = true.
Proof. apply bool_decide_eq_true_2. eauto. Qed.

Lemma is_Some_false {A} : bool_decide (is_Some (@None A)) = false.
Proof. apply bool_decide_eq_false_2. intros [? ?]. discriminate. Qed.

(** Events that are no write: reads, [touch] and [chmod]. *)
Definition is_write (ev : Event) : bool :=
  match ev with
  | EvWrite _ _ | EvWriteFailed _ => true
  | _ => false
  end.

(** The surroundings of the examples: no [~] in the path, no symlink.  The
    variable names of the examples have no backslash, so the two answers
    about templates are never asked for. *)
Definition plain_env : Env :=
  {| expanduser := fun p => p; islink := fun _ => false;
     realpath := fun p => p; now := "20260101_120000";
     re_group_zero := fun name => String.eqb name "0";
     re_error := fun template => RuntimeError ("bad escape in " +:+ template) |}.

Definition ENOSPC : exn :=
  {| exn_class := OSError; exn_errno := Some 28%Z;
     exn_str := "[Errno 28] No space left on device" |}.

(** A profile with one line, on a disk that fills up: the fourth
    file-system call (the write of the profile) fails after truncating the
    file, and so does the sixth (the write that restores it). *)
Definition full_disk_world : World :=
  {| files := {[ "/home/u/.zshrc" := "export EDITOR=vi" ]};
     modes := ∅;
     faults := fun n =>
                 match n with
                 | 3 => FailPartial ENOSPC 0
                 | 5 => FailPartial ENOSPC 0
                 | _ => NoFault
                 end;
     calls := 0;
     events := [] |}.

(** C2, as stated, fails: the write of the profile fails, the restore from
    the backup fails too (the handler swallows that), and the profile is
    left empty instead of holding its original content. *)
Lemma save_token_to_env_restore_can_fail :
  (save_token_to_env plain_env token_of_length_104 "OP_SERVICE_ACCOUNT_TOKEN"
     "/home/u/.zshrc" full_disk_world).1
  = Ok (failure (Some "/home/u/.zshrc.backup.20260101_120000")
          "Failed to write .zshrc: [Errno 28] No space left on device")
  /\ files full_disk_world !! "/home/u/.zshrc" = Some "export EDITOR=vi"
  /\ files (save_token_to_env plain_env token_of_length_104
              "OP_SERVICE_ACCOUNT_TOKEN" "/home/u/.zshrc" full_disk_world).2
       !! "/home/u/.zshrc" = Some EmptyString.
Proof. vm_compute. repeat split; reflexivity. Qed.

(** C2, amended: when the variable name has no backslash, the profile
    exists, its backup was made and the profile read, and the write of the
    updated text fails with [e], the function returns the failure result
    carrying [e] and the backup path, after trying to restore the profile:
    when the two calls of the restore (reading the backup, writing the
    profile) meet no fault, the profile holds its original text again, as a
    text-mode read gives it: with every line ending CR LF or CR turned into
    LF, and unchanged when it has no carriage return. *)
Theorem save_token_to_env_write_failure
    (env : Env) (token name path : string) (w : World) (original : string)
    (e : exn) :
  is_valid (validate_token_format token) = true ->
  char_in BACKSLASH name = false ->
  files w !! resolve_path env path = Some original ->
  faults w (0 + calls w) = NoFault ->
  faults w (1 + calls w) = NoFault ->
  faults w (2 + calls w) = NoFault ->
  fault_exn (faults w (3 + calls w)) = Some e ->
  exists w',
    save_token_to_env env token name path w
    = (Ok (failure
             (Some (resolve_path env path +:+ ".backup." +:+ now env))
             ("Failed to write .zshrc: " +:+ exn_str e)), w')
    /\ (faults w (4 + calls w) = NoFault ->
        faults w (5 + calls w) = NoFault ->
        files w' !! resolve_path env path = Some (universal_newlines original)
        /\ (char_in CR original = false ->
            files w' !! resolve_path env path = Some original)).
Proof.
  destruct w as [fl md fa n ev]. intros Hv Hname Hp H0 H1 H2 H3.
  cbn [files faults calls Nat.add] in *.
  destruct (update_profile_text_ok env token name (now env)
              (universal_newlines original) Hv Hname) as (text & Htext & _).
  unfold save_token_to_env. rewrite Hv. cbn [negb].
  set (p := resolve_path env path) in *.
  set (bp := p +:+ ".backup." +:+ now env).
  assert (Hne : bp <> p) by apply backup_path_ne.
  unfold create_backup. io_eval. rewrite Hp, is_Some_true. io_eval.
  rewrite H0. io_eval. rewrite Hp. io_eval. rewrite H1. io_eval.
  rewrite H2. io_eval. rewrite (lookup_insert_ne _ _ _ _ Hne), Hp. io_eval.
  rewrite Htext. io_eval.
  unfold restore_from_backup.
  assert (Hrestored :
            forall fl' : gmap string string,
              fl' !! p = Some (universal_newlines original) ->
              fl' !! p = Some (universal_newlines original)
              /\ (char_in CR original = false -> fl' !! p = Some original)).
  { intros fl' H. split; [exact H|]. intros Hcr.
    now rewrite H, (universal_newlines_id _ Hcr). }
  destruct (fa (S (S (S n)))) as [|e0|e0 k|c0]; cbn [fault_exn] in H3;
    try discriminate; injection H3 as ->; io_eval.
  - rewrite lookup_insert_eq, is_Some_true. io_eval.
    destruct (fa (S (S (S (S n))))) as [|e4|e4 k4|c4]; cbn [fault_exn]; io_eval;
      rewrite ?lookup_insert_eq; io_eval;
      try (destruct (fa (S (S (S (S (S n)))))) as [|e5|e5 k5|c5]; io_eval);
      (eexists; split; [reflexivity|]); intros H4 H5; try discriminate;
      cbn [files record set_file]; apply Hrestored;
      rewrite universal_newlines_idem; apply lookup_insert_eq.
  - rewrite (lookup_insert_ne _ _ _ _ (not_eq_sym Hne)), lookup_insert_eq,
      is_Some_true. io_eval.
    destruct (fa (S (S (S (S n))))) as [|e4|e4 k4|c4]; cbn [fault_exn]; io_eval;
      rewrite ?(lookup_insert_ne _ _ _ _ (not_eq_sym Hne)), ?lookup_insert_eq;
      io_eval;
      try (destruct (fa (S (S (S (S (S n)))))) as [|e5|e5 k5|c5]; io_eval);
      (eexists; split; [reflexivity|]); intros H4 H5; try discriminate;
      cbn [files record set_file]; apply Hrestored;
      rewrite universal_newlines_idem; apply lookup_insert_eq.
Qed.

(** A profile with a DOS line ending; only the write of the profile fails,
    after seven characters. *)
Definition flaky_write_world : World :=
  {| files := {[ "/home/u/.zshrc"
                 := "export EDITOR=vi" +:+ String CR (String LF EmptyString) ]};
     modes := ∅;
     faults := fun n => match n with 3 => FailPartial ENOSPC 7 | _ => NoFault end;
     calls := 0;
     events := [] |}.

(** C2 at that world: the failure carries the write error and the profile
    holds its original line again, ended by a line feed alone. *)
Lemma save_token_to_env_write_failure_witness :
  (save_token_to_env plain_env token_of_length_104 "OP_SERVICE_ACCOUNT_TOKEN"
     "/home/u/.zshrc" flaky_write_world).1
  = Ok (failure (Some "/home/u/.zshrc.backup.20260101_120000")
          "Failed to write .zshrc: [Errno 28] No space left on device")
  /\ files (save_token_to_env plain_env token_of_length_104
              "OP_SERVICE_ACCOUNT_TOKEN" "/home/u/.zshrc" flaky_write_world).2
       !! "/home/u/.zshrc" = Some ("export EDITOR=vi" +:+ NL).
Proof.
  destruct (save_token_to_env_write_failure plain_env token_of_length_104
              "OP_SERVICE_ACCOUNT_TOKEN" "/home/u/.zshrc" flaky_write_world
              ("export EDITOR=vi" +:+ String CR (String LF EmptyString)) ENOSPC)
    as (w' & Heq & Hrestored);
    [vm_compute; reflexivity
    |vm_compute; reflexivity
    |vm_compute; reflexivity
    |reflexivity|reflexivity|reflexivity|reflexivity|].
  rewrite Heq. split; [reflexivity|].
  apply Hrestored; reflexivity.
Defined.

(** A home directory without a profile, and no fault. *)
Definition fresh_world : World :=
  {| files := ∅; modes := ∅; faults := fun _ => NoFault; calls := 0;
     events := [] |}.

(** What a run returned, if it returned. *)
Definition returned {A} (r : result A) : option A :=
  match r with Ok a => Some a | Raise _ => None end.

Definition fresh_run : result PersistResult * World :=
  save_token_to_env plain_env token_of_length_104 "OP_SERVICE_ACCOUNT_TOKEN"
    "/home/u/.zshrc" fresh_world.

(** C3, as stated, fails: when the profile does not exist yet the call
    creates it, succeeds, reports no backup path, and the only file
    afterwards is the profile: no backup was made. *)
Lemma save_token_to_env_success_without_backup :
  success <$> returned fresh_run.1 = Some true
  /\ backup_path <$> returned fresh_run.1 = Some None
  /\ (map_to_list (files fresh_run.2)).*1 = ["/home/u/.zshrc"].
Proof. vm_compute. repeat split; reflexivity. Qed.

(** No other process writes to the files during the run. *)
Definition undisturbed (w : World) : Prop :=
  forall n content, faults w n <> Changed content.

(** The tail of [save_token_to_env] always returns a success: whatever the
    read-back and [chmod] do, the function writes nothing more and raises
    nothing. *)
Lemma verify_and_finish_succeeds
    (token name p : string) (bp : option string) (w : World) :
  undisturbed w ->
  exists v evs w',
    verify_and_finish token name p bp w
    = (Ok {| success := true; backup_path := bp; env_var_name := name;
             error_message := None; verified := v |}, w')
    /\ files w' = files w
    /\ events w' = events w ++ evs
    /\ existsb is_write evs = false.
Proof.
  destruct w as [fl md fa n ev]. unfold undisturbed. cbn [faults]. intros Hno.
  unfold verify_and_finish. io_eval.
  destruct (fa n) as [|e0|e0 k0|c0] eqn:H0, (fl !! p) as [content|] eqn:Hfl;
    try (exfalso; exact (Hno _ _ H0));
    cbn [fault_exn]; io_eval; rewrite ?Hfl; io_eval;
    destruct (fa (S n)) as [|e1|e1 k1|c1] eqn:H1;
    try (exfalso; exact (Hno _ _ H1));
    cbn [fault_exn]; io_eval; rewrite ?Hfl;
    do 3 eexists; (split; [reflexivity|]); (split; [reflexivity|]);
    cbn [events record set_mode set_file];
    (split;
     [first [ symmetry; apply app_nil_r
            | rewrite <- ?app_assoc; reflexivity ]
     | reflexivity ]).
Qed.

Ltac failed_run H :=
  repeat match type of H with
         | context [if ?b then _ else _] => destruct b
         | context [restore_from_backup ?a ?b ?c] =>
             destruct (restore_from_backup a b c) as [[[]|?] ?]
         end;
  first [ discriminate H
        | injection H as <- _; discriminate ].

(** C3, amended: in a run that no other process disturbs, a call that
    returns success for a profile that existed has made, before writing the
    profile, a backup at [<profile>.backup.<timestamp>] holding the
    original text as a text-mode read gives it, and the backup is still
    there afterwards; a call that returns success for a profile that did
    not exist has created the profile and made no backup. *)
Theorem save_token_to_env_backup_before_write
    (env : Env) (token name path : string) (w w' : World) (r : PersistResult) :
  undisturbed w ->
  save_token_to_env env token name path w = (Ok r, w') ->
  success r = true ->
  match files w !! resolve_path env path with
  | Some original =>
      backup_path r
      = Some (resolve_path env path +:+ ".backup." +:+ now env)
      /\ files w' !! (resolve_path env path +:+ ".backup." +:+ now env)
         = Some (universal_newlines original)
      /\ exists text evs,
           update_profile_text env token name (now env)
             (universal_newlines original) = Ok text
           /\ events w'
              = events w
                ++ [EvRead (resolve_path env path);
                    EvWrite (resolve_path env path +:+ ".backup." +:+ now env)
                      (universal_newlines original);
                    EvRead (resolve_path env path);
                    EvWrite (resolve_path env path) text]
                ++ evs
           /\ existsb is_write evs = false
  | None =>
      backup_path r = None
      /\ exists text evs,
           update_profile_text env token name (now env) EmptyString = Ok text
           /\ files w' = <[resolve_path env path := text]> (files w)
           /\ events w'
              = events w
                ++ [EvTouch (resolve_path env path);
                    EvRead (resolve_path env path);
                    EvWrite (resolve_path env path) text]
                ++ evs
           /\ existsb is_write evs = false
  end.
Proof.
  destruct w as [fl md fa n ev]. intros Hno Hrun Hok.
  assert (Hno' : forall k c, fa k <> Changed c) by exact Hno.
  cbn [files events].
  unfold save_token_to_env in Hrun.
  destruct (is_valid (validate_token_format token));
    cbn [negb] in Hrun; [|injection Hrun as <- _; discriminate].
  set (p := resolve_path env path) in *.
  set (bp := p +:+ ".backup." +:+ now env) in *.
  assert (Hne : bp <> p) by apply backup_path_ne.
  unfold create_backup in Hrun. io_eval in Hrun.
  destruct (fl !! p) as [original|] eqn:Hp.
  - rewrite is_Some_true in Hrun. io_eval in Hrun.
    destruct (fa n) as [|e0|e0 k0|c0] eqn:H0;
      try (exfalso; exact (Hno' _ _ H0));
      cbn [fault_exn] in Hrun; io_eval in Hrun; [|failed_run Hrun..].
    rewrite Hp in Hrun. io_eval in Hrun.
    destruct (fa (S n)) as [|e1|e1 k1|c1] eqn:H1;
      try (exfalso; exact (Hno' _ _ H1));
      io_eval in Hrun; [|failed_run Hrun..].
    destruct (fa (S (S n))) as [|e2|e2 k2|c2] eqn:H2;
      try (exfalso; exact (Hno' _ _ H2));
      cbn [fault_exn] in Hrun; io_eval in Hrun; [|failed_run Hrun..].
    rewrite (lookup_insert_ne _ _ _ _ Hne), Hp in Hrun. io_eval in Hrun.
    destruct (update_profile_text env token name (now env)
                (universal_newlines original)) as [text|e] eqn:Htext;
      io_eval in Hrun; [|discriminate Hrun].
    destruct (fa (S (S (S n)))) as [|e3|e3 k3|c3] eqn:H3;
      try (exfalso; exact (Hno' _ _ H3));
      io_eval in Hrun; [|failed_run Hrun..].
    match type of Hrun with
    | verify_and_finish ?t ?nm ?q ?b ?w0 = _ =>
        destruct (verify_and_finish_succeeds t nm q b w0 Hno)
          as (v & evs & w'' & Heq & Hfiles & Hevents & Hnw)
    end.
    rewrite Heq in Hrun. injection Hrun as <- <-.
    cbn [backup_path files events record set_file] in *.
    split; [reflexivity|]. split.
    + rewrite Hfiles, (lookup_insert_ne _ _ _ _ (not_eq_sym Hne)).
      apply lookup_insert_eq.
    + exists text, evs. split; [reflexivity|]. split; [|exact Hnw].
      rewrite Hevents, <- !app_assoc. reflexivity.
  - rewrite is_Some_false in Hrun. io_eval in Hrun.
    destruct (fa n) as [|e0|e0 k0|c0] eqn:H0;
      try (exfalso; exact (Hno' _ _ H0));
      cbn [fault_exn] in Hrun; io_eval in Hrun; [|failed_run Hrun..].
    rewrite Hp in Hrun. io_eval in Hrun.
    destruct (fa (S n)) as [|e1|e1 k1|c1] eqn:H1;
      try (exfalso; exact (Hno' _ _ H1));
      cbn [fault_exn] in Hrun; io_eval in Hrun; [|failed_run Hrun..].
    rewrite lookup_insert_eq in Hrun. io_eval in Hrun.
    change (universal_newlines EmptyString) with EmptyString in Hrun.
    destruct (update_profile_text env token name (now env) EmptyString)
      as [text|e] eqn:Htext; io_eval in Hrun; [|discriminate Hrun].
    destruct (fa (S (S n))) as [|e2|e2 k2|c2] eqn:H2;
      try (exfalso; exact (Hno' _ _ H2));
      io_eval in Hrun; [|failed_run Hrun..].
    match type of Hrun with
    | verify_and_finish ?t ?nm ?q ?b ?w0 = _ =>
        destruct (verify_and_finish_succeeds t nm q b w0 Hno)
          as (v & evs & w'' & Heq & Hfiles & Hevents & Hnw)
    end.
    rewrite Heq in Hrun. injection Hrun as <- <-.
    cbn [backup_path files events record set_file] in *.
    split; [reflexivity|]. exists text, evs. split; [reflexivity|]. split.
    + rewrite Hfiles. apply insert_insert_eq.
    + split; [|exact Hnw]. rewrite Hevents, <- !app_assoc. reflexivity.
Qed.

(** An existing profile and no fault. *)
Definition quiet_world : World :=
  {| files := {[ "/home/u/.zshrc" := "export EDITOR=vi" ]};
     modes := ∅; faults := fun _ => NoFault; calls := 0; events := [] |}.

Definition quiet_run : result PersistResult * World :=
  save_token_to_env plain_env token_of_length_104 "OP_SERVICE_ACCOUNT_TOKEN"
    "/home/u/.zshrc" quiet_world.

(** C3 at that world: the call succeeds and the backup holds the original
    line. *)
Lemma save_token_to_env_backup_before_write_witness :
  success <$> returned quiet_run.1 = Some true
  /\ files quiet_run.2 !! "/home/u/.zshrc.backup.20260101_120000"
     = Some "export EDITOR=vi".
Proof.
  assert (Hno : undisturbed quiet_world) by (intros n content; discriminate).
  assert (Hrun : save_token_to_env plain_env token_of_length_104
                   "OP_SERVICE_ACCOUNT_TOKEN" "/home/u/.zshrc" quiet_world
                 = (Ok {| success := true;
                          backup_path := Some "/home/u/.zshrc.backup.20260101_120000";
                          env_var_name := "OP_SERVICE_ACCOUNT_TOKEN";
                          error_message := None; verified := true |},
                    quiet_run.2))
    by (vm_compute; reflexivity).
  pose proof (save_token_to_env_backup_before_write _ _ _ _ _ _ _ Hno Hrun eq_refl)
    as H.
  change (files quiet_world !! resolve_path plain_env "/home/u/.zshrc")
    with (Some "export EDITOR=vi") in H.
  destruct H as (_ & Hbackup & _).
  split; [vm_compute; reflexivity|exact Hbackup].
Defined.

Definition EACCES : exn :=
  {| exn_class := PermissionError; exn_errno := Some 13%Z;
     exn_str := "[Errno 13] Permission denied" |}.

(** Whether a call that meets [f] raises. *)
Definition fails (f : Fault) : bool :=
  match fault_exn f with Some _ => true | None => false end.

(** What the read-back that meets [f] makes of [verified]: the token is
    looked for in what is read, which is the text just written unless
    another process has changed the file. *)
Definition read_back_verdict (token : string) (f : Fault) : bool :=
  match f with
  | NoFault => true
  | Changed content => contains token (universal_newlines content)
  | FailBefore _ | FailPartial _ _ => false
  end.

(** C9: once the profile was backed up, read and written, the call reads
    the profile back and sets its permissions, as its fifth and sixth
    file-system calls, and returns success whatever they do: [verified] is
    false when the read-back fails or does not find the token in what it
    reads, and a failing [chmod] leaves the permissions as they were. *)
Theorem save_token_to_env_success_despite_checks
    (env : Env) (token name path : string) (w : World) (original : string) :
  is_valid (validate_token_format token) = true ->
  char_in BACKSLASH name = false ->
  files w !! resolve_path env path = Some original ->
  faults w (0 + calls w) = NoFault ->
  faults w (1 + calls w) = NoFault ->
  faults w (2 + calls w) = NoFault ->
  faults w (3 + calls w) = NoFault ->
  exists text w',
    update_profile_text env token name (now env) (universal_newlines original)
    = Ok text
    /\ save_token_to_env env token name path w
       = (Ok {| success := true;
                backup_path :=
                  Some (resolve_path env path +:+ ".backup." +:+ now env);
                env_var_name := name; error_message := None;
                verified := read_back_verdict token (faults w (4 + calls w)) |},
          w')
    /\ calls w' = 6 + calls w
    /\ events w'
       = events w
         ++ [EvRead (resolve_path env path);
             EvWrite (resolve_path env path +:+ ".backup." +:+ now env)
               (universal_newlines original);
             EvRead (resolve_path env path);
             EvWrite (resolve_path env path) text]
         ++ (if fails (faults w (4 + calls w)) then []
             else [EvRead (resolve_path env path)])
         ++ (if fails (faults w (5 + calls w)) then []
             else [EvChmod (resolve_path env path) 384%N])
    /\ modes w'
       = if fails (faults w (5 + calls w)) then modes w
         else <[resolve_path env path := 384%N]> (modes w).
Proof.
  destruct w as [fl md fa n ev]. intros Hv Hname Hp H0 H1 H2 H3.
  cbn [files faults calls modes events Nat.add] in *.
  destruct (update_profile_text_ok env token name (now env)
              (universal_newlines original) Hv Hname) as (text & Htext & Hin).
  destruct (valid_token_chars token Hv) as [Htruthy Hcls].
  apply (contains_universal_newlines token text Htruthy
           (token_class_plain token Hcls)) in Hin.
  exists text.
  unfold save_token_to_env. rewrite Hv. cbn [negb].
  set (p := resolve_path env path) in *.
  set (bp := p +:+ ".backup." +:+ now env).
  assert (Hne : bp <> p) by apply backup_path_ne.
  unfold create_backup. io_eval. rewrite Hp, is_Some_true. io_eval.
  rewrite H0. io_eval. rewrite Hp. io_eval. rewrite H1. io_eval.
  rewrite H2. io_eval. rewrite (lookup_insert_ne _ _ _ _ Hne), Hp. io_eval.
  rewrite Htext. io_eval. rewrite H3. io_eval.
  unfold verify_and_finish, fails. io_eval.
  destruct (fa (S (S (S (S n))))) as [|e4|e4 k4|c4];
    cbn [fault_exn interfere read_back_verdict]; io_eval;
    rewrite ?lookup_insert_eq; io_eval; rewrite ?Hin;
    destruct (fa (S (S (S (S (S n)))))) as [|e5|e5 k5|c5];
    cbn [fault_exn interfere]; io_eval;
    rewrite ?lookup_insert_eq; io_eval;
    eexists; (split; [reflexivity|]); (split; [reflexivity|]);
    (split; [reflexivity|]);
    cbn [calls events modes record set_mode set_file];
    rewrite <- ?app_assoc; repeat split; reflexivity.
Qed.

(** An existing profile; before the fifth file-system call (the
    read-back) another process puts the old line back, and the sixth (the
    [chmod]) fails. *)
Definition unverifiable_world : World :=
  {| files := {[ "/home/u/.zshrc" := "export EDITOR=vi" ]};
     modes := ∅;
     faults := fun n =>
                 match n with
                 | 4 => Changed "export EDITOR=vi"
                 | 5 => FailBefore EACCES
                 | _ => NoFault
                 end;
     calls := 0; events := [] |}.

Definition unverifiable_run : result PersistResult * World :=
  save_token_to_env plain_env token_of_length_104 "OP_SERVICE_ACCOUNT_TOKEN"
    "/home/u/.zshrc" unverifiable_world.

(** C9 at that world: the read-back does not find the token, no
    permission is set, and success is reported. *)
Lemma save_token_to_env_success_despite_checks_witness :
  success <$> returned unverifiable_run.1 = Some true
  /\ verified <$> returned unverifiable_run.1 = Some false
  /\ modes unverifiable_run.2 = ∅
  /\ calls unverifiable_run.2 = 6.
Proof.
  destruct (save_token_to_env_success_despite_checks plain_env
              token_of_length_104 "OP_SERVICE_ACCOUNT_TOKEN" "/home/u/.zshrc"
              unverifiable_world "export EDITOR=vi")
    as (text & w' & _ & Hrun & Hcalls & _ & Hmodes);
    [vm_compute; reflexivity|vm_compute; reflexivity|vm_compute; reflexivity
    |reflexivity|reflexivity|reflexivity|reflexivity|].
  unfold unverifiable_run. rewrite Hrun.
  cbn [fst snd returned fmap option_fmap option_map success verified].
  split; [reflexivity|]. split; [vm_compute; reflexivity|].
  split; [exact Hmodes|exact Hcalls].
Defined.

End PersistFacts.

(** * Further properties of the modules *)

(** ** Retry strategies: classification and bounds *)

(** X1: an [OSError] of any kind is retried whatever its message says: a
    timeout gets the strategy [timeout] with three attempts, every other
    one the strategy [network] with five, also when the message has the
    words [not found], [invalid] or [missing]. *)
Theorem get_retry_strategy_oserror (error : exn) :
  is_OSError error = true ->
  Decision.retryable (Decision.get_retry_strategy error) = true
  /\ Decision.name (Decision.get_retry_strategy error)
     = (if is_TimeoutError error then "timeout" else "network")
  /\ Decision.max_attempts (Decision.get_retry_strategy error)
     = (if is_TimeoutError error then 3 else 5)%Z.
Proof.
  intros Hos. unfold Decision.get_retry_strategy.
  destruct (is_TimeoutError error); [repeat split|].
  rewrite Hos. repeat split.
Qed.

(** X1 at a missing file. *)
Lemma get_retry_strategy_oserror_witness :
  Decision.retryable
    (Decision.get_retry_strategy (FS.FileNotFoundError "/home/u/.config/op")) = true
  /\ Decision.name
       (Decision.get_retry_strategy (FS.FileNotFoundError "/home/u/.config/op"))
     = "network"
  /\ Decision.max_attempts
       (Decision.get_retry_strategy (FS.FileNotFoundError "/home/u/.config/op"))
     = 5%Z.
Proof.
  apply (get_retry_strategy_oserror (FS.FileNotFoundError "/home/u/.config/op")).
  reflexivity.
Defined.

(** X2: whatever the error, the strategy allows between zero and five
    attempts, is non-retryable exactly when it allows none, and never asks
    for another retry once five were made. *)
Theorem get_retry_strategy_bounds (error : exn) :
  (0 <= Decision.max_attempts (Decision.get_retry_strategy error) <= 5)%Z
  /\ (Decision.retryable (Decision.get_retry_strategy error) = false
      <-> Decision.max_attempts (Decision.get_retry_strategy error) = 0%Z)
  /\ forall attempt, (5 <= attempt)%Z ->
       Decision.should_retry (Decision.get_retry_strategy error) attempt = false.
Proof.
  unfold Decision.get_retry_strategy, Decision.should_retry.
  repeat match goal with |- context [if ?b then _ else _] => destruct b end;
    cbn [Decision.max_attempts Decision.retryable andb];
    (split; [lia|]); (split; [split; intros; (discriminate || reflexivity)|]);
    intros attempt Hle; try reflexivity; apply Z.ltb_ge; lia.
Qed.

(** ** URL matching *)

Lemma startswith_refl (s : string) : startswith s s = true.
Proof. induction s as [|a s IH]; [reflexivity|]. cbn. now rewrite Ascii.eqb_refl. Qed.

Lemma url_matches_substring (current_url target_url : string) :
  Decision._url_matches current_url target_url
  = truthy current_url && truthy target_url && contains target_url current_url.
Proof.
  unfold Decision._url_matches.
  destruct (truthy current_url), (truthy target_url); cbn [negb orb andb];
    try reflexivity.
  destruct (String.eqb_spec current_url target_url) as [->|_].
  - symmetry. apply contains_startswith, startswith_refl.
  - destruct (startswith target_url current_url) eqn:Hs; [|reflexivity].
    symmetry. now apply contains_startswith.
Qed.

(** X3: [_url_matches] is the substring test on non-empty URLs: the
    comparison for equality and the prefix test add nothing to it. *)
Theorem url_matches_is_substring (current_url target_url : string) :
  Decision._url_matches current_url target_url
  = truthy current_url && truthy target_url && contains target_url current_url.
Proof. apply url_matches_substring. Qed.

(** ** The retry loop of the orchestrator *)

Section RetryFacts.
Import Orchestrator.

(** X4: the retry cap is never negative, never above the strategy's own
    count, never above a configured cap that is not negative, and zero for
    a negative configured cap. *)
Theorem resolve_max_attempts_bounds
    (configured : ConfigValue) (strategy : Decision.RetryStrategy) :
  (0 <= _resolve_max_attempts configured strategy)%Z
  /\ (_resolve_max_attempts configured strategy
      <= Z.max 0 (Decision.max_attempts strategy))%Z
  /\ match configured with
     | IntValue z =>
         (_resolve_max_attempts configured strategy <= Z.max 0 z)%Z
     | _ =>
         _resolve_max_attempts configured strategy
         = Z.max 0 (Decision.max_attempts strategy)
     end.
Proof.
  unfold _resolve_max_attempts. destruct configured as [| |z]; try lia.
  destruct (z <? 0)%Z eqn:Hz; [lia|]. apply Z.ltb_ge in Hz.
  destruct (Decision.max_attempts strategy <=? 0)%Z eqn:Hm; [lia|].
  apply Z.leb_gt in Hm. lia.
Qed.

(** X5: [_retry_with_backoff] always ends, after one to five invocations
    of the step, and changes nothing of the context but the record of
    those invocations; it ends as the loop [attempts_from] tells from the
    outcomes of the invocations. *)
Theorem retry_with_backoff_invocations
    (w : World) (operation : Step) (c : OrchestrationContext) :
  exists outcome k,
    1 <= k <= 5
    /\ attempts_from w operation retry_fuel 0 (invoked operation c)
       = Some (outcome, k)
    /\ _retry_with_backoff w operation c
       = (outcome, invoking (repeat operation k) c).
Proof.
  destruct (retry_with_backoff_attempts w operation c) as (o & k & H & Hk & Heq).
  exists o, k. auto.
Qed.

(** X6: a step whose first invocation returns, or raises an exception that
    is raised for good, is invoked once. *)
Theorem retry_with_backoff_no_retry
    (w : World) (operation : Step) (c : OrchestrationContext) :
  pause_interrupted w operation (invoked operation c) = false ->
  match step_outcome w operation (invoked operation c) with
  | Raises e => final w e 0 = true
  | _ => True
  end ->
  _retry_with_backoff w operation c
  = (step_outcome w operation (invoked operation c),
     invoking [operation] c).
Proof.
  intros Hpause Hfinal.
  destruct (retry_with_backoff_attempts w operation c) as (o & k & H & _ & ->).
  unfold retry_fuel in H. cbn [attempts_from] in H. rewrite Hpause in H.
  destruct (step_outcome w operation (invoked operation c)) as [[]|e|];
    try (injection H as <- <-; reflexivity).
  rewrite Hfinal in H. injection H as <- <-. reflexivity.
Qed.

Lemma retry_with_backoff_no_retry_witness :
  _retry_with_backoff unauthenticated_world _check_auth_status initial_context
  = (Raises (RuntimeError "Not authenticated: session missing (confidence: 0%)"),
     invoking [_check_auth_status] initial_context).
Proof.
  apply (retry_with_backoff_no_retry unauthenticated_world _check_auth_status
           initial_context); reflexivity.
Defined.

End RetryFacts.

(** ** Token validation and persistence: further properties *)

Section PersistMoreFacts.
Import FS Cli.

Lemma is_valid_errors (token : string) :
  is_valid (validate_token_format token) = true
  <-> errors (validate_token_format token) = [].
Proof.
  unfold validate_token_format.
  destruct (truthy token);
    destruct (startswith TOKEN_PREFIX token);
    destruct (MIN_TOKEN_LENGTH <=? String.length token);
    destruct (first_invalid_char 0 token) as [[c i]|];
    destruct (TOKEN_PATTERN_match token);
    cbn [negb andb app is_valid errors]; split; intros H;
    try reflexivity; try discriminate H.
Qed.

(** X7: the verdict and the error list agree: a token is valid exactly
    when no error is listed. *)
Theorem validate_token_format_errors_iff (token : string) :
  is_valid (validate_token_format token) = true
  <-> errors (validate_token_format token) = [].
Proof. apply is_valid_errors. Qed.

(** X8: an invalid token is turned down before the file system is
    touched: the failure lists the validation errors, of which there is at
    least one, and the world is the one the call started in. *)
Theorem save_token_to_env_invalid_token
    (env : Env) (token name path : string) (w : World) :
  is_valid (validate_token_format token) = false ->
  save_token_to_env env token name path w
  = (Ok (failure None
           ("Invalid token format: "
            +:+ join ", " (errors (validate_token_format token)))), w)
  /\ errors (validate_token_format token) <> [].
Proof.
  intros Hv. split.
  - unfold save_token_to_env. rewrite Hv. reflexivity.
  - intros He. apply is_valid_errors in He. congruence.
Qed.

Lemma save_token_to_env_invalid_token_witness :
  save_token_to_env plain_env "ops_short" "OP_SERVICE_ACCOUNT_TOKEN"
    "/home/u/.zshrc" quiet_world
  = (Ok (failure None "Invalid token format: Token too short: 9 < 100"),
     quiet_world)
  /\ errors (validate_token_format "ops_short") <> [].
Proof.
  apply (save_token_to_env_invalid_token plain_env "ops_short"
           "OP_SERVICE_ACCOUNT_TOKEN" "/home/u/.zshrc" quiet_world).
  vm_compute. reflexivity.
Defined.

Tactic Notation "fs_eval" :=
  unfold bind, try_except, ret, raise, path_exists, read_file, write_file,
    touch, chmod, next_fault;
  cbn [fault_exn interfere record set_file set_mode files modes faults calls
       events fst snd].

(** X9: the variable name is used as a replacement template.  When the
    profile already exports the variable and the export line is a malformed
    template (the name has an escape that [re] rejects), the call does not
    return: the exception of [re.sub] leaves it, after the backup was made
    and before the profile is written. *)
Theorem save_token_to_env_template_error
    (env : Env) (token name path : string) (w : World) (original : string) :
  is_valid (validate_token_format token) = true ->
  files w !! resolve_path env path = Some original ->
  faults w (0 + calls w) = NoFault ->
  faults w (1 + calls w) = NoFault ->
  faults w (2 + calls w) = NoFault ->
  export_pattern_search name (universal_newlines original) = true ->
  parse_template (re_group_zero env) (export_line token name) = None ->
  exists w',
    save_token_to_env env token name path w
    = (Raise (re_error env (export_line token name)), w')
    /\ files w'
       = <[resolve_path env path +:+ ".backup." +:+ now env
           := universal_newlines original]> (files w)
    /\ calls w' = 3 + calls w.
Proof.
  destruct w as [fl md fa n ev]. intros Hv Hp H0 H1 H2 Hsearch Hparse.
  cbn [files faults calls Nat.add] in *.
  unfold save_token_to_env. rewrite Hv. cbn [negb].
  set (p := resolve_path env path) in *.
  set (bp := p +:+ ".backup." +:+ now env).
  assert (Hne : bp <> p) by apply backup_path_ne.
  unfold create_backup. fs_eval. rewrite Hp, is_Some_true. fs_eval.
  rewrite H0. fs_eval. rewrite Hp. fs_eval. rewrite H1. fs_eval.
  rewrite H2. fs_eval. rewrite (lookup_insert_ne _ _ _ _ Hne), Hp. fs_eval.
  unfold update_profile_text. fold (export_line token name).
  rewrite Hsearch, Hparse. fs_eval.
  eexists. split; [reflexivity|]. split; reflexivity.
Qed.

(** A profile that exports the variable [A\q]. *)
Definition escaped_name : string := String "A" (String BACKSLASH "q").

Definition escaped_world : World :=
  {| files := {[ "/home/u/.zshrc" := "export " +:+ escaped_name +:+ "=1" ]};
     modes := ∅; faults := fun _ => NoFault; calls := 0; events := [] |}.

Lemma save_token_to_env_template_error_witness :
  exists w',
    save_token_to_env plain_env token_of_length_104 escaped_name
      "/home/u/.zshrc" escaped_world
    = (Raise (re_error plain_env (export_line token_of_length_104 escaped_name)),
       w')
    /\ files w'
       = <[resolve_path plain_env "/home/u/.zshrc" +:+ ".backup."
           +:+ now plain_env
           := universal_newlines ("export " +:+ escaped_name +:+ "=1")]>
           (files escaped_world)
    /\ calls w' = 3 + calls escaped_world.
Proof.
  apply (save_token_to_env_template_error plain_env token_of_length_104
           escaped_name "/home/u/.zshrc" escaped_world
           ("export " +:+ escaped_name +:+ "=1"));
    vm_compute; reflexivity.
Defined.

End PersistMoreFacts.

(** ** Token extraction from output: further properties *)

Section ExtractFacts.
Import Cli.

Lemma token_class_not_space (c : ascii) :
  token_class c = true -> is_space c = false.
Proof. destruct c as [[] [] [] [] [] [] [] []]; vm_compute; congruence. Qed.

Lemma remove_chars_cons (p : ascii -> bool) (a : ascii) (s : string) :
  remove_chars p (String a s)
  = if p a then remove_chars p s else String a (remove_chars p s).
Proof. reflexivity. Qed.

Lemma remove_space_class_append (run rest : string) :
  forallb_str token_class run = true ->
  remove_chars is_space (run +:+ rest) = run +:+ remove_chars is_space rest.
Proof.
  induction run as [|a run IH]; [reflexivity|].
  rewrite forallb_str_cons, andb_true_iff. intros [Ha Hrun].
  rewrite !append_cons, remove_chars_cons, (token_class_not_space _ Ha).
  now rewrite IH.
Qed.

Lemma span_cons (p : ascii -> bool) (a : ascii) (s : string) :
  span p (String a s)
  = if p a then let '(run, rest) := span p s in (String a run, rest)
    else (EmptyString, String a s).
Proof. reflexivity. Qed.

Lemma span_append_all (p : ascii -> bool) (run rest : string) :
  forallb_str p run = true ->
  span p (run +:+ rest) = ((run +:+ (span p rest).1), (span p rest).2).
Proof.
  induction run as [|a run IH].
  - intros _. change (EmptyString +:+ rest) with rest.
    destruct (span p rest); reflexivity.
  - rewrite forallb_str_cons, andb_true_iff. intros [Ha Hrun].
    rewrite append_cons, span_cons, Ha, (IH Hrun). reflexivity.
Qed.

Lemma token_match_here_cleaned (s t : string) :
  token_match_here s = Some t ->
  exists t', token_match_here (remove_chars is_space s) = Some t'.
Proof.
  unfold token_match_here.
  destruct (strip_prefix "ops_" s) as [rest|] eqn:Hs; [|discriminate].
  apply strip_prefix_append in Hs as ->.
  destruct (span token_class rest) as [run tail] eqn:Hspan.
  destruct (100 <=? String.length run) eqn:Hlen; [|discriminate]. intros _.
  destruct (span_spec _ _ _ _ Hspan) as [-> Hrun].
  rewrite (remove_space_class_append "ops_") by reflexivity.
  rewrite (remove_space_class_append run) by exact Hrun.
  assert (Hp : strip_prefix "ops_"
                 ("ops_" +:+ run +:+ remove_chars is_space tail)
               = Some (run +:+ remove_chars is_space tail))
    by now apply strip_prefix_append.
  rewrite Hp, (span_append_all _ _ _ Hrun).
  assert (Hlen' : (100 <=? String.length
                     (run +:+ (span token_class (remove_chars is_space tail)).1))
                  = true).
  { apply Nat.leb_le. apply Nat.leb_le in Hlen. rewrite length_append. lia. }
  rewrite Hlen'. eauto.
Qed.

Lemma search_token_cons (a : ascii) (s : string) :
  search_token (String a s)
  = match token_match_here (String a s) with
    | Some t => Some t
    | None => search_token s
    end.
Proof. reflexivity. Qed.

Lemma token_match_here_starts (s t : string) :
  token_match_here s = Some t -> startswith "ops_" s = true.
Proof.
  unfold token_match_here.
  destruct (strip_prefix "ops_" s) eqn:Hs; [|discriminate]. intros _.
  apply startswith_strip_prefix. eauto.
Qed.

Lemma search_token_cleaned (s t : string) :
  search_token s = Some t ->
  exists t', search_token (remove_chars is_space s) = Some t'.
Proof.
  induction s as [|a s IH].
  - cbn. discriminate.
  - rewrite search_token_cons.
    destruct (token_match_here (String a s)) as [t0|] eqn:Hhere.
    + intros _. destruct (token_match_here_cleaned _ _ Hhere) as [t' Ht'].
      exists t'.
      destruct (remove_chars is_space (String a s)) as [|b r];
        [discriminate Ht'|].
      rewrite search_token_cons, Ht'. reflexivity.
    + intros Hs. destruct (IH Hs) as [t' Ht'].
      rewrite remove_chars_cons. destruct (is_space a); [exists t'; exact Ht'|].
      rewrite search_token_cons.
      destruct (token_match_here (String a (remove_chars is_space s)))
        as [t1|]; [exists t1; reflexivity|].
      exists t'. exact Ht'.
Qed.

(** X10: the fallback search over the original output never decides:
    [extract_token_from_output] is the search over the output with all
    whitespace removed. *)
Theorem extract_token_from_output_is_cleaned_search (output : string) :
  extract_token_from_output output
  = if truthy output then search_token (remove_chars is_space output)
    else None.
Proof.
  unfold extract_token_from_output.
  destruct (truthy output); cbn [negb]; [|reflexivity].
  destruct (search_token (remove_chars is_space output)) eqn:Hc; [reflexivity|].
  destruct (search_token output) eqn:Ho; [|reflexivity].
  destruct (search_token_cleaned _ _ Ho) as [t' Ht']. congruence.
Qed.





End ExtractFacts.

(** ** The two format validations *)

Section ValidationFacts.

Lemma allowed_all_class (s : string) :
  forallb_str allowed s = forallb_str token_class s.
Proof. apply forallb_str_ext. intros c. apply allowed_chars_token_class. Qed.

Lemma endswith_cons (p : string) (a : ascii) (s : string) :
  endswith p (String a s) = String.eqb p (String a s) || endswith p s.
Proof. reflexivity. Qed.

Lemma endswith_append_self (a p : string) : endswith p (a +:+ p) = true.
Proof.
  induction a as [|x a IH].
  - change (EmptyString +:+ p) with p. destruct p; cbn [endswith];
      now rewrite String.eqb_refl.
  - rewrite append_cons, endswith_cons, IH. apply orb_true_r.
Qed.

Lemma class_no_trailing_newline (s : string) :
  forallb_str token_class s = true -> endswith NL s = false.
Proof.
  induction s as [|a s IH]; [reflexivity|].
  rewrite forallb_str_cons, andb_true_iff. intros [Ha Hs].
  rewrite endswith_cons, (IH Hs), orb_false_r.
  apply String.eqb_neq. intros [= <- _]. discriminate Ha.
Qed.

(** Validity in the CLI module, spelled out. *)
Lemma cli_valid_shape (token : string) :
  Cli.is_valid (Cli.validate_token_format token) = true
  <-> exists body,
        token = "ops_" +:+ body /\ 100 <= String.length body
        /\ forallb_str token_class body = true.
Proof.
  split.
  - rewrite is_valid_checks, !andb_true_iff.
    intros [[[[_ _] _] Hfirst] Hpat].
    destruct (Cli.first_invalid_char 0 token) as [[c i]|] eqn:Hf0;
      [discriminate|]. clear Hfirst.
    assert (Hall : forallb_str allowed token = true).
    { destruct (forallb_str allowed token) eqn:H; [reflexivity|].
      destruct (first_invalid_char_some 0 token H) as (c & k & Hf & _).
      rewrite Nat.add_0_l in Hf. congruence. }
    unfold Cli.TOKEN_PATTERN_match in Hpat.
    destruct (strip_prefix "ops_" token) as [rest|] eqn:Hs; [|discriminate].
    apply strip_prefix_append in Hs as ->.
    rewrite allowed_all_class, forallb_str_append in Hall.
    apply andb_true_iff in Hall as [_ Hrest].
    rewrite (span_all _ _ Hrest) in Hpat.
    apply andb_true_iff in Hpat as [Hlen _]. apply Nat.leb_le in Hlen.
    exists rest. auto.
  - intros (body & -> & Hlen & Hcls).
    now rewrite validate_token_format_accepts.
Qed.

(** X12: the browser module's validation is the weaker one: a token the
    CLI module accepts is a token the browser module accepts that has at
    least 104 characters and does not end in a newline, and conversely. *)
Theorem cli_valid_iff_browser_valid (token : string) :
  Cli.is_valid (Cli.validate_token_format token) = true
  <-> Browser.validate_token_format (Some token) = true
      /\ 104 <= String.length token
      /\ endswith NL token = false.
Proof.
  rewrite cli_valid_shape. split.
  - intros (body & -> & Hlen & Hcls). split; [|split].
    + unfold Browser.validate_token_format, Browser.token_shape_match.
      assert (Hs : strip_prefix "ops_" ("ops_" +:+ body) = Some body)
        by now apply strip_prefix_append.
      assert (Hl : (String.length ("ops_" +:+ body) <? 100) = false).
      { apply Nat.ltb_ge. rewrite length_append.
        change (String.length "ops_") with 4. lia. }
      rewrite Hs, Hl, (span_all _ _ Hcls).
      assert (H1 : (1 <=? String.length body) = true) by (apply Nat.leb_le; lia).
      rewrite H1. reflexivity.
    + rewrite length_append. change (String.length "ops_") with 4. lia.
    + apply class_no_trailing_newline. rewrite forallb_str_append, Hcls.
      reflexivity.
  - intros (Hb & Hlen & Hnl).
    unfold Browser.validate_token_format, Browser.token_shape_match in Hb.
    destruct (negb (truthy token) || (String.length token <? 100));
      [discriminate|].
    destruct (negb (startswith "ops_" token)); [discriminate|].
    destruct (strip_prefix "ops_" token) as [rest|] eqn:Hs; [|discriminate].
    apply strip_prefix_append in Hs as ->.
    destruct (span token_class rest) as [run tail] eqn:Hspan.
    destruct (span_spec _ _ _ _ Hspan) as [-> Hrun].
    apply andb_true_iff in Hb as [_ Hdollar].
    destruct tail as [|c [|c' tail]]; cbn [at_dollar] in Hdollar;
      [|apply Ascii.eqb_eq in Hdollar as ->|discriminate].
    + rewrite append_nil_r in *. exists run. split; [reflexivity|].
      rewrite length_append in Hlen. change (String.length "ops_") with 4 in Hlen.
      split; [lia|exact Hrun].
    + exfalso.
      assert (H : endswith NL ("ops_" +:+ run +:+ NL) = true).
      { rewrite <- append_assoc. apply endswith_append_self. }
      change (String "010"%char EmptyString) with NL in Hnl. congruence.
Qed.

End ValidationFacts.

(** ** Token extraction from the page text *)

Section PageTextFacts.
Import Browser.

Lemma length_take (n : nat) (s : string) :
  String.length (take n s) = Nat.min n (String.length s).
Proof.
  revert s. induction n as [|n IH]; intros [|a s]; cbn [take String.length];
    try reflexivity.
  now rewrite IH.
Qed.

Lemma forallb_str_take (p : ascii -> bool) (n : nat) (s : string) :
  forallb_str p s = true -> forallb_str p (take n s) = true.
Proof.
  revert s. induction n as [|n IH]; intros [|a s]; cbn [take forallb_str];
    try reflexivity.
  rewrite !andb_true_iff. intros [Ha Hs]. auto.
Qed.

Lemma bounded_match_here_shape (s t : string) :
  bounded_match_here s = Some t ->
  exists body,
    t = "ops_" +:+ body /\ 100 <= String.length body <= 500
    /\ forallb_str token_class body = true.
Proof.
  unfold bounded_match_here.
  destruct (strip_prefix "ops_" s) as [rest|]; [|discriminate].
  destruct (span token_class rest) as [run tail] eqn:Hspan.
  destruct (span_spec _ _ _ _ Hspan) as [_ Hrun].
  destruct (100 <=? String.length run) eqn:Hlen; [|discriminate].
  apply Nat.leb_le in Hlen. intros [= <-].
  exists (take 500 run). split; [reflexivity|]. rewrite length_take.
  split; [lia|]. now apply forallb_str_take.
Qed.

Lemma first_bounded_match_shape (s t : string) :
  first_bounded_match s = Some t ->
  exists body,
    t = "ops_" +:+ body /\ 100 <= String.length body <= 500
    /\ forallb_str token_class body = true.
Proof.
  induction s as [|a s IH]; cbn [first_bounded_match].
  - destruct (bounded_match_here EmptyString) as [t'|] eqn:Hm; [|discriminate].
    intros [= <-]. now apply (bounded_match_here_shape EmptyString).
  - destruct (bounded_match_here (String a s)) as [t'|] eqn:Hm.
    + intros [= <-]. now apply (bounded_match_here_shape (String a s)).
    + exact IH.
Qed.

(** X13: a token read off the page text is [ops_] followed by 100 to 500
    characters of the token class, whatever the page shows; so it also
    passes every check of the CLI module's validation. *)
Theorem extract_token_via_page_text_shape (page : Page) (token : string) :
  (extract_token_via_page_text page).1 = Some token ->
  104 <= String.length token <= 504
  /\ startswith "ops_" token = true
  /\ Cli.validate_token_format token = all_checks_pass.
Proof.
  unfold extract_token_via_page_text.
  destruct (body_text page) as [[page_text|]|]; try discriminate.
  destruct (first_bounded_match page_text) as [t|] eqn:Hm; try discriminate.
  destruct (validate_token_format (Some t)); [|discriminate].
  intros [= <-].
  destruct (first_bounded_match_shape _ _ Hm) as (body & -> & Hlen & Hcls).
  rewrite length_append. change (String.length "ops_") with 4.
  split; [lia|]. split; [reflexivity|].
  apply validate_token_format_accepts; [lia|exact Hcls].
Qed.

Definition page_showing_token : Browser.Page :=
  {| Browser.wait_for_selector := fun _ => Ok false;
     Browser.text_content := fun _ => Ok None;
     Browser.click := fun _ => Ok tt;
     Browser.read_clipboard := fun _ => Ok None;
     Browser.body_text := Ok (Some ("Your token: ops_aaaaaaaaaaaaaaaaaaaaaaaaaaaaaaaaaaaaaaaaaaaaaaaaaaaaaaaaaaaaaaaaaaaaaaaaaaaaaaaaaaaaaaaaaaaaaaaaaaaaaaaaaaaaaa (copy it now)"));
     Browser.screenshot := fun _ => Ok tt |}.

Lemma extract_token_via_page_text_shape_witness :
  104 <= String.length ("ops_aaaaaaaaaaaaaaaaaaaaaaaaaaaaaaaaaaaaaaaaaaaaaaaaaaaaaaaaaaaaaaaaaaaaaaaaaaaaaaaaaaaaaaaaaaaaaaaaaaaaaaaaaaaaaa") <= 504
  /\ startswith "ops_" ("ops_aaaaaaaaaaaaaaaaaaaaaaaaaaaaaaaaaaaaaaaaaaaaaaaaaaaaaaaaaaaaaaaaaaaaaaaaaaaaaaaaaaaaaaaaaaaaaaaaaaaaaaaaaaaaaa") = true
  /\ Cli.validate_token_format ("ops_aaaaaaaaaaaaaaaaaaaaaaaaaaaaaaaaaaaaaaaaaaaaaaaaaaaaaaaaaaaaaaaaaaaaaaaaaaaaaaaaaaaaaaaaaaaaaaaaaaaaaaaaaaaaaa") = all_checks_pass.
Proof.
  apply (extract_token_via_page_text_shape page_showing_token).
  vm_compute. reflexivity.
Defined.

End PageTextFacts.

(** ** Session teardown, in general *)

Section TeardownFacts.
Import Session.

(** The objects a manager holds, in the order [close_session] visits
    them. *)
Definition held (self : SessionManager) : list Handle :=
  omap id [page self; context self; browser self; playwright self].



Ltac teardown_eval :=
  unfold close_session, close_field, bind, try_except, log, get_self,
    set_self, release, ret;
  cbn [fst snd browser context page playwright].


(** X15: a manager whose objects all close without error has every one of
    them released, and the run ends with the success record in the log. *)
Theorem close_session_all_released
    (self : SessionManager) (evs : list Event) :
  Forall (fun h => close_outcome h = None) (held self) ->
  let evs' := (close_session (self, evs)).2.2 in
  releases evs' = releases evs ++ (resource <$> held self)
  /\ last evs' = Some (Log INFO "Browser session closed successfully").
Proof.
  destruct self as [b c p pw]. unfold held. cbn [page context browser playwright].
  intros Hall. teardown_eval.
  destruct p as [[rp [ep|]]|], c as [[rc [ec|]]|], b as [[rb [eb|]]|],
    pw as [[rpw [epw|]]|];
    cbn in Hall;
    repeat match goal with
           | H : Forall _ (_ :: _) |- _ => apply Forall_cons in H as [? H]
           end;
    cbn [close_outcome] in *;
    try discriminate;
    cbn [close_outcome clear_page clear_context clear_browser clear_playwright
         clear_all fst snd browser context page playwright];
    unfold releases; rewrite ?omap_app; cbn [omap]; rewrite <- ?app_assoc;
    rewrite ?last_snoc, ?last_app; (split; [|reflexivity]);
    cbn; rewrite ?app_nil_r; reflexivity.
Qed.

Lemma close_session_all_released_witness :
  releases (close_session (healthy_session, [])).2.2
  = [] ++ [ThePage; TheContext; TheBrowser; ThePlaywright]
  /\ last (close_session (healthy_session, [])).2.2
     = Some (Log INFO "Browser session closed successfully").
Proof.
  apply (close_session_all_released healthy_session []).
  repeat constructor.
Defined.

End TeardownFacts.

(** *** Stripping *)

Lemma rstrip_cons (a : ascii) (s : string) :
  rstrip (String a s)
  = match rstrip s with
    | EmptyString => if is_space a then EmptyString else String a EmptyString
    | r => String a r
    end.
Proof. reflexivity. Qed.

Lemma rstrip_idem (s : string) : rstrip (rstrip s) = rstrip s.
Proof.
  induction s as [|a s IH]; [reflexivity|].
  rewrite rstrip_cons. destruct (rstrip s) as [|b r] eqn:Hr.
  - destruct (is_space a) eqn:Ha; [reflexivity|].
    rewrite rstrip_cons. cbn [rstrip]. now rewrite Ha.
  - rewrite rstrip_cons, IH. reflexivity.
Qed.

(** No whitespace in front. *)
Definition starts_clean (s : string) : bool :=
  match s with
  | EmptyString => true
  | String a _ => negb (is_space a)
  end.

Lemma lstrip_starts_clean (s : string) : starts_clean (lstrip s) = true.
Proof.
  induction s as [|a s IH]; [reflexivity|]. cbn [lstrip].
  destruct (is_space a) eqn:Ha; [exact IH|]. cbn [starts_clean]. now rewrite Ha.
Qed.

Lemma lstrip_clean (s : string) : starts_clean s = true -> lstrip s = s.
Proof.
  destruct s as [|a s]; [reflexivity|]. cbn [starts_clean lstrip].
  now destruct (is_space a).
Qed.

Lemma rstrip_starts_clean (s : string) :
  starts_clean s = true -> starts_clean (rstrip s) = true.
Proof.
  destruct s as [|a s]; [reflexivity|]. cbn [starts_clean]. intros Ha.
  rewrite rstrip_cons. destruct (rstrip s); [|exact Ha].
  destruct (is_space a) eqn:E; [discriminate|]. cbn [starts_clean].
  now rewrite E.
Qed.

Lemma strip_idem (s : string) : strip (strip s) = strip s.
Proof.
  unfold strip. rewrite (lstrip_clean (rstrip (lstrip s))).
  - apply rstrip_idem.
  - apply rstrip_starts_clean, lstrip_starts_clean.
Qed.

Lemma forallb_str_lstrip (p : ascii -> bool) (s : string) :
  forallb_str p s = true -> forallb_str p (lstrip s) = true.
Proof.
  induction s as [|a s IH]; [reflexivity|]. cbn [lstrip].
  destruct (is_space a); [|auto]. rewrite forallb_str_cons, andb_true_iff.
  intros [_ H]. auto.
Qed.

Lemma forallb_str_rstrip (p : ascii -> bool) (s : string) :
  forallb_str p s = true -> forallb_str p (rstrip s) = true.
Proof.
  induction s as [|a s IH]; [reflexivity|].
  rewrite forallb_str_cons, andb_true_iff. intros [Ha Hs].
  rewrite rstrip_cons. specialize (IH Hs). destruct (rstrip s) as [|b r].
  - destruct (is_space a); [reflexivity|]. cbn [forallb_str]. now rewrite Ha.
  - rewrite forallb_str_cons, Ha. exact IH.
Qed.

Lemma forallb_str_strip (p : ascii -> bool) (s : string) :
  forallb_str p s = true -> forallb_str p (strip s) = true.
Proof. intros H. now apply forallb_str_rstrip, forallb_str_lstrip. Qed.

(** *** The account name in the output *)

Lemma name_group_chars (s name : string) :
  Whoami.name_group s = Some name ->
  forallb_str Whoami.name_char name = true.
Proof.
  unfold Whoami.name_group.
  destruct (span Whoami.name_char s) as [run rest] eqn:Hspan.
  destruct (span_spec _ _ _ _ Hspan) as [_ Hrun].
  destruct (truthy run); [|discriminate]. now intros [= <-].
Qed.

Lemma name_after_label_chars (s name : string) :
  Whoami.name_after_label s = Some name ->
  forallb_str Whoami.name_char name = true.
Proof.
  revert name. induction s as [|a s IH]; intros name; [discriminate|].
  cbn [Whoami.name_after_label].
  destruct (is_space a); [|apply name_group_chars].
  destruct (Whoami.name_after_label s) as [n|].
  - intros [= <-]. now apply IH.
  - apply name_group_chars.
Qed.

Lemma search_account_name_chars (output name : string) :
  Whoami.search_account_name output = Some name ->
  forallb_str Whoami.name_char name = true.
Proof.
  induction output as [|a output IH]; cbn [Whoami.search_account_name].
  - destruct (strip_prefix "Service Account:" EmptyString) as [rest|];
      [|discriminate].
    destruct (Whoami.name_after_label rest) as [n|] eqn:Hn; [|discriminate].
    intros [= <-]. now apply (name_after_label_chars rest).
  - destruct (strip_prefix "Service Account:" (String a output)) as [rest|].
    + destruct (Whoami.name_after_label rest) as [n|] eqn:Hn; [|exact IH].
      intros [= <-]. now apply (name_after_label_chars rest).
    + exact IH.
Qed.

(** ** The [op whoami] check *)

Section WhoamiFacts.
Import Whoami.
Variable run_outcome : nat -> RunOutcome.

(** The back-off after attempt [i]. *)
Definition delay_of (i : nat) : Q :=
  Qmin (BASE_DELAY * inject_Z (BACKOFF_MULTIPLIER ^ Z.of_nat i)) MAX_DELAY.

(** [k] attempts from [a] on, each followed by its back-off. *)
Definition retried (a k : nat) : list Event :=
  flat_map (fun i => [Run i; Sleep (delay_of i)]) (seq a k).

(** The outcomes after which the loop goes on when attempts are left. *)
Definition retryable (i : nat) : bool :=
  match run_outcome i with
  | Completed returncode _ stderr =>
      negb (returncode =? 0)%Z && is_transient (strip stderr)
  | NotFound => false
  | TimeoutExpired | Failed _ => true
  end.

(** What attempt [k] makes the function return when it is the last one. *)
Definition answer (k : nat) : CLIValidationResult :=
  match run_outcome k with
  | Completed returncode stdout stderr =>
      if (returncode =? 0)%Z then
        {| success := true; output := Some (strip stdout);
           service_account_name :=
             match search_account_name (strip stdout) with
             | Some name => Some (strip name)
             | None => None
             end;
           error_message := None |}
      else failure (Some (strip stderr))
             (Some ("op whoami failed: " +:+ strip stderr))
  | NotFound =>
      failure None
        (Some "1Password CLI (op) not found. Install with: brew install 1password-cli")
  | TimeoutExpired => failure None (Some "op whoami timed out after 10s")
  | Failed e => failure None (Some ("Unexpected error: " +:+ exn_str e))
  end.

Definition exceeded (max_retries : Z) : CLIValidationResult :=
  failure None
    (Some ("Max retries (" +:+ Decision.str_of_Z max_retries +:+ ") exceeded")).

Lemma attempts_loop_cons (m : Z) (a : nat) (rest : list nat) :
  attempts_loop run_outcome m (a :: rest)
  = if retryable a && (Z.of_nat a <? m - 1)%Z then
      if a <? 1024 then
        let '(r, evs) := attempts_loop run_outcome m rest in
        (r, Run a :: Sleep (delay_of a) :: evs)
      else (Raise OverflowError, [Run a])
    else (Ok (answer a), [Run a]).
Proof.
  cbn [attempts_loop]. unfold retryable, answer, backoff_then, backoff_delay.
  fold (delay_of a).
  destruct (run_outcome a) as [rc out err| | |e];
    [destruct (rc =? 0)%Z; [|destruct (is_transient (strip err))]|..];
    cbn [negb andb];
    destruct (Z.of_nat a <? m - 1)%Z; cbn [andb]; try reflexivity;
    destruct (a <? 1024); try reflexivity;
    destruct (attempts_loop run_outcome m rest); reflexivity.
Qed.

Lemma retried_snoc (a k : nat) :
  retried a (S k) = retried a k ++ [Run (a + k); Sleep (delay_of (a + k))].
Proof.
  unfold retried. rewrite seq_S, flat_map_app. cbn [flat_map].
  now rewrite app_nil_r.
Qed.

Lemma retried_cons (a k : nat) :
  retried a (S k) = Run a :: Sleep (delay_of a) :: retried (S a) k.
Proof. reflexivity. Qed.

(** The loop over the attempts [a .. a + n - 1], the last of which is
    attempt [max_retries - 1]: it stops at the first attempt [k] that is
    not retried. *)
Lemma attempts_loop_trace (m : Z) (n a : nat) :
  Z.of_nat (a + S n) = m ->
  exists k,
    a <= k <= a + n
    /\ (forall i, a <= i < k -> retryable i = true /\ i < 1024)
    /\ (attempts_loop run_outcome m (seq a (S n))).2
       = retried a (k - a) ++ [Run k]
    /\ ((attempts_loop run_outcome m (seq a (S n))).1 = Ok (answer k)
        /\ (retryable k = false \/ k = a + n)
        \/ (attempts_loop run_outcome m (seq a (S n))).1 = Raise OverflowError
           /\ retryable k = true /\ 1024 <= k /\ k < a + n).
Proof.
  revert a. induction n as [|n IH]; intros a Hm.
  - exists a. cbn [seq]. rewrite attempts_loop_cons.
    assert (Hlast : (Z.of_nat a <? m - 1)%Z = false) by (apply Z.ltb_ge; lia).
    rewrite Hlast, andb_false_r, Nat.sub_diag. cbn [fst snd retried seq flat_map app].
    repeat split; try lia. left. split; [reflexivity|]. right. lia.
  - change (seq a (S (S n))) with (a :: seq (S a) (S n)).
    rewrite attempts_loop_cons.
    assert (Hleft : (Z.of_nat a <? m - 1)%Z = true) by (apply Z.ltb_lt; lia).
    rewrite Hleft, andb_true_r.
    destruct (retryable a) eqn:Hretry.
    + destruct (a <? 1024) eqn:Hsmall.
      * apply Nat.ltb_lt in Hsmall.
        destruct (IH (S a)) as (k & Hk & Hbefore & Hevs & Hres); [lia|].
        destruct (attempts_loop run_outcome m (seq (S a) (S n))) as [r evs].
        cbn [fst snd] in *. exists k. split; [lia|]. split; [|split].
        -- intros i Hi. destruct (Nat.eq_dec i a) as [->|Hne]; [auto|].
           apply Hbefore. lia.
        -- replace (k - a) with (S (k - S a)) by lia.
           rewrite retried_cons, Hevs. reflexivity.
        -- destruct Hres as [[Hr Hlast]|(Hr & Hk1 & Hk2 & Hk3)].
           ++ left. split; [exact Hr|]. destruct Hlast; [auto|right; lia].
           ++ right. repeat split; auto; lia.
      * apply Nat.ltb_ge in Hsmall. exists a. rewrite Nat.sub_diag.
        cbn [fst snd retried seq flat_map app].
        repeat split; try lia. right. repeat split; auto; lia.
    + exists a. rewrite Nat.sub_diag. cbn [fst snd retried seq flat_map app].
      repeat split; try lia. left. auto.
Qed.

Lemma delay_of_bounds (i : nat) : (1 <= delay_of i)%Q /\ (delay_of i <= 60)%Q.
Proof.
  unfold delay_of, BASE_DELAY, MAX_DELAY, BACKOFF_MULTIPLIER. split.
  - apply Q.min_glb; [|discriminate].
    rewrite Qmult_1_l. change 1%Q with (inject_Z 1). rewrite <- Zle_Qle.
    assert (0 < 2 ^ Z.of_nat i)%Z by (apply Z.pow_pos_nonneg; lia). lia.
  - apply Q.le_min_r.
Qed.

Definition valid (token : string) : bool :=
  Cli.is_valid (Cli.validate_token_format token).

Lemma test_token_valid (token : string) (m : Z) :
  valid token = true ->
  test_token run_outcome token m
  = attempts_loop run_outcome m (seq 0 (Z.to_nat m)).
Proof. unfold valid, test_token. now intros ->. Qed.

(** The run of a valid token with at least one attempt allowed. *)
Lemma test_token_trace (token : string) (m : Z) :
  valid token = true -> (1 <= m)%Z ->
  exists k,
    (Z.of_nat k < m)%Z
    /\ (forall i, i < k -> retryable i = true /\ i < 1024)
    /\ (test_token run_outcome token m).2 = retried 0 k ++ [Run k]
    /\ ((test_token run_outcome token m).1 = Ok (answer k)
        /\ (retryable k = false \/ Z.of_nat k = (m - 1)%Z)
        \/ (test_token run_outcome token m).1 = Raise OverflowError
           /\ retryable k = true /\ 1024 <= k /\ (Z.of_nat k < m - 1)%Z).
Proof.
  intros Hv Hm. rewrite (test_token_valid _ _ Hv).
  destruct (Z.to_nat m) as [|n] eqn:Hn; [lia|].
  destruct (attempts_loop_trace m n 0) as (k & Hk & Hbefore & Hevs & Hres);
    [lia|].
  exists k. rewrite Nat.sub_0_r in Hevs. split; [lia|]. split; [|split].
  - intros i Hi. apply Hbefore. lia.
  - exact Hevs.
  - destruct Hres as [[Hr Hlast]|(Hr & Hk1 & Hk2 & Hk3)].
    + left. split; [exact Hr|]. destruct Hlast; [auto|right; lia].
    + right. repeat split; auto; lia.
Qed.

(** X16: the schedule of a run.  An invalid token, or a [max_retries] below
    one, runs nothing.  Otherwise the attempts are numbered from 0, there
    are at most [max_retries] of them and at most 1025, every attempt but
    the last is followed by one sleep, and the sleep after attempt [i] lasts
    [min(2^i, 60)] seconds, which is between 1 and 60. *)
Theorem test_token_schedule (token : string) (max_retries : Z) :
  (if valid token && (1 <=? max_retries)%Z
   then exists k,
          (Z.of_nat k < max_retries)%Z /\ k <= 1024
          /\ (test_token run_outcome token max_retries).2
             = retried 0 k ++ [Run k]
   else (test_token run_outcome token max_retries).2 = [])
  /\ forall i, (delay_of i == Qmin (inject_Z (2 ^ Z.of_nat i)) 60)%Q
               /\ (1 <= delay_of i)%Q /\ (delay_of i <= 60)%Q.
Proof.
  split.
  - destruct (valid token) eqn:Hv; cbn [andb].
    + destruct (1 <=? max_retries)%Z eqn:Hm.
      * apply Z.leb_le in Hm.
        destruct (test_token_trace token max_retries Hv Hm)
          as (k & Hk & Hbefore & Hevs & _).
        exists k. split; [exact Hk|]. split; [|exact Hevs].
        destruct (le_lt_dec k 1024) as [|Hbig]; [assumption|].
        destruct (Hbefore 1024); lia.
      * apply Z.leb_gt in Hm. rewrite (test_token_valid _ _ Hv).
        replace (Z.to_nat max_retries) with 0 by lia. reflexivity.
    + unfold valid in Hv. unfold test_token. now rewrite Hv.
  - intros i. split; [|apply delay_of_bounds].
    unfold delay_of, BASE_DELAY, MAX_DELAY, BACKOFF_MULTIPLIER.
    now rewrite Qmult_1_l.
Qed.

(** X17: the check succeeds exactly when the token is valid and some
    attempt within [max_retries] exits with code 0 after nothing but
    retryable outcomes (time-outs, unexpected exceptions, and failures whose
    error text names a transient cause); the result is then built from that
    attempt's output. *)
Theorem test_token_success_iff
    (token : string) (max_retries : Z) (r : CLIValidationResult) :
  (test_token run_outcome token max_retries).1 = Ok r /\ success r = true
  <-> valid token = true
      /\ exists k stdout stderr,
           (Z.of_nat k < max_retries)%Z /\ k <= 1024
           /\ (forall i, i < k -> retryable i = true)
           /\ run_outcome k = Completed 0 stdout stderr
           /\ r = {| success := true; output := Some (strip stdout);
                     service_account_name :=
                       match search_account_name (strip stdout) with
                       | Some name => Some (strip name)
                       | None => None
                       end;
                     error_message := None |}.
Proof.
  split.
  - intros [Hr Hs].
    destruct (valid token) eqn:Hv.
    2:{ unfold valid in Hv. unfold test_token in Hr. rewrite Hv in Hr.
        cbn in Hr. injection Hr as <-. discriminate Hs. }
    split; [reflexivity|].
    destruct (Z_le_gt_dec 1 max_retries) as [Hm|Hm].
    2:{ rewrite (test_token_valid _ _ Hv) in Hr.
        replace (Z.to_nat max_retries) with 0 in Hr by lia.
        cbn in Hr. injection Hr as <-. discriminate Hs. }
    destruct (test_token_trace token max_retries Hv Hm)
      as (k & Hk & Hbefore & _ & [[Hres _]|[Hres _]]);
      rewrite Hres in Hr; [|discriminate].
    injection Hr as <-. unfold answer in *.
    destruct (run_outcome k) as [rc out err| | |e] eqn:Hout;
      try discriminate Hs.
    destruct (rc =? 0)%Z eqn:Hrc; [|discriminate Hs].
    apply Z.eqb_eq in Hrc as ->.
    exists k, out, err. repeat split; auto.
    + destruct (le_lt_dec k 1024) as [|Hbig]; [assumption|].
      destruct (Hbefore 1024); lia.
    + intros i Hi. now apply Hbefore.
  - intros (Hv & k & out & err & Hk & Hsmall & Hbefore & Hout & ->).
    split; [|reflexivity].
    destruct (test_token_trace token max_retries Hv ltac:(lia))
      as (k' & Hk' & Hbefore' & _ & Hres).
    assert (Hstop : retryable k = false) by (unfold retryable; now rewrite Hout).
    assert (k' = k) as ->.
    { destruct (lt_eq_lt_dec k' k) as [[Hlt|Heq]|Hgt]; [|exact Heq|].
      - destruct Hres as [[_ [Hno|Hlast]]|(_ & _ & Hbig & _)];
          [specialize (Hbefore k' Hlt); congruence|lia|lia].
      - destruct (Hbefore' k Hgt). congruence. }
    destruct Hres as [[Hres _]|(_ & Hyes & _)]; [|congruence].
    rewrite Hres. unfold answer. now rewrite Hout.
Qed.

(** X18: the result [Max retries (n) exceeded], which the code expects never
    to return, is what a valid token gets exactly when [max_retries] is
    below one; no attempt is made then. *)
Theorem test_token_max_retries_exceeded (token : string) (max_retries : Z) :
  (test_token run_outcome token max_retries).1 = Ok (exceeded max_retries)
  <-> valid token = true /\ (max_retries <= 0)%Z.
Proof.
  split.
  - intros Hr. destruct (valid token) eqn:Hv.
    2:{ unfold valid in Hv. unfold test_token in Hr. rewrite Hv in Hr.
        cbn [negb fst] in Hr. injection Hr as Hr. discriminate Hr. }
    split; [reflexivity|].
    destruct (Z_le_gt_dec max_retries 0) as [Hm|Hm]; [exact Hm|exfalso].
    destruct (test_token_trace token max_retries Hv ltac:(lia))
      as (k & _ & _ & _ & [[Hres _]|[Hres _]]);
      rewrite Hres in Hr; [|discriminate].
    injection Hr as Hr. unfold answer, exceeded, failure in Hr.
    destruct (run_outcome k) as [rc out err| | |e];
      [destruct (rc =? 0)%Z|..]; discriminate Hr.
  - intros [Hv Hm]. rewrite (test_token_valid _ _ Hv).
    replace (Z.to_nat max_retries) with 0 by lia. reflexivity.
Qed.

(** X19: the only exception [test_token] lets through is the
    [OverflowError] of the back-off delay [1.0 * 2 ** 1024]: it takes a
    [max_retries] of 1026 or more and 1025 attempts that all ask for a
    retry. *)
Theorem test_token_raises_only_overflow
    (token : string) (max_retries : Z) (e : exn) :
  (test_token run_outcome token max_retries).1 = Raise e ->
  e = OverflowError /\ (1026 <= max_retries)%Z
  /\ (test_token run_outcome token max_retries).2
     = retried 0 1024 ++ [Run 1024].
Proof.
  intros Hr. destruct (valid token) eqn:Hv.
  2:{ unfold valid in Hv. unfold test_token in Hr. rewrite Hv in Hr.
      discriminate Hr. }
  destruct (Z_le_gt_dec 1 max_retries) as [Hm|Hm].
  2:{ rewrite (test_token_valid _ _ Hv) in Hr.
      replace (Z.to_nat max_retries) with 0 in Hr by lia. discriminate Hr. }
  destruct (test_token_trace token max_retries Hv Hm)
    as (k & Hk & Hbefore & Hevs & [[Hres _]|(Hres & _ & Hbig & Hleft)]);
    rewrite Hres in Hr; [discriminate|].
  injection Hr as <-.
  assert (k = 1024) as ->.
  { destruct (le_lt_dec k 1024) as [|Hgt]; [lia|]. destruct (Hbefore 1024); lia. }
  split; [reflexivity|]. split; [lia|exact Hevs].
Qed.

(** X20: a service-account name in a result comes from a successful run,
    holds no line break and no opening parenthesis, and has no whitespace
    around it. *)
Theorem test_token_account_name
    (token : string) (max_retries : Z) (r : CLIValidationResult)
    (name : string) :
  (test_token run_outcome token max_retries).1 = Ok r ->
  service_account_name r = Some name ->
  success r = true
  /\ forallb_str name_char name = true
  /\ strip name = name.
Proof.
  intros Hr Hname. destruct (valid token) eqn:Hv.
  2:{ unfold valid in Hv. unfold test_token in Hr. rewrite Hv in Hr.
      cbn in Hr. injection Hr as <-. discriminate Hname. }
  destruct (Z_le_gt_dec 1 max_retries) as [Hm|Hm].
  2:{ rewrite (test_token_valid _ _ Hv) in Hr.
      replace (Z.to_nat max_retries) with 0 in Hr by lia.
      cbn in Hr. injection Hr as <-. discriminate Hname. }
  destruct (test_token_trace token max_retries Hv Hm)
    as (k & _ & _ & _ & [[Hres _]|[Hres _]]);
    rewrite Hres in Hr; [|discriminate].
  injection Hr as <-. unfold answer in *.
  destruct (run_outcome k) as [rc out err| | |e]; try discriminate Hname.
  destruct (rc =? 0)%Z; [|discriminate Hname].
  cbn [service_account_name success] in *.
  destruct (search_account_name (strip out)) as [n|] eqn:Hn;
    [|discriminate Hname].
  injection Hname as <-. split; [reflexivity|]. split.
  - apply forallb_str_strip. now apply (search_account_name_chars (strip out)).
  - apply strip_idem.
Qed.

End WhoamiFacts.

(** A world in which [op whoami] never answers in time. *)
Definition always_timing_out : nat -> Whoami.RunOutcome :=
  fun _ => Whoami.TimeoutExpired.

Lemma test_token_raises_only_overflow_witness :
  Whoami.OverflowError = Whoami.OverflowError /\ (1026 <= 1026)%Z
  /\ (Whoami.test_token always_timing_out token_of_length_104 1026).2
     = retried 0 1024 ++ [Whoami.Run 1024].
Proof.
  apply (test_token_raises_only_overflow always_timing_out token_of_length_104 1026
           Whoami.OverflowError).
  vm_compute. reflexivity.
Defined.

(** A world in which the first run answers. *)
Definition answering : nat -> Whoami.RunOutcome :=
  fun _ => Whoami.Completed 0
             ("Service Account:  ci-bot (svc)" +:+ NL +:+ "URL: example") "".

Lemma test_token_account_name_witness :
  true = true
  /\ forallb_str Whoami.name_char "ci-bot" = true
  /\ strip "ci-bot" = "ci-bot".
Proof.
  apply (test_token_account_name answering token_of_length_104 3
           {| Whoami.success := true;
              Whoami.output :=
                Some ("Service Account:  ci-bot (svc)" +:+ NL +:+ "URL: example");
              Whoami.service_account_name := Some "ci-bot";
              Whoami.error_message := None |} "ci-bot").
  - vm_compute. reflexivity.
  - reflexivity.
Defined.

(** ** Redaction *)

Section RedactionFacts.
Import Redaction.

Lemma length_drop (n : nat) (s : string) :
  String.length (drop n s) = String.length s - n.
Proof.
  revert s. induction n as [|n IH]; intros [|a s]; cbn [drop String.length];
    try reflexivity.
  apply IH.
Qed.

Lemma contains_length (needle hay : string) :
  contains needle hay = true -> String.length needle <= String.length hay.
Proof.
  rewrite contains_iff. intros (pre & post & ->).
  rewrite !length_append. lia.
Qed.

(** X21: the redaction never shows more than 16 characters of the token.
    A token of 20 characters or more is shown as its first eight and last
    eight characters around three dots, 19 characters in all, in which the
    token does not occur; anything shorter, and a missing token, gives the
    fixed mask. *)
Theorem redacted_token_hides_token (self : ServiceAccountResult) :
  match token self with
  | Some t =>
      if 20 <=? String.length t then
        redacted_token self = take 8 t +:+ "..." +:+ last_chars 8 t
        /\ String.length (redacted_token self) = 19
        /\ contains t (redacted_token self) = false
      else redacted_token self = "ops_****...****"
  | None => redacted_token self = "ops_****...****"
  end.
Proof.
  unfold redacted_token. destruct (token self) as [t|]; [|reflexivity].
  destruct (20 <=? String.length t) eqn:Hlen.
  - apply Nat.leb_le in Hlen.
    assert (Hshort : (String.length t <? 20) = false) by (apply Nat.ltb_ge; lia).
    assert (Ht : truthy t = true) by (destruct t; [cbn in Hlen; lia|reflexivity]).
    rewrite Hshort, Ht. cbn [negb orb].
    assert (Hl : String.length (take 8 t +:+ "..." +:+ last_chars 8 t) = 19).
    { rewrite !length_append, length_take. unfold last_chars.
      rewrite length_drop. cbn [String.length]. lia. }
    split; [reflexivity|]. split; [exact Hl|].
    destruct (contains t _) eqn:Hc; [|reflexivity].
    apply contains_length in Hc. lia.
  - apply Nat.leb_gt in Hlen.
    assert (Hshort : (String.length t <? 20) = true) by (apply Nat.ltb_lt; lia).
    rewrite Hshort, orb_true_r. reflexivity.
Qed.

End RedactionFacts.

(** ** The decision engine: what it navigates to, fills and clicks *)

Section DecisionFacts.
Import Decision.

Lemma maybe_retry_type (context : DecisionContext) (a : Action) :
  _maybe_retry context = Some a -> action_type a = RETRY.
Proof.
  unfold _maybe_retry.
  destruct (ctx_last_result context); try discriminate;
    (destruct (evaluate_result _); [discriminate|]);
    (destruct (ctx_last_error context) as [e|]; cbn [fmap option_fmap option_map];
     [destruct (negb (retryable _)); [discriminate|];
      destruct (negb (should_retry _ _))|]);
    now intros [= <-].
Qed.

Lemma first_truthy_str_truthy (values : list (option string)) (s : string) :
  first_truthy_str values = Some s -> truthy s = true /\ Some s ∈ values.
Proof.
  unfold first_truthy_str.
  destruct (list_find _ values) as [[i v]|] eqn:Hfind; [|discriminate].
  apply list_find_Some in Hfind as (Hi & Hv & _). cbn. intros ->.
  split; [exact Hv|]. eapply list_elem_of_lookup_2; eauto.
Qed.

Lemma maybe_navigate_spec
    (context : DecisionContext) (analysis : PageAnalysis) (a : Action) :
  _maybe_navigate context analysis = Some a ->
  action_type a = NAVIGATE
  /\ exists target,
       first_truthy_str [in_target_url (ctx_intent context);
                         md_target_url (ctx_metadata context)] = Some target
       /\ url a = Some target
       /\ _url_matches (pa_url analysis) target = false.
Proof.
  unfold _maybe_navigate.
  destruct (first_truthy_str _) as [target|]; [|discriminate].
  destruct (_url_matches (pa_url analysis) target) eqn:Hm; [discriminate|].
  intros [= <-]. split; [reflexivity|]. exists target. auto.
Qed.

Lemma maybe_extract_type
    (context : DecisionContext) (analysis : PageAnalysis) (a : Action) :
  _maybe_extract context analysis = Some a -> action_type a = EXTRACT.
Proof.
  unfold _maybe_extract. destruct (first_truthy_list _); [|discriminate].
  now intros [= <-].
Qed.

(** What [_select_best_input] holds in [best] while it runs over the inputs
    and the form data. *)
Definition input_candidate
    (inputs : list Element) (form_data : list (string * string))
    (best : option (Element * string * string * Q)) : Prop :=
  match best with
  | None => True
  | Some (element, field_key, value, score) =>
      element ∈ inputs /\ _is_filled element = false
      /\ (field_key, value) ∈ form_data
      /\ score = _score_match (_element_text element) field_key
      /\ Qle_bool score 0 = false
  end.

Lemma fold_left_invariant {A B} (P : A -> Prop) (f : A -> B -> A)
    (l : list B) (a : A) :
  P a -> (forall a b, b ∈ l -> P a -> P (f a b)) -> P (fold_left f l a).
Proof.
  revert a. induction l as [|b l IH]; intros a Ha Hf; [exact Ha|].
  cbn [fold_left]. apply IH.
  - apply Hf; [now left|exact Ha].
  - intros a' b' Hb'. apply Hf. now right.
Qed.

Lemma select_best_input_spec
    (inputs : list Element) (form_data : list (string * string)) :
  input_candidate inputs form_data (_select_best_input inputs form_data).
Proof.
  unfold _select_best_input.
  apply fold_left_invariant; [exact I|].
  intros best element He Hbest.
  destruct (_is_filled element) eqn:Hf; [exact Hbest|]. cbv zeta.
  apply fold_left_invariant; [exact Hbest|].
  intros best' [k v] Hkv Hbest'.
  destruct (Qle_bool (_score_match (_element_text element) k) 0) eqn:Hs;
    [exact Hbest'|].
  assert (Hnew : input_candidate inputs form_data
                   (Some (element, k, v,
                          _score_match (_element_text element) k))).
  { unfold input_candidate. split; [exact He|]. split; [exact Hf|].
    split; [exact Hkv|]. split; [reflexivity|exact Hs]. }
  destruct best' as [[[[e0 k0] v0] s0]|]; [|exact Hnew].
  destruct (Qgtb _ s0); [exact Hnew|exact Hbest'].
Qed.

Lemma select_search_input_spec (inputs : list Element) (e : Element) :
  _select_search_input inputs = Some e ->
  e ∈ inputs /\ _is_filled e = false.
Proof.
  unfold _select_search_input.
  destruct (list_find _ inputs) as [[i x]|] eqn:Hfind; [|discriminate].
  apply list_find_Some in Hfind as (Hi & Hx & _). cbn. intros [= <-].
  split; [eapply list_elem_of_lookup_2; eauto|].
  apply andb_true_iff in Hx as [Hx _]. now apply negb_true_iff in Hx.
Qed.

Lemma maybe_fill_spec
    (context : DecisionContext) (analysis : PageAnalysis) (a : Action) :
  _maybe_fill context analysis = Some a ->
  action_type a = FILL
  /\ exists e, e ∈ pa_inputs analysis /\ _is_filled e = false
               /\ selector a = el_selector e /\ is_Some (value a).
Proof.
  unfold _maybe_fill. destruct (pa_inputs analysis) as [|i0 inputs] eqn:Hin;
    [discriminate|]. rewrite <- Hin. clear Hin.
  destruct (first_truthy_list _ ≫= _select_best_input (pa_inputs analysis))
    as [[[[e k] v] s]|] eqn:Hbest.
  - intros [= <-]. split; [reflexivity|]. exists e.
    destruct (first_truthy_list _) as [fd|]; [|discriminate].
    cbn in Hbest.
    pose proof (select_best_input_spec (pa_inputs analysis) fd) as Hspec.
    rewrite Hbest in Hspec. destruct Hspec as (He & Hf & _).
    repeat split; auto; try (now eexists).
  - unfold fill_search. destruct (first_truthy_str _) as [q|]; [|discriminate].
    destruct (_select_search_input (pa_inputs analysis)) as [e|] eqn:Hs;
      [|discriminate].
    intros [= <-]. split; [reflexivity|]. exists e.
    destruct (select_search_input_spec _ _ Hs). repeat split; auto; try (now eexists).
Qed.


(** What [_select_best_click] holds in [best] while it runs over the
    clickable elements and the labels. *)
Definition click_candidate_ok
    (clickables : list Element) (best : option (Element * string * Q)) : Prop :=
  match best with
  | None => True
  | Some (element, label, score) =>
      element ∈ clickables
      /\ contains label (_element_text element) = true
  end.

Lemma select_best_click_spec (clickables : list Element) :
  click_candidate_ok clickables (_select_best_click clickables).
Proof.
  unfold _select_best_click. cbv zeta.
  apply fold_left_invariant; [exact I|].
  intros best element He Hbest.
  apply fold_left_invariant; [exact Hbest|].
  intros best' [rank label] _ Hbest'.
  destruct (contains label (_element_text element)) eqn:Hc; [|exact Hbest'].
  destruct best' as [[[e0 l0] s0]|]; [|now split].
  destruct (Qgtb _ s0); [now split|exact Hbest'].
Qed.

Lemma match_click_text_spec
    (clickables : list Element) (target_text : string) (e : Element) :
  _match_click_text clickables target_text = Some e -> e ∈ clickables.
Proof.
  unfold _match_click_text. destruct (negb _); [discriminate|].
  destruct (list_find _ clickables) as [[i x]|] eqn:Hfind; [|discriminate].
  apply list_find_Some in Hfind as (Hi & _). cbn. intros [= <-].
  eapply list_elem_of_lookup_2; eauto.
Qed.

Lemma maybe_click_spec
    (context : DecisionContext) (analysis : PageAnalysis) (a : Action) :
  _maybe_click context analysis = Some a ->
  action_type a = CLICK
  /\ (opt_truthy (in_click_selector (ctx_intent context)) = true
      /\ selector a = in_click_selector (ctx_intent context)
      \/ exists e, e ∈ pa_clickables analysis /\ selector a = el_selector e).
Proof.
  unfold _maybe_click. destruct (pa_clickables analysis) as [|c0 cs] eqn:Hcl;
    [discriminate|]. rewrite <- Hcl. clear Hcl.
  destruct (opt_truthy (in_click_selector (ctx_intent context))) eqn:Hsel.
  { intros [= <-]. split; [reflexivity|]. now left. }
  destruct (opt_truthy (in_click_text (ctx_intent context))).
  - destruct (_match_click_text _ _) as [m|] eqn:Hm.
    + intros [= <-]. split; [reflexivity|]. right. exists m.
      split; [|reflexivity]. eapply match_click_text_spec; eauto.
    + unfold click_candidate.
      pose proof (select_best_click_spec (pa_clickables analysis)) as Hspec.
      destruct (_select_best_click _) as [[[e l] s]|]; [|discriminate].
      intros [= <-]. split; [reflexivity|]. right. exists e.
      destruct Hspec as [He _]. auto.
  - unfold click_candidate.
    pose proof (select_best_click_spec (pa_clickables analysis)) as Hspec.
    destruct (_select_best_click _) as [[[e l] s]|]; [|discriminate].
    intros [= <-]. split; [reflexivity|]. right. exists e.
    destruct Hspec as [He _]. auto.
Qed.

(** The rule that produced the action of [decide]. *)
Lemma decide_cases (context : DecisionContext) :
  let a := (decide context).1 in
  let analysis := _analyze context in
  action_type a = RETRY
  \/ _maybe_navigate context analysis = Some a
  \/ _maybe_extract context analysis = Some a
  \/ _maybe_fill context analysis = Some a
  \/ _maybe_click context analysis = Some a.
Proof.
  unfold decide, _select_action, select_after_retry. cbn [fst].
  destruct (_maybe_retry context) as [r|] eqn:Hr.
  { left. eapply maybe_retry_type; eauto. }
  destruct (has_captcha _); [now left|].
  destruct (has_error _); [now left|].
  destruct (_maybe_navigate _ _); [auto|].
  destruct (_maybe_extract _ _); [auto|].
  destruct (_maybe_fill _ _); [auto 6|].
  destruct (_maybe_click _ _); [auto 6|]. now left.
Qed.

(** X22: [decide] navigates only away: a NAVIGATE action carries the
    target URL of the intent (or, failing that, of the metadata), which is
    not empty, and is chosen only when the current URL is empty or does not
    contain the target. *)
Theorem decide_navigates_only_away (context : DecisionContext) :
  action_type (decide context).1 = NAVIGATE ->
  exists target,
    first_truthy_str [in_target_url (ctx_intent context);
                      md_target_url (ctx_metadata context)] = Some target
    /\ url (decide context).1 = Some target
    /\ truthy target = true
    /\ truthy (ctx_url context) && contains target (ctx_url context) = false.
Proof.
  intros Htype.
  destruct (decide_cases context) as [H|[H|[H|[H|H]]]];
    cbv zeta in H.
  - congruence.
  - apply maybe_navigate_spec in H as (_ & target & Hfirst & Hurl & Hmatch).
    exists target. split; [exact Hfirst|]. split; [exact Hurl|].
    destruct (first_truthy_str_truthy _ _ Hfirst) as [Ht _].
    split; [exact Ht|].
    rewrite url_matches_substring in Hmatch.
    change (pa_url (_analyze context)) with (ctx_url context) in Hmatch.
    rewrite Ht, andb_true_r in Hmatch. exact Hmatch.
  - apply maybe_extract_type in H. congruence.
  - apply maybe_fill_spec in H as [H _]. congruence.
  - apply maybe_click_spec in H as [H _]. congruence.
Qed.

(** A context at a blank page, with nothing tried yet and an intent that
    names the page to reach. *)
Definition navigation_context : DecisionContext :=
  {| ctx_url := "about:blank";
     ctx_dom := "<html><body></body></html>";
     ctx_visible_elements := [];
     ctx_intent :=
       {| in_target_url := Some "https://my.1password.com/developer-tools";
          in_extract := None; in_extract_selectors := None;
          in_form_data := None; in_inputs := None; in_query := None;
          in_text := None; in_value := None; in_click_selector := None;
          in_click_text := None |};
     ctx_errors := []; ctx_last_action := None; ctx_last_result := RNone;
     ctx_last_error := None; ctx_retry_count := 0; ctx_history := [];
     ctx_decision_log := []; ctx_metadata := empty_metadata |}.

Lemma decide_navigates_only_away_witness :
  exists target,
    first_truthy_str
      [in_target_url (ctx_intent navigation_context);
       md_target_url (ctx_metadata navigation_context)] = Some target
    /\ url (decide navigation_context).1 = Some target
    /\ truthy target = true
    /\ truthy (ctx_url navigation_context)
       && contains target (ctx_url navigation_context) = false.
Proof.
  apply (decide_navigates_only_away navigation_context).
  vm_compute. reflexivity.
Defined.

(** X23: [decide] acts on what it was shown: a FILL action targets a
    visible input element that is not filled yet, and a CLICK action
    targets the selector the intent names or a visible clickable
    element. *)
Theorem decide_targets_visible_elements (context : DecisionContext) :
  match action_type (decide context).1 with
  | FILL =>
      exists e,
        e ∈ ctx_visible_elements context
        /\ _is_input e = true /\ _is_filled e = false
        /\ selector (decide context).1 = el_selector e
        /\ is_Some (value (decide context).1)
  | CLICK =>
      opt_truthy (in_click_selector (ctx_intent context)) = true
      /\ selector (decide context).1 = in_click_selector (ctx_intent context)
      \/ exists e,
           e ∈ ctx_visible_elements context
           /\ _is_clickable e = true
           /\ selector (decide context).1 = el_selector e
  | _ => True
  end.
Proof.
  destruct (decide_cases context) as [H|[H|[H|[H|H]]]];
    cbv zeta in H.
  - now rewrite H.
  - apply maybe_navigate_spec in H as [-> _]. exact I.
  - apply maybe_extract_type in H as ->. exact I.
  - apply maybe_fill_spec in H as (-> & e & He & Hf & Hsel & Hval).
    exists e. unfold _analyze in He. cbn [pa_inputs] in He.
    apply list_elem_of_filter in He as [Hin He]. auto.
  - apply maybe_click_spec in H as (-> & [Hsel|(e & He & Hsel)]); [now left|].
    right. exists e. unfold _analyze in He. cbn [pa_clickables] in He.
    apply list_elem_of_filter in He as [Hc He]. auto.
Qed.

End DecisionFacts.
